(** * hidden-web-caches-discovery: the analyser, the cache buster and the
      experiment controllers, embedded from the Python sources.

    Layout: the pieces of Python and of its libraries that the sources lean on
    ([Py], [Str], [Url]), the samples the controllers record ([Sample]), one
    module per source file ([Analysis], [CacheBuster], [H2Request],
    [ExperimentWcd], [Preliminary]), and then the properties, grouped by
    component. *)

From Stdlib Require Import List ZArith Lia Bool String Ascii Floats.
From Stdlib Require Uint63.
From Equations Require Import Equations.
Import ListNotations.

Set Warnings "-inexact-float".
Local Open Scope string_scope.
Local Open Scope list_scope.

(* ===================================================================== *)
(** * Python runtime *)
(* ===================================================================== *)

Module Py.

(** Exceptions the modelled code can raise. *)
Inductive exn : Type :=
| ZeroDivisionError
| OverflowError
| KeyError (key : string)
| ValueError
| TypeError.

(** Outcome of running a piece of code: a value, an exception, or [Timeout]
    when a [while] loop was cut by the fuel of the model. *)
Inductive outcome (A : Type) : Type :=
| Ok (a : A)
| Raise (e : exn)
| Timeout.
Arguments Ok {A} a.
Arguments Raise {A} e.
Arguments Timeout {A}.

(** Code that reads and writes a store [S] and may raise. *)
Definition M (S A : Type) : Type := S -> outcome A * S.

Definition ret {S A} (a : A) : M S A := fun s => (Ok a, s).

Definition bind {S A B} (m : M S A) (k : A -> M S B) : M S B :=
  fun s =>
    match m s with
    | (Ok a, s') => k a s'
    | (Raise e, s') => (Raise e, s')
    | (Timeout, s') => (Timeout, s')
    end.

Definition raise {S A} (e : exn) : M S A := fun s => (Raise e, s).
Definition get {S} : M S S := fun s => (Ok s, s).
Definition modify {S} (f : S -> S) : M S unit := fun s => (Ok tt, f s).

(** Pure code that may raise: no store. *)
Definition obind {A B} (o : outcome A) (k : A -> outcome B) : outcome B :=
  match o with
  | Ok a => k a
  | Raise e => Raise e
  | Timeout => Timeout
  end.

Definition lift {S A} (o : outcome A) : M S A := fun s => (o, s).

(** A list comprehension whose element expression may raise: the first
    exception wins. *)
Fixpoint omap {A B} (f : A -> outcome B) (l : list A) : outcome (list B) :=
  match l with
  | [] => Ok []
  | x :: xs => obind (f x) (fun y => obind (omap f xs) (fun ys => Ok (y :: ys)))
  end.

(** ** Floats: Python's [float] is IEEE 754 binary64, as is [PrimFloat]. *)

(** [len(l)] converted to a float, as [/] does with an [int] operand. *)
Definition float_of_len {A} (l : list A) : float :=
  of_uint63 (Uint63.of_Z (Z.of_nat (List.length l))).

(** [sum(l)] for a list of floats: the additions run left to right from 0,
    each rounded to nearest (CPython up to 3.11; the compensated sum of 3.12
    agrees with it on every list evaluated in this file). *)
Definition sum (l : list float) : float := fold_left PrimFloat.add l 0%float.

(** [a / len(l)]: division by zero raises, and [len(l)] is zero exactly when
    [l] is empty. *)
Definition div_len {A} (a : float) (l : list A) : outcome float :=
  match l with
  | [] => Raise ZeroDivisionError
  | _ :: _ => Ok (a / float_of_len l)%float
  end.

(** ** [x ** y] on floats

    CPython's [float_pow] (Objects/floatobject.c) settles the special bases
    itself (NaN, the infinities, the zeros, a negative base, the base 1) and
    hands every other case to the [pow] of the platform's C library. That
    function is not correctly rounded: its result can differ from the
    rounded exact power in the last bit, and differs from one library to the
    next. It is therefore a parameter here. What is asked of it is what every
    C library gives: the power of a positive base is not negative. *)
Record libm : Type := mk_libm {
  libm_pow : float -> float -> float;
  libm_pow_sign :
    forall x y, PrimFloat.ltb 0 x = true -> PrimFloat.ltb (libm_pow x y) 0 = false
}.

(** The value of a power: a float, or a complex number (whose value plays
    no part in what follows). *)
Inductive number : Type :=
| Real (x : float)
| Complex.

(** The last step of [float_pow], for a finite positive base other than 1
    and a finite exponent other than 0: [errno = 0; ix = pow(iv, iw);
    _Py_ADJUST_ERANGE1(ix)], then [OverflowError] when [errno] is set. With
    [errno] set by [pow] on overflow and on underflow to zero only, as the C
    standard describes and glibc does, the macro leaves it set exactly when
    the result is infinite. *)
Definition platform_pow (L : libm) (iv iw : float) : outcome float :=
  let ix := libm_pow L iv iw in
  if PrimFloat.is_infinity ix then Raise OverflowError else Ok ix.

(** [x ** 2], that is [float_pow] with [iw = 2.0], an even integer: a NaN
    is returned as it is, an infinity gives [fabs(iv)], a zero gives 0.0, a
    negative base is replaced by its opposite, the base 1 gives 1.0, and the
    rest is the platform's. *)
Definition pow2 (L : libm) (x : float) : outcome float :=
  if PrimFloat.is_nan x then Ok x
  else if PrimFloat.is_infinity x then Ok (abs x)
  else if PrimFloat.is_zero x then Ok 0%float
  else
    let iv := if PrimFloat.ltb x 0 then (- x)%float else x in
    if PrimFloat.eqb iv 1 then Ok 1%float
    else platform_pow L iv 2.

(** [x ** 0.5], that is [float_pow] with [iw = 0.5], not an integer: as
    above, except that a negative base gives a complex number. *)
Definition pow_half (L : libm) (x : float) : outcome number :=
  if PrimFloat.is_nan x then Ok (Real x)
  else if PrimFloat.is_infinity x then Ok (Real (abs x))
  else if PrimFloat.is_zero x then Ok (Real 0%float)
  else if PrimFloat.ltb x 0 then Ok Complex
  else if PrimFloat.eqb x 1 then Ok (Real 1%float)
  else obind (platform_pow L x 0.5) (fun ix => Ok (Real ix)).

(** [round(x, 2)]: the decimal nearest to the exact value of [x] with two
    digits after the point (ties to the even digit), converted back to the
    nearest float. Infinities and NaN are returned as they are. *)
Definition round_half_even_div (a b : Z) : Z :=
  let q := (a / b)%Z in
  let r := (a mod b)%Z in
  match (2 * r ?= b)%Z with
  | Lt => q
  | Gt => (q + 1)%Z
  | Eq => if Z.even q then q else (q + 1)%Z
  end.

Definition round2 (x : float) : float :=
  match Prim2SF x with
  | S754_finite s m e =>
      let hundredths :=
        if (0 <=? e)%Z then (100 * Zpos m * 2 ^ e)%Z
        else round_half_even_div (100 * Zpos m) (2 ^ (- e)) in
      match hundredths with
      | Zpos n =>
          SF2Prim (SFdiv prec emax (S754_finite s n 0) (S754_finite false 100 0))
      | _ => if s then neg_zero else zero
      end
  | _ => x
  end.

(** ** Dictionaries: insertion-ordered, one binding per key. *)

Definition dict (V : Type) : Type := list (string * V).

Fixpoint dict_get {V} (d : dict V) (k : string) : option V :=
  match d with
  | [] => None
  | (k', v) :: d' => if String.eqb k' k then Some v else dict_get d' k
  end.

(** [k in d] *)
Definition dict_mem {V} (d : dict V) (k : string) : bool :=
  match dict_get d k with Some _ => true | None => false end.

(** [d[k] = v]: an existing key keeps its place, a new one goes last. *)
Fixpoint dict_set {V} (d : dict V) (k : string) (v : V) : dict V :=
  match d with
  | [] => [(k, v)]
  | (k', v') :: d' =>
      if String.eqb k' k then (k', v) :: d' else (k', v') :: dict_set d' k v
  end.

Definition dict_keys {V} (d : dict V) : list string := map fst d.

(** A value together with the equation that names it. *)
Definition inspect {A} (a : A) : {b : A | a = b} := exist _ a eq_refl.

(** ** Loops *)

(** What a loop body hands back: go on with the loop variables [a], leave the
    loop ([break]) with them, or [return r] from the enclosing function. *)
Inductive flow (A R : Type) : Type :=
| Continue (a : A)
| Break (a : A)
| Return (r : R).
Arguments Continue {A R} a.
Arguments Break {A R} a.
Arguments Return {A R} r.

(** [for x in l: body], the loop variables threaded through [acc]. *)
Fixpoint for_each {S X A R} (l : list X) (acc : A)
    (body : X -> A -> M S (flow A R)) : M S (flow A R) :=
  match l with
  | [] => ret (Continue acc)
  | x :: xs =>
      bind (body x acc) (fun r =>
        match r with
        | Continue acc' => for_each xs acc' body
        | Break acc' => ret (Continue acc')
        | Return v => ret (Return v)
        end)
  end.

(** [for x in l: acc = body(acc, x)], a loop with no [break] or [return]. *)
Fixpoint fold_m {S X A} (body : A -> X -> M S A) (l : list X) (acc : A) : M S A :=
  match l with
  | [] => ret acc
  | x :: xs => bind (body acc x) (fold_m body xs)
  end.

End Py.

Import Py.

Declare Scope py_scope.
Delimit Scope py_scope with py.
Notation "x <- m ;; k" := (Py.bind m (fun x => k))
  (at level 61, m at next level, right associativity) : py_scope.
Notation "m ;;; k" := (Py.bind m (fun _ => k))
  (at level 61, right associativity) : py_scope.
Notation "'let?' x := o 'in' k" := (Py.obind o (fun x => k))
  (at level 10, x name, o at level 200, k at level 200) : py_scope.
Local Open Scope py_scope.

(* ===================================================================== *)
(** * Python strings *)
(* ===================================================================== *)

Module Str.

Definition is_upper (c : ascii) : bool :=
  let n := nat_of_ascii c in (65 <=? n)%nat && (n <=? 90)%nat.

Definition is_lower (c : ascii) : bool :=
  let n := nat_of_ascii c in (97 <=? n)%nat && (n <=? 122)%nat.

Definition is_alpha (c : ascii) : bool := is_upper c || is_lower c.

Definition is_digit (c : ascii) : bool :=
  let n := nat_of_ascii c in (48 <=? n)%nat && (n <=? 57)%nat.

(** The characters [str.strip()] removes: space, tab, newline, vertical tab,
    form feed, carriage return and the four ASCII separators. *)
Definition is_space (c : ascii) : bool :=
  let n := nat_of_ascii c in
  (n =? 32)%nat || ((9 <=? n)%nat && (n <=? 13)%nat) || ((28 <=? n)%nat && (n <=? 31)%nat).

Definition lower_char (c : ascii) : ascii :=
  if is_upper c then ascii_of_nat (nat_of_ascii c + 32) else c.

(** [s.lower()], on ASCII text. *)
Fixpoint lower (s : string) : string :=
  match s with
  | EmptyString => EmptyString
  | String c s' => String (lower_char c) (lower s')
  end.

(** [s.startswith(p)] *)
Definition startswith (s p : string) : bool := String.prefix p s.

(** [needle in hay]: [needle] occurs in [hay] as a substring. *)
Fixpoint contains (needle hay : string) : bool :=
  String.prefix needle hay
  || match hay with
     | EmptyString => false
     | String _ hay' => contains needle hay'
     end.

Fixpoint all_chars (p : ascii -> bool) (s : string) : bool :=
  match s with
  | EmptyString => true
  | String c s' => p c && all_chars p s'
  end.

Fixpoint lstrip (s : string) : string :=
  match s with
  | EmptyString => EmptyString
  | String c s' => if is_space c then lstrip s' else s
  end.

Fixpoint rstrip (s : string) : string :=
  match s with
  | EmptyString => EmptyString
  | String c s' =>
      match rstrip s' with
      | EmptyString => if is_space c then EmptyString else String c EmptyString
      | r => String c r
      end
  end.

(** [s.strip()] *)
Definition strip (s : string) : string := rstrip (lstrip s).

(** [s.split(sep)] for a one-character separator: never the empty list. *)
Fixpoint split (sep : ascii) (s : string) : list string :=
  match s with
  | EmptyString => [EmptyString]
  | String c s' =>
      if Ascii.eqb c sep then EmptyString :: split sep s'
      else match split sep s' with
           | [] => [String c EmptyString]
           | w :: ws => String c w :: ws
           end
  end.

(** [s.partition(sep)]: what precedes the first [sep], and what follows it
    when there is one. *)
Fixpoint partition (sep : ascii -> bool) (s : string) : string * option string :=
  match s with
  | EmptyString => (EmptyString, None)
  | String c s' =>
      if sep c then (EmptyString, Some s')
      else let '(before, rest) := partition sep s' in (String c before, rest)
  end.

(** [c in s] for a character. *)
Fixpoint has_char (c : ascii) (s : string) : bool :=
  match s with
  | EmptyString => false
  | String c' s' => Ascii.eqb c' c || has_char c s'
  end.

(** [s.rpartition(sep)[2]]: what follows the last [sep], or [s] itself. *)
Fixpoint after_last (sep : ascii) (s : string) : string :=
  match s with
  | EmptyString => EmptyString
  | String c s' =>
      if has_char sep s' then after_last sep s'
      else if Ascii.eqb c sep then s' else s
  end.

(** [s.endswith("/")] and the like, for one character. *)
Fixpoint ends_with_char (c : ascii) (s : string) : bool :=
  match s with
  | EmptyString => false
  | String c' EmptyString => Ascii.eqb c' c
  | String _ s' => ends_with_char c s'
  end.

(** [int(s)] for a string of ASCII digits. *)
Definition int_of_digits (s : string) : Z :=
  fold_left (fun acc c => (10 * acc + Z.of_nat (nat_of_ascii c - 48))%Z)
            (list_ascii_of_string s) 0%Z.

End Str.

(* ===================================================================== *)
(** * urllib.parse: [urlparse], [urlunparse] and the [port] property *)
(* ===================================================================== *)

Module Url.

Local Open Scope string_scope.

(** [ParseResult] *)
Record parsed : Type := mk_parsed {
  scheme : string;
  netloc : string;
  path : string;
  params : string;
  query : string;
  fragment : string
}.

Definition is_scheme_char (c : ascii) : bool :=
  Str.is_alpha c || Str.is_digit c
  || Ascii.eqb c "+" || Ascii.eqb c "-" || Ascii.eqb c ".".

Definition starts_alpha (s : string) : bool :=
  match s with
  | String c _ => Str.is_alpha c
  | EmptyString => false
  end.

Definition uses_params : list string :=
  [""; "ftp"; "hdl"; "prospero"; "http"; "imap"; "https"; "shttp"; "rtsp";
   "rtspu"; "sip"; "sips"; "mms"; "sftp"; "tel"].

Definition uses_netloc : list string :=
  [""; "ftp"; "http"; "gopher"; "nntp"; "telnet"; "imap"; "wais"; "file";
   "mms"; "https"; "shttp"; "snews"; "prospero"; "rtsp"; "rtspu"; "rsync";
   "svn"; "svn+ssh"; "sftp"; "nfs"; "git"; "git+ssh"; "ws"; "wss"].

Definition mem (s : string) (l : list string) : bool := existsb (String.eqb s) l.

(** The scheme (lowered) and what follows its colon. *)
Definition split_scheme (url : string) : string * string :=
  match Str.partition (Ascii.eqb ":") url with
  | (before, Some rest) =>
      if starts_alpha before && Str.all_chars is_scheme_char before
      then (Str.lower before, rest) else (EmptyString, url)
  | (_, None) => (EmptyString, url)
  end.

Definition is_netloc_end (c : ascii) : bool :=
  Ascii.eqb c "/" || Ascii.eqb c "?" || Ascii.eqb c "#".

(** The authority after a leading [//], and the rest from its delimiter on. *)
Fixpoint split_netloc (s : string) : string * string :=
  match s with
  | EmptyString => (EmptyString, EmptyString)
  | String c s' =>
      if is_netloc_end c then (EmptyString, s)
      else let '(n, rest) := split_netloc s' in (String c n, rest)
  end.

(** [_splitparams] *)
Definition split_params (url : string) : string * string :=
  let tail := if Str.has_char "/" url then Str.after_last "/" url else url in
  match Str.partition (Ascii.eqb ";") tail with
  | (_, None) => (url, EmptyString)
  | (before, Some after) =>
      (String.substring 0 (String.length url - String.length tail + String.length before) url,
       after)
  end.

Definition urlparse (url : string) : parsed :=
  let '(scheme, rest) := split_scheme (Str.lstrip url) in
  let '(netloc, rest) :=
    match rest with
    | String "/" (String "/" after) => split_netloc after
    | _ => (EmptyString, rest)
    end in
  let '(rest, fragment) :=
    match Str.partition (Ascii.eqb "#") rest with
    | (before, Some after) => (before, after)
    | (before, None) => (before, EmptyString)
    end in
  let '(rest, query) :=
    match Str.partition (Ascii.eqb "?") rest with
    | (before, Some after) => (before, after)
    | (before, None) => (before, EmptyString)
    end in
  let '(path, params) :=
    if mem scheme uses_params && Str.has_char ";" rest
    then split_params rest else (rest, EmptyString) in
  mk_parsed scheme netloc path params query fragment.

(** The text of the port in an authority: after the user information, and
    after the bracketed address when there is one. *)
Definition port_text (netloc : string) : string :=
  let hostinfo := Str.after_last "@" netloc in
  match Str.partition (Ascii.eqb "[") hostinfo with
  | (_, Some bracketed) =>
      match Str.partition (Ascii.eqb "]") bracketed with
      | (_, Some after) =>
          match Str.partition (Ascii.eqb ":") after with
          | (_, Some port) => port
          | (_, None) => EmptyString
          end
      | (_, None) => EmptyString
      end
  | (_, None) =>
      match Str.partition (Ascii.eqb ":") hostinfo with
      | (_, Some port) => port
      | (_, None) => EmptyString
      end
  end.

(** [parsed.port]: [None] without a port, [ValueError] for one that is not a
    number in 0..65535. *)
Definition port (p : parsed) : outcome (option Z) :=
  let text := port_text (netloc p) in
  match text with
  | EmptyString => Ok None
  | _ =>
      if Str.all_chars Str.is_digit text
      then let n := Str.int_of_digits text in
           if (n <=? 65535)%Z then Ok (Some n) else Raise ValueError
      else Raise ValueError
  end.

Definition nonempty (s : string) : bool :=
  match s with EmptyString => false | _ => true end.

(** [urlunparse((scheme, netloc, path, params, query, fragment))] *)
Definition urlunparse (p : parsed) : string :=
  let url := if nonempty (params p) then path p ++ ";" ++ params p else path p in
  let url :=
    if nonempty (netloc p)
       || (nonempty (scheme p) && mem (scheme p) uses_netloc
           && negb (Str.startswith url "//"))
    then
      let url := if nonempty url && negb (Str.startswith url "/")
                 then "/" ++ url else url in
      "//" ++ netloc p ++ url
    else url in
  let url := if nonempty (scheme p) then scheme p ++ ":" ++ url else url in
  let url := if nonempty (query p) then url ++ "?" ++ query p else url in
  if nonempty (fragment p) then url ++ "#" ++ fragment p else url.

End Url.

(* ===================================================================== *)
(** * The samples the controllers record *)
(* ===================================================================== *)

Module Sample.

(** One side of a request pair, as the controllers store it. *)
Record response : Type := mk_response {
  url : string;
  status_code : string;
  cache_status : string;
  headers : dict string
}.

(** One entry of [sent_requests[...]['randomized']] or [['fixed']]. *)
Record t : Type := mk {
  time_diff : float;
  first : response;
  second : response
}.

End Sample.

(* ===================================================================== *)
(** * lib/analysis.py *)
(* ===================================================================== *)

Module Analysis.

(** One element of the lists [predict] receives. *)
Record request_pair : Type := mk_pair {
  time_diff : float;
  cache_status_1 : string;
  cache_status_2 : string
}.

Definition time_diffs (data : list request_pair) : list float :=
  map time_diff data.

(** [sum([p['time_diff'] for p in data]) / len(data)] *)
Definition average_of (data : list request_pair) : outcome float :=
  div_len (Py.sum (time_diffs data)) data.

(** The value of that expression when [data] is not empty. *)
Definition mean (data : list request_pair) : float :=
  (Py.sum (time_diffs data) / float_of_len data)%float.

(** The test of the final comprehension of [remove_outliers]. *)
Definition inside (factor average std : float) (p : request_pair) : bool :=
  PrimFloat.ltb (abs (time_diff p - average)) (factor * std).

(** The default [factor=2]. *)
Definition default_factor : float := 2%float.

(** The store of the analyser: the calls made to [scipy.stats.ttest_ind], in
    order, each with its two samples and its [equal_var]. *)
Definition ttest_call : Type := (list float * list float * bool)%type.
Definition store : Type := list ttest_call.

Definition enhancing_factor : float := 5%float.
Definition alpha : float := 0.01%float.

(** The second sample handed to the t-test. *)
Definition amplified (fixed_average : float) (_fixed : list request_pair) : list float :=
  map (fun p =>
         if PrimFloat.ltb fixed_average 0
         then (time_diff p * enhancing_factor)%float
         else time_diff p) _fixed.

Section WithLibm.

(** The C library of the platform. *)
Variable L : libm.

(** [(sum([(p['time_diff'] - average) ** 2 for p in data]) / len(data)) ** 0.5] *)
Definition std_of (data : list request_pair) (average : float) : outcome number :=
  let? squares := omap (fun p => pow2 L (time_diff p - average)%float) data in
  let? variance := div_len (Py.sum squares) data in
  pow_half L variance.

(** With a complex [std] the product [factor * std] is complex, and [<]
    between a float and a complex number raises TypeError, at the first
    element of [data]. *)
Definition remove_outliers (data : list request_pair) (factor : float)
  : outcome (list request_pair) :=
  let? average := average_of data in
  let? std := std_of data average in
  match std with
  | Real std => Ok (filter (inside factor average std) data)
  | Complex => match data with [] => Ok [] | _ :: _ => Raise TypeError end
  end.

(** ** [predict] *)

Section WithScipy.

(** [scipy.stats.ttest_ind(a, b, equal_var=...)]: the statistic and the
    p-value. An external library: any function. *)
Variable ttest_ind : list float -> list float -> bool -> float * float.

Definition call_ttest_ind (a b : list float) (equal_var : bool)
  : M store (float * float) :=
  fun calls => (Ok (ttest_ind a b equal_var), calls ++ [(a, b, equal_var)]).

Definition predict (randomized fixed : list request_pair) : M store (option string) :=
  _randomized <- lift (remove_outliers randomized default_factor) ;;
  _fixed <- lift (remove_outliers fixed default_factor) ;;
  if (List.length _randomized =? 0)%nat || (List.length _fixed =? 0)%nat
  then ret None
  else
    randomized_average <- lift (average_of _randomized) ;;
    randomized_std <- lift (std_of _randomized randomized_average) ;;
    fixed_average <- lift (average_of _fixed) ;;
    fixed_std <- lift (std_of _fixed fixed_average) ;;
    if PrimFloat.ltb 0 fixed_average
    then ret (Some "NO cache")
    else
      tp <- call_ttest_ind (time_diffs _randomized) (amplified fixed_average _fixed)
                           false ;;
      if PrimFloat.leb (snd tp) alpha
      then ret (Some "CACHE")
      else ret (Some "NO cache").

(** ** [analyse] *)

(** The two lists [analyse] builds from a bucket before it calls [predict]. *)
Definition summarise (raw : list Sample.t) : list request_pair :=
  map (fun request_pair =>
         mk_pair (round2 (Sample.time_diff request_pair))
                 (Sample.cache_status (Sample.first request_pair))
                 (Sample.cache_status (Sample.second request_pair))) raw.

(** [any([p['cache_status_1'] == s or p['cache_status_2'] == s for p in l])] *)
Definition any_status (s : string) (l : list request_pair) : bool :=
  existsb (fun p => String.eqb (cache_status_1 p) s || String.eqb (cache_status_2 p) s) l.

(** [sum([1 for p in raw if p['second']['cache_status'] == s])] *)
Definition count_second (s : string) (raw : list Sample.t) : nat :=
  List.length (filter (fun p => String.eqb (Sample.cache_status (Sample.second p)) s) raw).

(** Lines 130-141: the label of a bucket. *)
Definition label_of (randomized fixed : list request_pair) (raw_fixed : list Sample.t)
  : string :=
  let label := "Unknown" in
  let label :=
    if any_status "HIT" randomized || any_status "HIT" fixed
       || any_status "MISS" randomized || any_status "MISS" fixed
    then "NO cache" else label in
  if (count_second "MISS" raw_fixed <? count_second "HIT" raw_fixed)%nat
  then "CACHE" else label.

(** What [analysis[url][extension][mode]] holds: the empty dict it starts
    as, or the record written at the end of the loop body. *)
Inductive entry : Type :=
| Empty
| Verdict (label statistics_prediction : string)
          (randomized fixed : list request_pair).

Definition bucket : Type := dict (list Sample.t).
Definition analysis_t : Type := dict (dict (dict entry)).

Definition sub {V} (d : dict (dict V)) (k : string) : dict V :=
  match dict_get d k with Some v => v | None => [] end.

(** [analysis[url][extension][mode] = e] *)
Definition set3 (analysis : analysis_t) (url extension mode : string) (e : entry)
  : analysis_t :=
  dict_set analysis url
    (dict_set (sub analysis url) extension
       (dict_set (sub (sub analysis url) extension) mode e)).

(** [if k not in d: d[k] = {}], at each of the three levels. *)
Definition ensure1 (analysis : analysis_t) (url : string) : analysis_t :=
  if dict_mem analysis url then analysis else dict_set analysis url [].

Definition ensure2 (analysis : analysis_t) (url extension : string) : analysis_t :=
  if dict_mem (sub analysis url) extension then analysis
  else dict_set analysis url (dict_set (sub analysis url) extension []).

Definition ensure3 (analysis : analysis_t) (url extension mode : string) : analysis_t :=
  if dict_mem (sub (sub analysis url) extension) mode then analysis
  else set3 analysis url extension mode Empty.

(** The body of the innermost loop, for one [(url, extension, mode)]. *)
Definition analyse_mode (url extension mode : string) (b : bucket)
    (analysis : analysis_t) : M store (flow analysis_t (option analysis_t)) :=
  let analysis := ensure3 analysis url extension mode in
  match dict_get b "randomized", dict_get b "fixed" with
  | Some raw_randomized, Some raw_fixed =>
      let randomized := summarise raw_randomized in
      let fixed := summarise raw_fixed in
      if (List.length fixed =? 0)%nat || (List.length randomized =? 0)%nat
      then ret (Return None)
      else
        statistics_prediction <- predict randomized fixed ;;
        match statistics_prediction with
        | None => ret (Return None)
        | Some verdict =>
            let label := label_of randomized fixed raw_fixed in
            ret (Continue
                   (set3 analysis url extension mode
                      (Verdict label verdict randomized fixed)))
        end
  | _, _ => ret (Continue analysis)
  end.

Definition analyse (site : string) (data : dict (dict (dict bucket)))
  : M store (option analysis_t) :=
  r <- for_each data [] (fun '(url, extensions) analysis =>
         for_each extensions (ensure1 analysis url)
           (fun '(extension, modes) analysis =>
              for_each modes (ensure2 analysis url extension)
                (fun '(mode, b) analysis =>
                   analyse_mode url extension mode b analysis))) ;;
  match r with
  | Continue analysis | Break analysis => ret (Some analysis)
  | Return v => ret v
  end.

End WithScipy.

End WithLibm.

End Analysis.

(* ===================================================================== *)
(** * lib/cache_buster.py *)
(* ===================================================================== *)

Module CacheBuster.

Local Open Scope string_scope.

Definition TEST_HEADERS : list string :=
  ["Origin"; "User-Agent"; "X-Forwarded-Host";
   "X-Forwarded-For"; "X-Forwarded-Proto";
   "X-Method-Override"; "X-Forwarded-Scheme"].

(** [string.ascii_letters] *)
Definition ascii_letters : string :=
  "abcdefghijklmnopqrstuvwxyzABCDEFGHIJKLMNOPQRSTUVWXYZ".

(** What the methods share across calls and across instances: the class
    attribute [_cache_busters] (every instance appends to the one list) and
    the position in the random generator's stream. *)
Record world : Type := mk_world {
  draws : nat;
  _cache_busters : list string
}.

(** The instance attributes set by [__init__]. *)
Record instance : Type := mk_instance {
  site : string;
  headers : dict string;
  cookies : dict string
}.

Definition record_token (cache_buster : string) (w : world) : world :=
  mk_world (draws w) (_cache_busters w ++ [cache_buster])%list.

Section WithRandom.

(** The random generator: the [n]-th call of [random.choice] on a sequence
    picks the element of index [choice n], taken modulo the length. *)
Variable choice : nat -> nat.

(** The bound the model puts on the re-rolls of one call. *)
Variable fuel : nat.

(** [random.choice(string.ascii_letters)] *)
Definition random_letter : M world ascii :=
  fun w =>
    (Ok (nth (choice (draws w) mod 52) (list_ascii_of_string ascii_letters) "a"%char),
     mk_world (S (draws w)) (_cache_busters w)).

(** [''.join(random.choice(string.ascii_letters) for _ in range(length))] *)
Fixpoint generate_random_string (length : nat) : M world string :=
  match length with
  | O => ret EmptyString
  | S n =>
      c <- random_letter ;;
      rest <- generate_random_string n ;;
      ret (String c rest)
  end.

(** The [while] loop of [get_unique_cache_buster], entered with the current
    value of [cache_buster]. *)
Fixpoint reroll (n : nat) (length : nat) (cache_buster : string) : M world string :=
  fun w =>
    if existsb (String.eqb cache_buster) (_cache_busters w)
       || String.eqb cache_buster ""
    then match n with
         | O => (Timeout, w)
         | S n' => bind (generate_random_string length) (reroll n' length) w
         end
    else (Ok cache_buster, w).

Definition get_unique_cache_buster (self : instance) (length : nat) : M world string :=
  cache_buster <- reroll fuel length "" ;;
  modify (record_token cache_buster) ;;;
  ret cache_buster.

(** The default [length=5]. *)
Definition default_length : nat := 5.

Definition cache_bust_header (self : instance) (site header value : string)
  : M world string :=
  let h := Str.lower header in
  if String.eqb h "user-agent" then
    tok <- get_unique_cache_buster self default_length ;; ret (value ++ " " ++ tok)
  else if String.eqb h "accept-encoding" then
    if String.eqb value "" then
      tok <- get_unique_cache_buster self default_length ;; ret ("" ++ tok)
    else
      tok <- get_unique_cache_buster self default_length ;; ret (value ++ ", " ++ tok)
  else if String.eqb h "accept" then
    tok <- get_unique_cache_buster self default_length ;;
    ret ("text/html,application/xhtml+xml,application/xml;q=0.9,image/avif,image/webp,*/*;q=0.8,"
         ++ tok)
  else if String.eqb h "accept-language" then
    tok <- get_unique_cache_buster self default_length ;; ret ("it-IT,it;q=0.9," ++ tok)
  else if String.eqb h "origin" then
    tok <- get_unique_cache_buster self default_length ;;
    ret ("https://" ++ site ++ "/" ++ tok)
  else if String.eqb h "x-forwarded-scheme"
          || (Str.contains "x-" h && Str.contains "forwarded-proto" h) then
    tok <- get_unique_cache_buster self default_length ;; ret ("http" ++ tok)
  else if Str.contains "x-" h && Str.contains "method" h then
    tok <- get_unique_cache_buster self default_length ;; ret ("GET" ++ tok)
  else if (Str.contains "x-" h && (Str.contains "forwarded" h || Str.contains "-url" h))
          || String.eqb h "forwarded" then
    tok <- get_unique_cache_buster self default_length ;; ret (tok ++ "." ++ site)
  else
    get_unique_cache_buster self default_length.

Definition cache_bust_cookies (self : instance) (cookies : dict string)
    (cache_bust_all : bool) : M world (dict string) :=
  cache_buster <- get_unique_cache_buster self default_length ;;
  let cookies :=
    if cache_bust_all
    then map (fun '(cookie, value) => (cookie, value ++ "," ++ cache_buster)) cookies
    else cookies in
  ret (dict_set cookies cache_buster cache_buster).

Definition cache_bust_query (self : instance) (url : string) : M world string :=
  cache_buster <- get_unique_cache_buster self default_length ;;
  let parsed := Url.urlparse url in
  let query :=
    Url.query parsed ++ (if Url.nonempty (Url.query parsed) then "&" else "")
    ++ cache_buster ++ "=" ++ cache_buster in
  ret (Url.urlunparse
         (Url.mk_parsed (Url.scheme parsed) (Url.netloc parsed) (Url.path parsed)
            (Url.params parsed) query (Url.fragment parsed))).

Definition cache_bust_path (self : instance) (url : string) : M world string :=
  cache_buster <- get_unique_cache_buster self default_length ;;
  let parsed := Url.urlparse url in
  let path :=
    if Str.ends_with_char "/" (Url.path parsed)
    then Url.path parsed ++ cache_buster
    else Url.path parsed ++ "/" ++ cache_buster in
  ret (Url.urlunparse
         (Url.mk_parsed (Url.scheme parsed) (Url.netloc parsed) path
            (Url.params parsed) (Url.query parsed) (Url.fragment parsed))).

(** [headers[header] if header in headers else ''] *)
Definition get_or_empty (headers : dict string) (header : string) : string :=
  match dict_get headers header with Some v => v | None => "" end.

(** The body of the loop over [TEST_HEADERS]. *)
Definition bust_test_header (self : instance) (site : string)
    (headers : dict string) (header : string) : M world (dict string) :=
  v <- cache_bust_header self site header (get_or_empty headers header) ;;
  ret (dict_set headers header v).

(** The test that makes the loop over the [Vary] names [continue]. *)
Definition vary_skipped (header : string) : bool :=
  existsb (fun h => Str.contains header (Str.lower h)) TEST_HEADERS
  || String.eqb header "cookie".

(** The body of the loop over [vary.split(',')]. *)
Definition bust_vary_header (self : instance) (site : string)
    (headers : dict string) (header : string) : M world (dict string) :=
  let header := Str.lower (Str.strip header) in
  if vary_skipped header then ret headers
  else
    v <- cache_bust_header self site header (get_or_empty headers header) ;;
    ret (dict_set headers header v).

(** The dictionaries returned are the arguments themselves, updated in
    place; the model hands back their new contents. *)
Definition cache_bust_request (self : instance) (url : string)
    (headers cookies : dict string) (vary : string) (path : bool)
  : M world (string * dict string * dict string) :=
  let site := Url.netloc (Url.urlparse url) in
  url <- (if path then cache_bust_path self url else ret url) ;;
  url <- cache_bust_query self url ;;
  headers <- fold_m (bust_test_header self site) TEST_HEADERS headers ;;
  cookies <- cache_bust_cookies self cookies true ;;
  headers <- fold_m (bust_vary_header self site) (Str.split "," vary) headers ;;
  ret (url, headers, cookies).

(** A run of the process as far as the ledger is concerned: one call of
    [get_unique_cache_buster()] (default length) after the other, each made
    through some instance. *)
Fixpoint issue_tokens (selves : list instance) : M world (list string) :=
  match selves with
  | [] => ret []
  | self :: rest =>
      tok <- get_unique_cache_buster self default_length ;;
      toks <- issue_tokens rest ;;
      ret (tok :: toks)
  end.

End WithRandom.

End CacheBuster.

(* ===================================================================== *)
(** * lib/h2time.py: [H2Request] *)
(* ===================================================================== *)

Module H2Request.

Record t : Type := mk {
  method : string;
  url : string;
  scheme : string;
  host : string;
  port : Z;
  path : string;
  query : string;
  headers : dict string;
  data : string
}.

(** [parsed.port or 443 if self.scheme == 'https' else 80]: a conditional
    expression whose first branch is [parsed.port or 443]; the [port]
    property is read only in that branch. *)
Definition derive_port (parsed : Url.parsed) : outcome Z :=
  if String.eqb (Url.scheme parsed) "https"
  then
    let? explicit := Url.port parsed in
    Ok match explicit with
       | Some n => if (n =? 0)%Z then 443%Z else n
       | None => 443%Z
       end
  else Ok 80%Z.

Definition set_url (self : t) (url : string) : outcome t :=
  let parsed := Url.urlparse url in
  let? port := derive_port parsed in
  Ok (mk (method self) url (Url.scheme parsed) (Url.netloc parsed) port
         (Url.path parsed) (Url.query parsed) (headers self) (data self)).

(** [__init__]: every URL field starts as [None] and is set by [set_url]. *)
Definition init (method url : string) (headers : dict string) (data : string)
  : outcome t :=
  set_url (mk method "" "" "" 0%Z "" "" headers data) url.

End H2Request.

(* ===================================================================== *)
(** * experiment-wcd.py: the redirect-following loop of a request pair *)
(* ===================================================================== *)

Module ExperimentWcd.

Local Open Scope string_scope.

(** One element of the list [run_attack] returns. *)
Record result : Type := mk_result {
  time_diff : float;
  response_headers1 : dict string;
  response_headers2 : dict string;
  response_body1 : string;
  response_body2 : string
}.

(** What one [with H2Time(...) as h2time: ... h2time.run_attack()] does:
    entering the block (the connection) raises, [run_attack] raises, or it
    returns its results. *)
Inductive attack : Type :=
| ConnectError (e : exn)
| AttackError (e : exn)
| Results (results : list result).

(** The variables of the loop, and what it updates outside itself. *)
Record loop_state : Type := mk_state {
  url1 : string;
  url2 : string;
  following_redirects : bool;
  redirects_followed : nat;
  attacks : nat;
  randomized : list Sample.t;
  cache_headers : bool
}.

Definition set_cache_headers (st : loop_state) : loop_state :=
  mk_state (url1 st) (url2 st) (following_redirects st) (redirects_followed st)
           (attacks st) (randomized st) true.

Definition set_url1 (u : string) (st : loop_state) : loop_state :=
  mk_state u (url2 st) (following_redirects st) (redirects_followed st)
           (attacks st) (randomized st) (cache_headers st).

Definition set_url2 (u : string) (st : loop_state) : loop_state :=
  mk_state (url1 st) u (following_redirects st) (redirects_followed st)
           (attacks st) (randomized st) (cache_headers st).

(** [following_redirects = True; redirects_followed += 1] *)
Definition count_redirect (st : loop_state) : loop_state :=
  mk_state (url1 st) (url2 st) true (S (redirects_followed st))
           (attacks st) (randomized st) (cache_headers st).

(** [following_redirects = False], and one more attack started. *)
Definition start_attack (st : loop_state) : loop_state :=
  mk_state (url1 st) (url2 st) false (redirects_followed st)
           (S (attacks st)) (randomized st) (cache_headers st).

Definition record_sample (x : Sample.t) (st : loop_state) : loop_state :=
  mk_state (url1 st) (url2 st) (following_redirects st) (redirects_followed st)
           (attacks st) (randomized st ++ [x])%list (cache_headers st).

(** [d[k]] *)
Definition item (d : dict string) (k : string) : outcome string :=
  match dict_get d k with
  | Some v => Ok v
  | None => Raise (KeyError k)
  end.

Definition is_redirect (status : string) : bool :=
  String.eqb status "301" || String.eqb status "302".

(** The URL a [location] header leads to: itself when it starts with
    'http', else the request URL with its path replaced. *)
Definition resolve (url location : string) : string :=
  if Str.startswith location "http" then location
  else
    let parsed := Url.urlparse url in
    Url.urlunparse
      (Url.mk_parsed (Url.scheme parsed) (Url.netloc parsed) location
         (Url.params parsed) (Url.query parsed) (Url.fragment parsed)).

Section WithNetwork.

(** [wcde.cache_headers_heuristics], of lib/wcde.py. *)
Variable cache_headers_heuristics : dict string -> string.

(** The network: what the [n]-th attack of the loop meets. *)
Variable run_attack : nat -> attack.

(** The body of [for result in results]. *)
Definition handle_result (r : result) (_ : unit) : M loop_state (flow unit unit) :=
  let h1 := response_headers1 r in
  let h2 := response_headers2 r in
  let cache_status1 := cache_headers_heuristics h1 in
  let cache_status2 := cache_headers_heuristics h2 in
  (if negb (String.eqb cache_status1 "-") || negb (String.eqb cache_status2 "-")
   then modify set_cache_headers else ret tt) ;;;
  status1 <- lift (item h1 ":status") ;;
  redirect <- (if is_redirect status1 then ret true
               else status2 <- lift (item h2 ":status") ;; ret (is_redirect status2)) ;;
  if redirect : bool then
    st <- get ;;
    location1 <- lift (item h1 "location") ;;
    (if String.eqb (url1 st) location1 then ret tt
     else location2 <- lift (item h2 "location") ;; ret tt) ;;;
    (if dict_mem h1 "location"
     then modify (fun st => set_url1 (resolve (url1 st) location1) st)
     else ret tt) ;;;
    (if dict_mem h2 "location"
     then location2 <- lift (item h2 "location") ;;
          modify (fun st => set_url2 (resolve (url2 st) location2) st)
     else ret tt) ;;;
    _ <- lift (item h1 "location") ;;
    modify count_redirect ;;;
    ret (Break tt)
  else
    st <- get ;;
    status2 <- lift (item h2 ":status") ;;
    modify (record_sample
              (Sample.mk (time_diff r)
                 (Sample.mk_response (url1 st) status1 cache_status1 h1)
                 (Sample.mk_response (url2 st) status2 cache_status2 h2))) ;;;
    ret (Continue tt).

(** The body of the [while] loop. An exception of [run_attack] is logged
    and leaves the loop, with [following_redirects] false. *)
Definition iteration : M loop_state unit :=
  st <- get ;;
  modify start_attack ;;;
  match run_attack (attacks st) with
  | ConnectError e => raise e
  | AttackError e => ret tt
  | Results results => for_each results tt handle_result ;;; ret tt
  end.

(** [while following_redirects and redirects_followed < 5] *)
Definition guard (st : loop_state) : bool :=
  following_redirects st && (redirects_followed st <? 5)%nat.

End WithNetwork.

(** The loop is entered with [following_redirects = True] and
    [redirects_followed = 0]. *)
Definition enter (u1 u2 : string) (sent : list Sample.t) (seen_headers : bool)
  : loop_state :=
  mk_state u1 u2 true 0 0 sent seen_headers.

End ExperimentWcd.

(* ===================================================================== *)
(** * preliminary-experiment.py: after the fixed round *)
(* ===================================================================== *)

Module Preliminary.

Local Open Scope string_scope.

(** What the end of the loop body does that can be seen from outside. *)
Inductive event : Type :=
| Log (message : string)
| WriteOutput (sent_requests : dict (list Sample.t))
| SetTested
| RunAnalysis.

Record state : Type := mk_state {
  sent_requests : dict (list Sample.t);
  events : list event
}.

Definition emit (e : event) (st : state) : state :=
  mk_state (sent_requests st) (events st ++ [e])%list.

Definition set_fixed (l : list Sample.t) (st : state) : state :=
  mk_state (dict_set (sent_requests st) "fixed" l) (events st).

Definition first_is_hit (request : Sample.t) : bool :=
  String.eqb (Sample.cache_status (Sample.first request)) "HIT".

Section WithEquality.

(** [a == b] on two recorded samples, as [list.remove] tests it. *)
Variable py_eq : Sample.t -> Sample.t -> bool.

(** [l.remove(x)]: the first element equal to [x] goes; [ValueError] when
    there is none. *)
Fixpoint list_remove (x : Sample.t) (l : list Sample.t) : outcome (list Sample.t) :=
  match l with
  | [] => Raise ValueError
  | y :: l' =>
      if py_eq y x then Ok l'
      else let? r := list_remove x l' in Ok (y :: r)
  end.

(** The body of [for request in fixed_sent_requests]. *)
Definition drop_if_hit (_ : unit) (request : Sample.t) : M state unit :=
  if first_is_hit request then
    st <- get ;;
    match dict_get (sent_requests st) "fixed" with
    | None => raise (KeyError "fixed")
    | Some fixed =>
        fixed' <- lift (list_remove request fixed) ;;
        modify (set_fixed fixed') ;;;
        modify (emit (Log "Removed request from the fixed case"))
    end
  else ret tt.

(** Lines 631-662: from the filter of the fixed bucket to the end of the
    loop body; [Continue] is the [continue] that moves to the next URL,
    [Break] the final [break]. *)
Definition after_fixed_round (analyse : bool) : M state (flow unit unit) :=
  st <- get ;;
  (match dict_get (sent_requests st) "fixed" with
   | Some fixed => fold_m drop_if_hit fixed tt
   | None => ret tt
   end) ;;;
  st <- get ;;
  match dict_get (sent_requests st) "fixed" with
  | Some fixed =>
      if (List.length fixed <? 5)%nat
      then
        modify (emit (Log "No requests left in the fixed case, testing a different URL")) ;;;
        ret (Continue tt)
      else
        modify (emit (WriteOutput (sent_requests st))) ;;;
        modify (emit SetTested) ;;;
        modify (emit (if analyse then RunAnalysis
                      else Log "you can analyse the results")) ;;;
        ret (Break tt)
  | None =>
      modify (emit (WriteOutput (sent_requests st))) ;;;
      modify (emit SetTested) ;;;
      modify (emit (if analyse then RunAnalysis
                    else Log "you can analyse the results")) ;;;
      ret (Break tt)
  end.

End WithEquality.

End Preliminary.

(* ===================================================================== *)
(** * lib/h2time.py: the headers of a request *)
(* ===================================================================== *)

Module H2Headers.

Local Open Scope string_scope.

(** [del d[k]]: [KeyError] when the key is absent. *)
Fixpoint dict_del {V} (d : dict V) (k : string) : outcome (dict V) :=
  match d with
  | [] => Raise (KeyError k)
  | (k', v) :: d' =>
      if String.eqb k' k then Ok d'
      else let? r := dict_del d' k in Ok ((k', v) :: r)
  end.

Definition with_headers (self : H2Request.t) (headers : dict string) : H2Request.t :=
  H2Request.mk (H2Request.method self) (H2Request.url self) (H2Request.scheme self)
    (H2Request.host self) (H2Request.port self) (H2Request.path self)
    (H2Request.query self) headers (H2Request.data self).

(** [self.headers[key] = value] *)
Definition set_header (self : H2Request.t) (key value : string) : H2Request.t :=
  with_headers self (dict_set (H2Request.headers self) key value).

(** [[self.set_header(k, v) for k, v in headers.items()]] *)
Definition set_headers (self : H2Request.t) (headers : dict string) : H2Request.t :=
  fold_left (fun r '(k, v) => set_header r k v) headers self.

(** [del self.headers[key]] *)
Definition remove_header (self : H2Request.t) (key : string) : outcome H2Request.t :=
  let? headers := dict_del (H2Request.headers self) key in
  Ok (with_headers self headers).

(** The four pseudo-headers, as the dictionary literal lists them. *)
Definition pseudo_headers (self : H2Request.t) : dict string :=
  let path := H2Request.path self in
  let path := if Url.nonempty (H2Request.query self)
              then path ++ "?" ++ H2Request.query self else path in
  [(":method", H2Request.method self);
   (":authority", H2Request.host self);
   (":scheme", H2Request.scheme self);
   (":path", if Url.nonempty path then path else "/")].

Definition get_request_headers (self : H2Request.t) : dict string :=
  fold_left (fun headers '(k, v) => dict_set headers k v)
            (H2Request.headers self) (pseudo_headers self).

End H2Headers.

(* ===================================================================== *)
(** * lib/h2time.py: [H2Time] *)
(* ===================================================================== *)

Module H2Time.

Local Open Scope string_scope.

(** A key as Python sees it: a [str] or a [bytes] object; the two never
    compare equal. *)
Inductive key : Type :=
| StrKey (s : string)
| BytesKey (b : string).

Definition key_eqb (a b : key) : bool :=
  match a, b with
  | StrKey x, StrKey y => String.eqb x y
  | BytesKey x, BytesKey y => String.eqb x y
  | _, _ => false
  end.

Definition kdict : Type := list (key * string).

Fixpoint kget (d : kdict) (k : key) : option string :=
  match d with
  | [] => None
  | (k', v) :: d' => if key_eqb k' k then Some v else kget d' k
  end.

Definition kmem (d : kdict) (k : key) : bool :=
  match kget d k with Some _ => true | None => false end.

Fixpoint kset (d : kdict) (k : key) (v : string) : kdict :=
  match d with
  | [] => [(k, v)]
  | (k', v') :: d' =>
      if key_eqb k' k then (k', v) :: d' else (k', v') :: kset d' k v
  end.

(** [b.decode()], for the ASCII text of header names and values. *)
Definition decode (b : string) : string := b.

(** The loop of [send_request_pair] over [event.headers], a list of pairs of
    [bytes]: the test [k in headers] looks the [bytes] name up, the
    assignments use the decoded name. *)
Definition merge_step (headers : kdict) (kv : string * string) : outcome kdict :=
  let '(k, v) := kv in
  if kmem headers (BytesKey k)
  then match kget headers (StrKey (decode k)) with
       | Some old => Ok (kset headers (StrKey (decode k)) (old ++ ", " ++ decode v))
       | None => Raise (KeyError (decode k))
       end
  else Ok (kset headers (StrKey (decode k)) (decode v)).

Fixpoint merge_headers (event_headers : list (string * string)) (headers : kdict)
  : outcome kdict :=
  match event_headers with
  | [] => Ok headers
  | kv :: rest => let? headers := merge_step headers kv in merge_headers rest headers
  end.

(** ** [run_attack] *)

(** What one call of [send_request_pair] comes to: the five-tuple, [None],
    or an exception. *)
Inductive pair_outcome : Type :=
| PairTuple (r : ExperimentWcd.result)
| PairNone
| PairRaises (e : exn).

Record connection : Type := mk_connection {
  connection_open : bool;
  pairs_sent : nat;
  connects : nat
}.

Definition closed (c : connection) : connection :=
  mk_connection false (pairs_sent c) (connects c).

Definition opened (c : connection) : connection :=
  mk_connection true (pairs_sent c) (S (connects c)).

Definition pair_counted (c : connection) : connection :=
  mk_connection (connection_open c) (S (pairs_sent c)) (connects c).

Section WithSocket.

(** The [n]-th [connect()]: it raises, or the connection is open. *)
Variable connect_error : nat -> option exn.

(** The [n]-th [send_request_pair()]. *)
Variable send_request_pair : nat -> pair_outcome.

Definition connect : M connection unit :=
  c <- get ;;
  match connect_error (connects c) with
  | Some e => raise e
  | None => modify opened
  end.

(** [for _ in range(n)] of [run_attack], with the results so far. Unpacking
    [None] raises inside the [try], so [None] and an exception both end in
    [self.close(); continue]; [close] is taken to return. *)
Fixpoint run_pairs (n : nat) (results : list ExperimentWcd.result)
  : M connection (list ExperimentWcd.result) :=
  match n with
  | O => ret results
  | S n' =>
      c <- get ;;
      (if connection_open c then ret tt else connect) ;;;
      c <- get ;;
      modify pair_counted ;;;
      match send_request_pair (pairs_sent c) with
      | PairTuple r =>
          let results := (results ++ [r])%list in
          if dict_mem (ExperimentWcd.response_headers1 r) "location"
          then ret results
          else run_pairs n' results
      | PairNone | PairRaises _ =>
          modify closed ;;; run_pairs n' results
      end
  end.

Definition run_attack (num_request_pairs : nat) : M connection (list ExperimentWcd.result) :=
  run_pairs num_request_pairs [].

End WithSocket.

End H2Time.

(* ===================================================================== *)
(** * preliminary-experiment.py: caching the fixed variant *)
(* ===================================================================== *)

Module Priming.

Local Open Scope string_scope.

Section WithBrowser.

(** [wcde.cache_headers_heuristics], of lib/wcde.py. *)
Variable cache_headers_heuristics : dict string -> string.

(** The [n]-th [browser.get] of the fixed variant: the response headers, or
    an exception. *)
Variable browser_get : nat -> outcome (dict string).

Definition is_hit (response : dict string) : bool :=
  String.eqb (cache_headers_heuristics response) "HIT".

(** Lines 524-527: [while ... != 'HIT' and requests_sent < 5], with the
    number of requests made so far; the result is the last response. *)
Equations? prime_loop (response : dict string) (requests_sent gets : nat)
  : outcome (dict string) * nat by wf (5 - requests_sent) lt :=
prime_loop response requests_sent gets
  with inspect (negb (is_hit response) && (requests_sent <? 5)%nat) => {
  | exist _ false _ => (Ok response, gets)
  | exist _ true Hguard with browser_get gets => {
      | Ok response' => prime_loop response' (S requests_sent) (S gets)
      | Raise e => (Raise e, S gets)
      | Timeout => (Timeout, S gets) } }.
Proof.
  apply andb_true_iff in Hguard as [_ Hlt]. apply Nat.ltb_lt in Hlt.
  change (5 - S requests_sent < 5 - requests_sent). lia.
Qed.

(** Lines 522-531: the first request, the loop, and the test that either
    abandons the URL ([false], the [continue]) or goes on ([true]). *)
Definition prime : outcome bool * nat :=
  match browser_get 0 with
  | Ok response =>
      match prime_loop response 0 1 with
      | (Ok last, gets) => (Ok (is_hit last), gets)
      | (Raise e, gets) => (Raise e, gets)
      | (Timeout, gets) => (Timeout, gets)
      end
  | Raise e => (Raise e, 1)
  | Timeout => (Timeout, 1)
  end.

End WithBrowser.

End Priming.

(* ===================================================================== *)
(** * experiment-wcd.py: the [while] loop itself *)
(* ===================================================================== *)

(** The loop is defined by recursion on what is left of the five hops; that
    this is well founded rests on how one turn moves the loop counters, which
    the lemmas before the definition establish. *)

Section RedirectLoop.

Import ExperimentWcd.

Variable cache_headers_heuristics : dict string -> string.
Variable run_attack : nat -> attack.

(** The loop counters are left as they were. *)
Definition same_counters (st st' : loop_state) : Prop :=
  attacks st' = attacks st
  /\ following_redirects st' = following_redirects st
  /\ redirects_followed st' = redirects_followed st.

(** Code that leaves the loop counters as they were, however it ends. *)
Definition keeps {A} (m : M loop_state A) : Prop :=
  forall st, same_counters st (snd (m st)) /\ fst (m st) <> Timeout.

(** Code that counts a redirect exactly when it ends in [break]. *)
Definition counts_on_break (m : M loop_state (flow unit unit)) : Prop :=
  forall st,
    attacks (snd (m st)) = attacks st
    /\ fst (m st) <> Timeout
    /\ match fst (m st) with
       | Ok (Break _) =>
           following_redirects (snd (m st)) = true
           /\ redirects_followed (snd (m st)) = S (redirects_followed st)
       | _ =>
           following_redirects (snd (m st)) = following_redirects st
           /\ redirects_followed (snd (m st)) = redirects_followed st
       end.

Lemma same_counters_refl (st : loop_state) : same_counters st st.
Proof. repeat split. Qed.

Lemma keeps_ret {A} (a : A) : keeps (ret a).
Proof. intros st. split; [apply same_counters_refl | discriminate]. Qed.

(** [d[k]] returns or raises [KeyError]. *)
Lemma keeps_item (d : dict string) (k : string) : keeps (lift (item d k)).
Proof.
  intros st. split; [apply same_counters_refl | ].
  unfold lift, item. cbn. destruct (dict_get d k); discriminate.
Qed.

Lemma keeps_get : keeps get.
Proof. intros st. split; [apply same_counters_refl | discriminate]. Qed.

Lemma keeps_modify (f : loop_state -> loop_state) :
  (forall st, same_counters st (f st)) -> keeps (modify f).
Proof. intros H st. split; [apply H | discriminate]. Qed.

Lemma keeps_bind {A B} (m : M loop_state A) (k : A -> M loop_state B) :
  keeps m -> (forall a, keeps (k a)) -> keeps (bind m k).
Proof.
  intros Hm Hk st. unfold bind. specialize (Hm st).
  destruct (m st) as [[a | e | ] s1]; cbn in *;
    [ | split; [tauto | discriminate] | tauto].
  specialize (Hk a s1). destruct Hm as [[H1 [H2 H3]] _], Hk as [[K1 [K2 K3]] K4].
  split; [repeat split; congruence | exact K4].
Qed.

Lemma keeps_if {A} (b : bool) (m1 m2 : M loop_state A) :
  keeps m1 -> keeps m2 -> keeps (if b then m1 else m2).
Proof. now destruct b. Qed.

Lemma counts_after_keeps {A} (m : M loop_state A)
    (k : A -> M loop_state (flow unit unit)) :
  keeps m -> (forall a, counts_on_break (k a)) -> counts_on_break (bind m k).
Proof.
  intros Hm Hk st. unfold bind. specialize (Hm st).
  destruct (m st) as [[a | e | ] s1]; cbn in *;
    destruct Hm as [[H1 [H2 H3]] H4];
    [ | repeat split; (assumption || discriminate) | congruence].
  specialize (Hk a s1). destruct Hk as [K1 [K0 K2]].
  split; [congruence | split; [exact K0 | ]].
  destruct (fst (k a s1)) as [[u | u | u] | e | ]; destruct K2; split; congruence.
Qed.

Lemma handle_result_counts (r : result) :
  counts_on_break (handle_result cache_headers_heuristics r tt).
Proof.
  unfold handle_result.
  apply counts_after_keeps.
  { apply keeps_if; [apply keeps_modify; intros st; repeat split
                    | apply keeps_ret]. }
  intros _. apply counts_after_keeps; [apply keeps_item | intros status1].
  apply counts_after_keeps.
  { apply keeps_if; [apply keeps_ret | ].
    apply keeps_bind; [apply keeps_item | intros; apply keeps_ret]. }
  intros [ | ].
  - apply counts_after_keeps; [apply keeps_get | intros st0].
    apply counts_after_keeps; [apply keeps_item | intros location1].
    apply counts_after_keeps.
    { apply keeps_if; [apply keeps_ret | ].
      apply keeps_bind; [apply keeps_item | intros; apply keeps_ret]. }
    intros _. apply counts_after_keeps.
    { apply keeps_if; [ | apply keeps_ret].
      apply keeps_modify. intros st. repeat split. }
    intros _. apply counts_after_keeps.
    { apply keeps_if; [ | apply keeps_ret].
      apply keeps_bind; [apply keeps_item | intros location2].
      apply keeps_modify. intros st. repeat split. }
    intros _. apply counts_after_keeps; [apply keeps_item | intros _].
    intros st. cbn. repeat split. discriminate.
  - apply counts_after_keeps; [apply keeps_get | intros st0].
    apply counts_after_keeps; [apply keeps_item | intros status2].
    apply counts_after_keeps.
    { apply keeps_modify. intros st. repeat split. }
    intros _ st. cbn. repeat split. discriminate.
Qed.

(** A [for] loop over such bodies counts at most one redirect: the one its
    [break] comes with. *)
Lemma for_each_counts (results : list result) (st : loop_state) :
  let m := for_each results tt (handle_result cache_headers_heuristics) in
  attacks (snd (m st)) = attacks st
  /\ fst (m st) <> Timeout
  /\ ((following_redirects (snd (m st)) = following_redirects st
       /\ redirects_followed (snd (m st)) = redirects_followed st)
      \/ (following_redirects (snd (m st)) = true
          /\ redirects_followed (snd (m st)) = S (redirects_followed st))).
Proof.
  cbv zeta. revert st. induction results as [ | r results IH]; intros st.
  - cbn. repeat split; [discriminate | auto].
  - cbn [for_each]. unfold bind.
    pose proof (handle_result_counts r st) as [Ha [Ht Hc]].
    destruct (handle_result cache_headers_heuristics r tt st)
      as [[[u | u | u] | e | ] s1]; cbn in *.
    + destruct u. specialize (IH s1). destruct Hc as [Hf Hr].
      rewrite Ha, Hf, Hr in IH. exact IH.
    + split; [exact Ha | split; [discriminate | right; exact Hc]].
    + split; [exact Ha | split; [discriminate | left; exact Hc]].
    + split; [exact Ha | split; [discriminate | left; exact Hc]].
    + congruence.
Qed.

(** One turn of the [while] loop starts one attack, and leaves the loop
    either with [following_redirects] false and the hop counter as it was, or
    with [following_redirects] true and the hop counter one higher. *)
Lemma iteration_counts (st : loop_state) :
  let r := iteration cache_headers_heuristics run_attack st in
  attacks (snd r) = S (attacks st)
  /\ fst r <> Timeout
  /\ ((following_redirects (snd r) = false
       /\ redirects_followed (snd r) = redirects_followed st)
      \/ (following_redirects (snd r) = true
          /\ redirects_followed (snd r) = S (redirects_followed st))).
Proof.
  cbv zeta. unfold iteration, bind, get, modify.
  destruct (run_attack (attacks st)) as [e | e | results]; cbn;
    [repeat split; [discriminate | auto] .. | ].
  pose proof (for_each_counts results (start_attack st)) as [Ha [Ht Hc]].
  cbv zeta in Ha, Ht, Hc.
  destruct (for_each results tt (handle_result cache_headers_heuristics)
              (start_attack st)) as [[f | e | ] s1]; cbn in *;
    repeat split; auto; discriminate.
Qed.

(** The [while] loop, by recursion on what is left of the five hops. *)
Equations? follow_redirects (st : loop_state) : outcome unit * loop_state
  by wf (5 - redirects_followed st) lt :=
follow_redirects st with inspect (guard st) => {
  | exist _ false _ => (Ok tt, st)
  | exist _ true Hguard
      with inspect (iteration cache_headers_heuristics run_attack st) => {
      | exist _ (Ok _, st') Hturn with inspect (following_redirects st') => {
          | exist _ true Hfollow => follow_redirects st'
          | exist _ false _ => (Ok tt, st') }
      | exist _ (Raise e, st') _ => (Raise e, st')
      | exist _ (Timeout, st') _ => (Timeout, st') } }.
Proof.
  pose proof (iteration_counts st) as [_ [_ Hc]]. cbv zeta in Hc.
  rewrite Hturn in Hc. cbn in Hc.
  unfold guard in Hguard. apply andb_true_iff in Hguard as [_ Hlt].
  apply Nat.ltb_lt in Hlt.
  change (5 - redirects_followed st' < 5 - redirects_followed st).
  destruct Hc as [[Hf _] | [_ Hr]]; [congruence | lia].
Qed.

End RedirectLoop.

(* ===================================================================== *)
(** * Facts about binary64 arithmetic *)
(* ===================================================================== *)

Section FloatFacts.

(** A float that is a zero (of either sign) or NaN. *)
Definition zero_or_nan (x : float) : bool :=
  match Prim2SF x with
  | S754_zero _ | S754_nan => true
  | _ => false
  end.

Lemma sub_self_zero_or_nan (x : float) : zero_or_nan (x - x) = true.
Proof.
  unfold zero_or_nan. rewrite sub_spec.
  destruct (Prim2SF x) as [s | s | | s m e];
    [destruct s; reflexivity | destruct s; reflexivity | reflexivity | ].
  unfold SF64sub, SFsub; cbv zeta.
  set (a := cond_Zopp s _).
  assert (Ha : IntDef.Z.sub a a = 0%Z) by apply Z.sub_diag.
  rewrite Ha. reflexivity.
Qed.

Lemma add_zero_or_nan (x y : float) :
  zero_or_nan x = true -> zero_or_nan y = true -> zero_or_nan (x + y) = true.
Proof.
  unfold zero_or_nan. rewrite add_spec.
  destruct (Prim2SF x) as [s | s | | s m e]; try discriminate;
    destruct (Prim2SF y) as [s' | s' | | s' m' e']; try discriminate;
    intros _ _; try reflexivity.
  destruct s, s'; reflexivity.
Qed.

Lemma div_zero_or_nan (x y : float) :
  zero_or_nan x = true -> zero_or_nan (x / y) = true.
Proof.
  unfold zero_or_nan. rewrite div_spec.
  destruct (Prim2SF x) as [s | s | | s m e]; try discriminate;
    destruct (Prim2SF y) as [s' | s' | | s' m' e']; reflexivity.
Qed.

Lemma two_mul_zero_or_nan (x : float) :
  zero_or_nan x = true -> zero_or_nan (2 * x) = true.
Proof.
  unfold zero_or_nan. rewrite mul_spec.
  replace (Prim2SF 2) with (S754_finite false 4503599627370496 (-51))
    by (vm_compute; reflexivity).
  destruct (Prim2SF x) as [s | s | | s m e]; try discriminate; reflexivity.
Qed.

(** No absolute value is below a zero or a NaN. *)
Lemma abs_ltb_zero_or_nan (d y : float) :
  zero_or_nan y = true -> PrimFloat.ltb (abs d) y = false.
Proof.
  unfold zero_or_nan. rewrite FloatAxioms.ltb_spec, abs_spec.
  destruct (Prim2SF y) as [s | s | | s m e]; try discriminate; intros _;
    destruct (Prim2SF d) as [s' | s' | | s' m' e']; reflexivity.
Qed.

(** Equal floats are not strictly ordered. *)
Lemma eqb_not_ltb (x y : float) :
  PrimFloat.eqb x y = true -> PrimFloat.ltb x y = false.
Proof.
  rewrite eqb_spec, FloatAxioms.ltb_spec. unfold SFeqb, SFltb.
  destruct (SFcompare (Prim2SF x) (Prim2SF y)) as [[ | | ] | ];
    try discriminate; reflexivity.
Qed.

Lemma sum_zero_or_nan (l : list float) (acc : float) :
  zero_or_nan acc = true ->
  Forall (fun x => zero_or_nan x = true) l ->
  zero_or_nan (fold_left PrimFloat.add l acc) = true.
Proof.
  intros Hacc Hl. revert acc Hacc.
  induction Hl as [ | x l Hx _ IH]; intros acc Hacc; simpl.
  - exact Hacc.
  - apply IH. now apply add_zero_or_nan.
Qed.

(** ** Signs *)

(** Not below zero: a NaN, a zero of either sign, or a positive number. *)
Definition not_negative (x : float) : Prop := PrimFloat.ltb x 0 = false.

Definition not_negative_sf (f : spec_float) : bool :=
  match f with
  | S754_finite true _ _ | S754_infinity true => false
  | _ => true
  end.

(** The sign bit is clear, or the number is a NaN. *)
Definition plus_sf (f : spec_float) : bool :=
  match f with
  | S754_zero s | S754_infinity s | S754_finite s _ _ => negb s
  | S754_nan => true
  end.

Lemma not_negative_spec (x : float) :
  PrimFloat.ltb x 0 = negb (not_negative_sf (Prim2SF x)).
Proof.
  rewrite FloatAxioms.ltb_spec.
  replace (Prim2SF 0) with (S754_zero false) by reflexivity.
  destruct (Prim2SF x) as [s | s | | s m e]; try destruct s; reflexivity.
Qed.

(** Above zero: a positive number or the positive infinity. *)
Lemma positive_spec (x : float) :
  PrimFloat.ltb 0 x = true ->
  match Prim2SF x with
  | S754_finite false _ _ | S754_infinity false => True
  | _ => False
  end.
Proof.
  rewrite FloatAxioms.ltb_spec.
  replace (Prim2SF 0) with (S754_zero false) by reflexivity.
  destruct (Prim2SF x) as [s | s | | s m e]; try destruct s; try discriminate;
    intros _; exact I.
Qed.

Lemma plus_not_negative (f : spec_float) : plus_sf f = true -> not_negative_sf f = true.
Proof.
  destruct f as [s | s | | s m e]; try destruct s; try discriminate; reflexivity.
Qed.

(** Rounding keeps the sign it is given. *)
Lemma binary_round_aux_plus (mx ex : Z) (lx : location) :
  plus_sf (binary_round_aux prec emax false mx ex lx) = true.
Proof.
  unfold binary_round_aux.
  destruct (shr_fexp prec emax mx ex lx) as [mrs' e'].
  destruct (shr_fexp prec emax _ e' loc_Exact) as [mrs'' e''].
  destruct (shr_m mrs''); [reflexivity | | reflexivity].
  destruct (_ <=? _)%Z; reflexivity.
Qed.

Lemma binary_normalize_plus (m e : Z) :
  (0 <= m)%Z -> plus_sf (binary_normalize prec emax m e false) = true.
Proof.
  intros Hm. destruct m as [ | p | p]; [reflexivity | | lia].
  unfold binary_normalize, binary_round.
  destruct (shl_align _ _ _) as [mz ez]. apply binary_round_aux_plus.
Qed.

Lemma add_not_negative (x y : float) :
  not_negative x -> not_negative y -> not_negative (x + y).
Proof.
  unfold not_negative. rewrite !not_negative_spec, add_spec.
  unfold SF64add.
  destruct (Prim2SF x) as [s | s | | s m e]; try destruct s; try discriminate;
    destruct (Prim2SF y) as [s' | s' | | s' m' e']; try destruct s'; try discriminate;
    intros _ _; try reflexivity.
  cbn [SFadd cond_Zopp].
  rewrite plus_not_negative; [reflexivity | ].
  apply binary_normalize_plus.
  change (0 <= Z.pos (fst (shl_align m e (Z.min e e')))
               + Z.pos (fst (shl_align m' e' (Z.min e e'))))%Z.
  lia.
Qed.

Lemma sum_not_negative (l : list float) (acc : float) :
  not_negative acc -> Forall not_negative l ->
  not_negative (fold_left PrimFloat.add l acc).
Proof.
  intros Hacc Hl. revert acc Hacc.
  induction Hl as [ | x l Hx _ IH]; intros acc Hacc; cbn [fold_left].
  - exact Hacc.
  - apply IH. now apply add_not_negative.
Qed.

(** A length, as a float, has its sign bit clear. *)
Lemma float_of_len_plus {A} (l : list A) : plus_sf (Prim2SF (float_of_len l)) = true.
Proof.
  unfold float_of_len. rewrite of_uint63_spec. apply binary_normalize_plus.
  apply Uint63.to_Z_bounded.
Qed.

Lemma div_not_negative (x y : float) :
  not_negative x -> plus_sf (Prim2SF y) = true -> not_negative (x / y).
Proof.
  unfold not_negative. rewrite !not_negative_spec, div_spec. unfold SF64div.
  destruct (Prim2SF x) as [s | s | | s m e]; try destruct s; try discriminate;
    destruct (Prim2SF y) as [s' | s' | | s' m' e']; try destruct s'; try discriminate;
    intros _ _; try reflexivity.
  cbn [SFdiv xorb].
  destruct (SFdiv_core_binary _ _ _ _ _ _) as [[mz ez] lz].
  now rewrite plus_not_negative by apply binary_round_aux_plus.
Qed.

Lemma mul_self_not_negative (x : float) :
  PrimFloat.ltb 0 x = true -> not_negative (x * x).
Proof.
  intros H. apply positive_spec in H.
  unfold not_negative. rewrite not_negative_spec, mul_spec. unfold SF64mul.
  destruct (Prim2SF x) as [s | s | | s m e]; try destruct s; try contradiction;
    [reflexivity | ].
  cbn [SFmul xorb]. now rewrite plus_not_negative by apply binary_round_aux_plus.
Qed.

Lemma sqrt_not_negative (x : float) : not_negative (PrimFloat.sqrt x).
Proof.
  unfold not_negative. rewrite not_negative_spec, sqrt_spec. unfold SF64sqrt.
  destruct (Prim2SF x) as [s | s | | s m e]; try destruct s; try reflexivity.
  cbn [SFsqrt]. destruct (SFsqrt_core_binary _ _ _ _) as [[mz ez] lz].
  now rewrite plus_not_negative by apply binary_round_aux_plus.
Qed.

Lemma positive_not_negative (x : float) : PrimFloat.ltb 0 x = true -> not_negative x.
Proof.
  intros H. apply positive_spec in H.
  unfold not_negative. rewrite not_negative_spec.
  destruct (Prim2SF x) as [s | s | | s m e]; try destruct s; try contradiction;
    reflexivity.
Qed.

Lemma abs_not_negative (x : float) : not_negative (abs x).
Proof.
  unfold not_negative. rewrite not_negative_spec, abs_spec.
  destruct (Prim2SF x) as [s | s | | s m e]; reflexivity.
Qed.

(** A NaN is one for [is_nan], a zero is one for [is_zero]. *)
Lemma is_nan_of_nan (x : float) : Prim2SF x = S754_nan -> PrimFloat.is_nan x = true.
Proof.
  intros H. unfold PrimFloat.is_nan. rewrite eqb_spec, H. reflexivity.
Qed.

Lemma is_zero_of_zero (x : float) (s : bool) :
  Prim2SF x = S754_zero s -> PrimFloat.is_zero x = true.
Proof.
  intros H. unfold PrimFloat.is_zero. rewrite eqb_spec, H. reflexivity.
Qed.

Lemma SFcompare_refl (f : spec_float) : f <> S754_nan -> SFcompare f f = Some Eq.
Proof.
  destruct f as [s | s | | s m e]; intros H; try destruct s; try reflexivity;
    try congruence; cbn [SFcompare].
  - change (e ?= e)%Z with (Z.compare e e). rewrite Z.compare_refl.
    change (PosDef.Pos.compare_cont Eq m m) with (Pos.compare_cont Eq m m).
    now rewrite Pos.compare_cont_refl.
  - change (e ?= e)%Z with (Z.compare e e). rewrite Z.compare_refl.
    change (PosDef.Pos.compare_cont Eq m m) with (Pos.compare_cont Eq m m).
    now rewrite Pos.compare_cont_refl.
Qed.

Lemma is_nan_true (x : float) : PrimFloat.is_nan x = true -> Prim2SF x = S754_nan.
Proof.
  unfold PrimFloat.is_nan. rewrite eqb_spec. unfold SFeqb. intros H.
  destruct (Prim2SF x) as [s | s | | s m e] eqn:E; [ | | reflexivity | ];
    rewrite SFcompare_refl in H by discriminate; discriminate.
Qed.

(** A float that is no NaN, no zero and not below zero is above zero; the
    opposite of one below zero is above zero. *)
Lemma base_positive (x : float) :
  PrimFloat.is_nan x = false ->
  PrimFloat.is_zero x = false ->
  PrimFloat.ltb 0 (if PrimFloat.ltb x 0 then (- x)%float else x) = true.
Proof.
  intros Hnan Hzero.
  destruct (Prim2SF x) as [s | s | | s m e] eqn:E.
  - rewrite (is_zero_of_zero x s E) in Hzero. discriminate.
  - rewrite not_negative_spec, E.
    destruct s; cbn [not_negative_sf negb];
      rewrite FloatAxioms.ltb_spec, ?opp_spec, E; reflexivity.
  - rewrite (is_nan_of_nan x E) in Hnan. discriminate.
  - rewrite not_negative_spec, E.
    destruct s; cbn [not_negative_sf negb];
      rewrite FloatAxioms.ltb_spec, ?opp_spec, E; reflexivity.
Qed.

End FloatFacts.

(** ** A C library for the examples *)

(** A [pow] that is correctly rounded at the exponents 2 and 0.5, the two
    the analyser uses (at any other exponent, where it is never consulted, it
    returns the base). The [pow] of glibc agrees with it wherever the power
    can be represented exactly, as at every argument the examples of this
    file reach it with. *)
Definition rounded_pow (x y : float) : float :=
  if PrimFloat.eqb y 2 then (x * x)%float
  else if PrimFloat.eqb y 0.5 then PrimFloat.sqrt x
  else x.

Lemma rounded_pow_sign (x y : float) :
  PrimFloat.ltb 0 x = true -> PrimFloat.ltb (rounded_pow x y) 0 = false.
Proof.
  intros H. unfold rounded_pow.
  destruct (PrimFloat.eqb y 2); [now apply mul_self_not_negative | ].
  destruct (PrimFloat.eqb y 0.5); [apply sqrt_not_negative | ].
  now apply positive_not_negative.
Qed.

Definition rounded_libm : libm := mk_libm rounded_pow rounded_pow_sign.

(* ===================================================================== *)
(** * Powers *)
(* ===================================================================== *)

Section PowFacts.

Variable L : libm.

(** The special bases are settled before the C library is asked. *)
Lemma zero_or_nan_cases (x : float) :
  zero_or_nan x = true ->
  PrimFloat.is_nan x = true
  \/ (PrimFloat.is_nan x = false /\ PrimFloat.is_infinity x = false
      /\ PrimFloat.is_zero x = true).
Proof.
  unfold zero_or_nan. intros H.
  destruct (Prim2SF x) as [s | s | | s m e] eqn:E; try discriminate.
  - right. split; [ | split].
    + unfold PrimFloat.is_nan. rewrite eqb_spec, E. reflexivity.
    + unfold PrimFloat.is_infinity. rewrite eqb_spec, abs_spec, E. reflexivity.
    + exact (is_zero_of_zero x s E).
  - left. exact (is_nan_of_nan x E).
Qed.

Lemma pow2_zero_or_nan (x : float) :
  zero_or_nan x = true ->
  exists y, pow2 L x = Ok y /\ zero_or_nan y = true.
Proof.
  intros H. unfold pow2.
  destruct (zero_or_nan_cases x H) as [-> | [-> [-> ->]]].
  - now exists x.
  - now exists 0%float.
Qed.

Lemma pow_half_zero_or_nan (x : float) :
  zero_or_nan x = true ->
  exists y, pow_half L x = Ok (Real y) /\ zero_or_nan y = true.
Proof.
  intros H. unfold pow_half.
  destruct (zero_or_nan_cases x H) as [-> | [-> [-> ->]]].
  - now exists x.
  - now exists 0%float.
Qed.

(** [x ** 2] returns or raises OverflowError, and what it returns is not
    negative. *)
Lemma pow2_cases (x : float) :
  (exists y, pow2 L x = Ok y /\ not_negative y) \/ pow2 L x = Raise OverflowError.
Proof.
  unfold pow2.
  destruct (PrimFloat.is_nan x) eqn:Hnan.
  { left. exists x. split; [reflexivity | ].
    unfold not_negative. rewrite not_negative_spec, (is_nan_true x Hnan). reflexivity. }
  destruct (PrimFloat.is_infinity x).
  { left. exists (abs x). split; [reflexivity | apply abs_not_negative]. }
  destruct (PrimFloat.is_zero x) eqn:Hzero.
  { left. now exists 0%float. }
  cbv zeta. destruct (PrimFloat.eqb _ 1).
  { left. now exists 1%float. }
  unfold platform_pow. destruct (PrimFloat.is_infinity _); [now right | ].
  left. eexists. split; [reflexivity | ].
  apply libm_pow_sign. now apply base_positive.
Qed.

(** [v ** 0.5] of a [v] that is not negative is a float that is not
    negative, or OverflowError. *)
Lemma pow_half_cases (v : float) :
  not_negative v ->
  (exists y, pow_half L v = Ok (Real y) /\ not_negative y)
  \/ pow_half L v = Raise OverflowError.
Proof.
  intros Hv. unfold pow_half.
  destruct (PrimFloat.is_nan v) eqn:Hnan.
  { left. now exists v. }
  destruct (PrimFloat.is_infinity v).
  { left. exists (abs v). split; [reflexivity | apply abs_not_negative]. }
  destruct (PrimFloat.is_zero v) eqn:Hzero.
  { left. now exists 0%float. }
  rewrite Hv.
  destruct (PrimFloat.eqb v 1).
  { left. now exists 1%float. }
  unfold platform_pow. destruct (PrimFloat.is_infinity _); [now right | ].
  left. eexists. split; [reflexivity | ].
  apply libm_pow_sign.
  pose proof (base_positive v Hnan Hzero) as Hp. now rewrite Hv in Hp.
Qed.

End PowFacts.

(* ===================================================================== *)
(** * The analyser: outlier trimming *)
(* ===================================================================== *)

Section OutlierFacts.

Import Analysis.

Variable L : libm.

Lemma average_of_nonempty (data : list request_pair) :
  data <> [] -> average_of data = Ok (mean data).
Proof.
  destruct data as [ | p data]; [congruence | reflexivity].
Qed.

(** One pass: the mean and the deviation are those of the untrimmed list,
    and the result is the input filtered by the strict test. *)
Lemma remove_outliers_filter (data : list request_pair) (factor sd : float) :
  data <> [] ->
  std_of L data (mean data) = Ok (Real sd) ->
  remove_outliers L data factor = Ok (filter (inside factor (mean data) sd) data).
Proof.
  intros Hne Hsd. unfold remove_outliers.
  rewrite (average_of_nonempty data Hne).
  cbv beta iota delta [obind]. rewrite Hsd. reflexivity.
Qed.

Lemma filter_all_false {A} (f : A -> bool) (l : list A) :
  (forall x, In x l -> f x = false) -> filter f l = [].
Proof.
  induction l as [ | a l IH]; intros H; [reflexivity | ].
  simpl. rewrite (H a (or_introl eq_refl)). apply IH.
  intros x Hx. apply H. now right.
Qed.

Lemma omap_zero_or_nan (data : list request_pair) (avg : float) :
  (forall p, In p data -> zero_or_nan (time_diff p - avg) = true) ->
  exists squares,
    omap (fun p => pow2 L (time_diff p - avg)%float) data = Ok squares
    /\ Forall (fun y => zero_or_nan y = true) squares.
Proof.
  induction data as [ | p data IH]; intros H.
  - exists []. split; [reflexivity | constructor].
  - destruct IH as [sq [Hsq Hall]]; [intros q Hq; apply H; now right | ].
    destruct (pow2_zero_or_nan L _ (H p (or_introl eq_refl))) as [y [Hy Hzn]].
    exists (y :: sq). split.
    + cbn [omap]. rewrite Hy. cbn [obind]. rewrite Hsq. reflexivity.
    + constructor; assumption.
Qed.

(** When every deviation from the mean is a zero or a NaN, so is the
    computed standard deviation: the squares and the root are those of the
    special bases, which the C library has no part in. *)
Lemma std_of_zero_or_nan (data : list request_pair) (avg : float) :
  data <> [] ->
  (forall p, In p data -> zero_or_nan (time_diff p - avg) = true) ->
  exists sd, std_of L data avg = Ok (Real sd) /\ zero_or_nan sd = true.
Proof.
  intros Hne H. destruct (omap_zero_or_nan data avg H) as [sq [Hsq Hall]].
  unfold std_of. rewrite Hsq. cbn [obind].
  destruct data as [ | p data]; [congruence | ]. cbn [div_len obind].
  apply pow_half_zero_or_nan, div_zero_or_nan.
  unfold Py.sum. now apply sum_zero_or_nan.
Qed.

(** A sample with the given time difference and no cache-status header. *)
Definition sample_of (x : float) : request_pair := mk_pair x "-" "-".

(** C2: for a non-empty list whose deviation is computed (no overflow),
    [remove_outliers] (factor 2) computes the mean and the population
    standard deviation once, over the untrimmed input, and returns, in their
    original order, exactly the points whose distance from that mean is
    strictly less than twice the deviation. A point at exactly that distance,
    which is not outside it, is dropped: the comprehension tests [<] where
    the docstring ("removing the data points that are outside the factor *
    std from the average") asks for [<=]. This holds whatever the C library
    computes for the powers. *)
Theorem remove_outliers_strict (data : list request_pair) (sd : float) :
  data <> [] ->
  std_of L data (mean data) = Ok (Real sd) ->
  exists out,
    remove_outliers L data default_factor = Ok out
    /\ out = filter (fun p => PrimFloat.ltb (abs (time_diff p - mean data)) (2 * sd)) data
    /\ (forall p, In p out <->
                  In p data /\ PrimFloat.ltb (abs (time_diff p - mean data)) (2 * sd) = true)
    /\ (forall p, In p data ->
                  PrimFloat.eqb (abs (time_diff p - mean data)) (2 * sd) = true ->
                  ~ In p out).
Proof.
  intros Hne Hsd.
  exists (filter (inside default_factor (mean data) sd) data).
  split; [now apply remove_outliers_filter | ].
  split; [reflexivity | ].
  split.
  - intros p. rewrite filter_In. reflexivity.
  - intros p _ Heq Hin. apply filter_In in Hin as [_ Hlt].
    unfold inside, default_factor in Hlt.
    rewrite (eqb_not_ltb _ _ Heq) in Hlt. discriminate.
Qed.

(** C10 (amended), first half: a non-empty list whose time differences all
    equal [x] and whose computed mean is [x] again is trimmed to nothing. *)
Lemma constant_exact_mean_trimmed (data : list request_pair) (x : float) :
  data <> [] ->
  (forall p, In p data -> time_diff p = x) ->
  mean data = x ->
  remove_outliers L data default_factor = Ok [].
Proof.
  intros Hne Hconst Hmean.
  destruct (std_of_zero_or_nan data (mean data) Hne) as [sd [Hsd Hzn]].
  { intros p Hp. rewrite (Hconst p Hp), Hmean. apply sub_self_zero_or_nan. }
  rewrite (remove_outliers_filter data default_factor sd Hne Hsd).
  f_equal. apply filter_all_false. intros p _.
  unfold inside, default_factor.
  apply abs_ltb_zero_or_nan. now apply two_mul_zero_or_nan.
Qed.

End OutlierFacts.

Lemma remove_outliers_strict_witness :
  exists out,
    Analysis.remove_outliers rounded_libm (map sample_of [0; 0; 0; 0; 5]%float)
      Analysis.default_factor = Ok out
    /\ out = filter (fun p => PrimFloat.ltb
                       (abs (Analysis.time_diff p
                             - Analysis.mean (map sample_of [0; 0; 0; 0; 5]%float)))
                       (2 * 2)) (map sample_of [0; 0; 0; 0; 5]%float)
    /\ (forall p, In p out <->
                  In p (map sample_of [0; 0; 0; 0; 5]%float)
                  /\ PrimFloat.ltb
                       (abs (Analysis.time_diff p
                             - Analysis.mean (map sample_of [0; 0; 0; 0; 5]%float)))
                       (2 * 2) = true)
    /\ (forall p, In p (map sample_of [0; 0; 0; 0; 5]%float) ->
                  PrimFloat.eqb
                    (abs (Analysis.time_diff p
                          - Analysis.mean (map sample_of [0; 0; 0; 0; 5]%float)))
                    (2 * 2) = true ->
                  ~ In p out).
Proof.
  apply (remove_outliers_strict rounded_libm
           (map sample_of [0; 0; 0; 0; 5]%float) 2%float).
  - discriminate.
  - vm_compute. reflexivity.
Defined.

(** The boundary at work: in [0, 0, 0, 0, 5] the mean is 1 and the deviation
    is 2 (the powers are 1, settled by the interpreter, and 16 and 2, which
    are exact), so the point 5 lies at distance 4 = 2 * 2, not outside twice
    the deviation, and it is dropped all the same. *)
Example remove_outliers_drops_boundary_point :
  Analysis.average_of (map sample_of [0; 0; 0; 0; 5]%float) = Ok 1%float
  /\ Analysis.std_of rounded_libm (map sample_of [0; 0; 0; 0; 5]%float) 1
     = Ok (Real 2%float)
  /\ PrimFloat.leb (abs (5 - 1)) (2 * 2) = true
  /\ Analysis.remove_outliers rounded_libm (map sample_of [0; 0; 0; 0; 5]%float)
       Analysis.default_factor
     = Ok (map sample_of [0; 0; 0; 0]%float).
Proof.
  split; [vm_compute; reflexivity | ].
  split; [vm_compute; reflexivity | ].
  split; vm_compute; reflexivity.
Qed.

(** The last bit of a power can decide what is trimmed. With a [pow] that
    is correctly rounded, the list -0.1, -0.1, -0.1, -0.1, 11.24 has the
    deviation 4.5360000000000005 and keeps all its points. A C library that
    returns, for 9.072 squared, the float just below the rounded square, as
    glibc 2.36 does, gives the deviation 4.536: the point 11.24 then lies at
    exactly twice the deviation, and is dropped. *)
Definition pow_below_at_9072 (x y : float) : float :=
  if PrimFloat.eqb x 0x1.224dd2f1a9fbep+3 && PrimFloat.eqb y 2
  then 0x1.4934699418504p+6%float
  else rounded_pow x y.

Lemma pow_below_at_9072_sign (x y : float) :
  PrimFloat.ltb 0 x = true -> PrimFloat.ltb (pow_below_at_9072 x y) 0 = false.
Proof.
  intros H. unfold pow_below_at_9072.
  destruct (_ && _); [reflexivity | now apply rounded_pow_sign].
Qed.

Definition libm_below_at_9072 : libm := mk_libm pow_below_at_9072 pow_below_at_9072_sign.

Example last_bit_of_pow_decides :
  Analysis.remove_outliers rounded_libm
    (map sample_of [-0.1; -0.1; -0.1; -0.1; 11.24]%float) Analysis.default_factor
  = Ok (map sample_of [-0.1; -0.1; -0.1; -0.1; 11.24]%float)
  /\ Analysis.std_of libm_below_at_9072
       (map sample_of [-0.1; -0.1; -0.1; -0.1; 11.24]%float) 2.168
     = Ok (Real 4.536%float)
  /\ Analysis.remove_outliers libm_below_at_9072
       (map sample_of [-0.1; -0.1; -0.1; -0.1; 11.24]%float) Analysis.default_factor
     = Ok (map sample_of [-0.1; -0.1; -0.1; -0.1]%float).
Proof.
  split; [vm_compute; reflexivity | ].
  split; vm_compute; reflexivity.
Qed.

(** And with no C library at all: in a list of equal values no point is
    outside any distance from the mean, and every point is dropped. *)
Example remove_outliers_drops_constant_list (L : libm) :
  Analysis.remove_outliers L (map sample_of [3; 3; 3]%float) Analysis.default_factor
  = Ok [].
Proof.
  apply (constant_exact_mean_trimmed L (map sample_of [3; 3; 3]%float) 3%float).
  - discriminate.
  - intros p Hp. cbn in Hp. destruct Hp as [<- | [<- | [<- | []]]]; reflexivity.
  - vm_compute. reflexivity.
Qed.

(* ===================================================================== *)
(** * The analyser: [predict] *)
(* ===================================================================== *)

Section PredictFacts.

Import Analysis.

Variable L : libm.
Variable ttest_ind : list float -> list float -> bool -> float * float.

(** [predict] up to the emptiness test. *)
Lemma predict_after_trimming (randomized fixed r f : list request_pair)
    (calls : store) :
  remove_outliers L randomized default_factor = Ok r ->
  remove_outliers L fixed default_factor = Ok f ->
  predict L ttest_ind randomized fixed calls =
  (if (List.length r =? 0)%nat || (List.length f =? 0)%nat
   then ret None
   else
     randomized_average <- lift (average_of r) ;;
     randomized_std <- lift (std_of L r randomized_average) ;;
     fixed_average <- lift (average_of f) ;;
     fixed_std <- lift (std_of L f fixed_average) ;;
     if PrimFloat.ltb 0 fixed_average
     then ret (Some "NO cache")
     else
       tp <- call_ttest_ind ttest_ind (time_diffs r) (amplified fixed_average f)
                            false ;;
       if PrimFloat.leb (snd tp) alpha
       then ret (Some "CACHE")
       else ret (Some "NO cache")) calls.
Proof.
  intros Hr Hf. unfold predict, bind, lift. rewrite Hr, Hf. reflexivity.
Qed.

(** C3: when the randomized list or the fixed list is empty after trimming,
    [predict] returns [None], not a verdict, and runs no t-test; [analyse]
    then returns [None] as well, so its callers see no verdict. *)
Theorem predict_none_when_trimmed_empty
    (randomized fixed r f : list request_pair) (calls : store) :
  remove_outliers L randomized default_factor = Ok r ->
  remove_outliers L fixed default_factor = Ok f ->
  r = [] \/ f = [] ->
  predict L ttest_ind randomized fixed calls = (Ok None, calls)
  /\ forall url extension mode b analysis raw_randomized raw_fixed,
       dict_get b "randomized" = Some raw_randomized ->
       dict_get b "fixed" = Some raw_fixed ->
       summarise raw_randomized = randomized ->
       summarise raw_fixed = fixed ->
       analyse_mode L ttest_ind url extension mode b analysis calls
       = (Ok (Return None), calls).
Proof.
  intros Hr Hf Hempty.
  assert (Hp : predict L ttest_ind randomized fixed calls = (Ok None, calls)).
  { rewrite (predict_after_trimming _ _ _ _ _ Hr Hf).
    destruct Hempty as [-> | ->]; [reflexivity | ].
    rewrite orb_true_r. reflexivity. }
  split; [exact Hp | ].
  intros url extension mode b analysis raw_r raw_f Hbr Hbf Hsr Hsf.
  unfold analyse_mode. rewrite Hbr, Hbf, Hsr, Hsf.
  destruct ((List.length fixed =? 0)%nat || (List.length randomized =? 0)%nat);
    [reflexivity | ].
  unfold bind. rewrite Hp. reflexivity.
Qed.

(** C1: with both trimmed lists non-empty (and their statistics computed
    without overflow), a strictly positive mean of the trimmed fixed list gives
    'NO cache' with no call to the t-test; otherwise the t-test is called once,
    with [equal_var=False] (Welch's test), on the trimmed randomized values and
    on the trimmed fixed values, each multiplied by 5 exactly when that mean is
    strictly negative, and the answer is 'CACHE' exactly when the p-value is at
    most 0.01. The trimmed lists are those [remove_outliers] computes with the
    C library of the platform, whichever it is. *)
Theorem predict_decision
    (randomized fixed r f : list request_pair) (rs fs : number) (calls : store) :
  remove_outliers L randomized default_factor = Ok r ->
  remove_outliers L fixed default_factor = Ok f ->
  r <> [] -> f <> [] ->
  std_of L r (mean r) = Ok rs ->
  std_of L f (mean f) = Ok fs ->
  (PrimFloat.ltb 0 (mean f) = true ->
   predict L ttest_ind randomized fixed calls = (Ok (Some "NO cache"), calls))
  /\ (PrimFloat.ltb 0 (mean f) = false ->
      let a := time_diffs r in
      let b := map (fun x => if PrimFloat.ltb (mean f) 0 then (x * 5)%float else x)
                   (time_diffs f) in
      let p := snd (ttest_ind a b false) in
      predict L ttest_ind randomized fixed calls
      = (Ok (Some (if PrimFloat.leb p 0.01 then "CACHE" else "NO cache")),
         calls ++ [(a, b, false)])
      /\ (p = 0.01%float ->
          predict L ttest_ind randomized fixed calls
          = (Ok (Some "CACHE"), calls ++ [(a, b, false)])))
  /\ (PrimFloat.ltb (mean f) 0 = false ->
      map (fun x => if PrimFloat.ltb (mean f) 0 then (x * 5)%float else x) (time_diffs f)
      = time_diffs f).
Proof.
  intros Hr Hf Hrne Hfne Hrs Hfs.
  assert (Hstep : predict L ttest_ind randomized fixed calls =
    (if PrimFloat.ltb 0 (mean f)
     then ret (Some "NO cache")
     else
       tp <- call_ttest_ind ttest_ind (time_diffs r) (amplified (mean f) f) false ;;
       if PrimFloat.leb (snd tp) alpha
       then ret (Some "CACHE")
       else ret (Some "NO cache")) calls).
  { rewrite (predict_after_trimming _ _ _ _ _ Hr Hf).
    destruct r as [ | p0 r']; [congruence | ].
    destruct f as [ | q0 f']; [congruence | ].
    cbn [List.length Nat.eqb orb].
    unfold bind at 1, lift at 1.
    rewrite (average_of_nonempty (p0 :: r')) by discriminate.
    unfold bind at 1, lift at 1. rewrite Hrs.
    unfold bind at 1, lift at 1.
    rewrite (average_of_nonempty (q0 :: f')) by discriminate.
    unfold bind at 1, lift at 1. rewrite Hfs. reflexivity. }
  assert (Hamp : amplified (mean f) f =
                 map (fun x => if PrimFloat.ltb (mean f) 0 then (x * 5)%float else x)
                     (time_diffs f)).
  { unfold amplified, time_diffs, enhancing_factor. rewrite map_map. reflexivity. }
  split; [ | split].
  - intros Hpos. rewrite Hstep, Hpos. reflexivity.
  - intros Hnpos. cbv zeta. rewrite Hstep, Hnpos, Hamp.
    unfold bind, call_ttest_ind, alpha, ret.
    split.
    + destruct (PrimFloat.leb _ _); reflexivity.
    + intros ->. reflexivity.
  - intros Hnneg. rewrite Hnneg. apply map_id.
Qed.


End PredictFacts.

(** A stand-in for the t-test where a concrete one is needed: it reports
    the p-value 0.01 whatever the samples. *)
Definition constant_ttest (a b : list float) (equal_var : bool) : float * float :=
  (0%float, 0.01%float).

Lemma predict_none_when_trimmed_empty_witness :
  Analysis.predict rounded_libm constant_ttest
    (map sample_of [3; 3; 3]%float) (map sample_of [1; 2; 3]%float) []
  = (Ok None, [])
  /\ forall url extension mode b analysis raw_randomized raw_fixed,
       dict_get b "randomized" = Some raw_randomized ->
       dict_get b "fixed" = Some raw_fixed ->
       Analysis.summarise raw_randomized = map sample_of [3; 3; 3]%float ->
       Analysis.summarise raw_fixed = map sample_of [1; 2; 3]%float ->
       Analysis.analyse_mode rounded_libm constant_ttest url extension mode b analysis []
       = (Ok (Return None), []).
Proof.
  apply (predict_none_when_trimmed_empty rounded_libm constant_ttest
           (map sample_of [3; 3; 3]%float) (map sample_of [1; 2; 3]%float)
           [] (map sample_of [1; 2; 3]%float) []).
  - vm_compute. reflexivity.
  - vm_compute. reflexivity.
  - left. reflexivity.
Defined.

(** Two small sample lists: time differences 1, 2, 3 and -1, -2, -3. *)
Definition rising : list Analysis.request_pair := map sample_of [1; 2; 3]%float.
Definition falling : list Analysis.request_pair := map sample_of [-1; -2; -3]%float.

Lemma predict_decision_witness :
  (PrimFloat.ltb 0 (Analysis.mean falling) = true ->
   Analysis.predict rounded_libm constant_ttest rising falling [] = (Ok (Some "NO cache"), []))
  /\ (PrimFloat.ltb 0 (Analysis.mean falling) = false ->
      let a := Analysis.time_diffs rising in
      let b := map (fun x => if PrimFloat.ltb (Analysis.mean falling) 0
                             then (x * 5)%float else x)
                   (Analysis.time_diffs falling) in
      let p := snd (constant_ttest a b false) in
      Analysis.predict rounded_libm constant_ttest rising falling []
      = (Ok (Some (if PrimFloat.leb p 0.01 then "CACHE" else "NO cache")),
         [] ++ [(a, b, false)])
      /\ (p = 0.01%float ->
          Analysis.predict rounded_libm constant_ttest rising falling []
          = (Ok (Some "CACHE"), [] ++ [(a, b, false)])))
  /\ (PrimFloat.ltb (Analysis.mean falling) 0 = false ->
      map (fun x => if PrimFloat.ltb (Analysis.mean falling) 0
                    then (x * 5)%float else x) (Analysis.time_diffs falling)
      = Analysis.time_diffs falling).
Proof.
  eapply (predict_decision rounded_libm constant_ttest rising falling rising falling).
  - vm_compute. reflexivity.
  - vm_compute. reflexivity.
  - discriminate.
  - discriminate.
  - vm_compute. reflexivity.
  - vm_compute. reflexivity.
Defined.



(* ===================================================================== *)
(** * The analyser: the label *)
(* ===================================================================== *)

Section LabelFacts.

Import Analysis.

Variable L : libm.
Variable ttest_ind : list float -> list float -> bool -> float * float.

(** A summarised sample shows the cache status [s] in one of its two
    responses. *)
Definition shows (s : string) (p : request_pair) : Prop :=
  cache_status_1 p = s \/ cache_status_2 p = s.

(** Some sample of the randomized or of the fixed list shows HIT or MISS. *)
Definition some_hit_or_miss (randomized fixed : list request_pair) : Prop :=
  exists p, In p (randomized ++ fixed) /\ (shows "HIT" p \/ shows "MISS" p).

Lemma any_status_true (s : string) (l : list request_pair) :
  any_status s l = true <-> exists p, In p l /\ shows s p.
Proof.
  unfold any_status, shows. rewrite existsb_exists.
  split; intros [p [Hin H]]; exists p; split; try exact Hin.
  - apply orb_true_iff in H. now rewrite !String.eqb_eq in H.
  - apply orb_true_iff. now rewrite !String.eqb_eq.
Qed.

Lemma header_test_true (randomized fixed : list request_pair) :
  any_status "HIT" randomized || any_status "HIT" fixed
  || any_status "MISS" randomized || any_status "MISS" fixed = true
  <-> some_hit_or_miss randomized fixed.
Proof.
  unfold some_hit_or_miss. rewrite !orb_true_iff, !any_status_true. split.
  - intros [[[[p [Hin H]] | [p [Hin H]]] | [p [Hin H]]] | [p [Hin H]]];
      exists p; rewrite in_app_iff; tauto.
  - intros [p [Hin [H | H]]]; apply in_app_iff in Hin as [Hin | Hin];
      [left; left; left | left; left; right | left; right | right]; now exists p.
Qed.

Lemma dict_get_set_same {V} (d : dict V) (k : string) (v : V) :
  dict_get (dict_set d k v) k = Some v.
Proof.
  induction d as [ | [k' v'] d IH]; simpl.
  - now rewrite String.eqb_refl.
  - destruct (String.eqb k' k) eqn:E; simpl; rewrite E; [reflexivity | exact IH].
Qed.

Lemma lookup_set3 (analysis : analysis_t) (url extension mode : string) (e : entry) :
  dict_get (sub (sub (set3 analysis url extension mode e) url) extension) mode = Some e.
Proof.
  unfold set3, sub at 1 2. rewrite !dict_get_set_same. reflexivity.
Qed.

(** The three outcomes of the label code. *)
Lemma label_of_cases (randomized fixed : list request_pair) (raw_fixed : list Sample.t) :
  let more_hits := count_second "MISS" raw_fixed < count_second "HIT" raw_fixed in
  (label_of randomized fixed raw_fixed = "CACHE" <-> more_hits)
  /\ (label_of randomized fixed raw_fixed = "NO cache" <->
      ~ more_hits /\ some_hit_or_miss randomized fixed)
  /\ (label_of randomized fixed raw_fixed = "Unknown" <->
      ~ more_hits /\ ~ some_hit_or_miss randomized fixed).
Proof.
  cbv zeta. unfold label_of. rewrite <- header_test_true.
  destruct (Nat.ltb_spec (count_second "MISS" raw_fixed) (count_second "HIT" raw_fixed))
    as [Hlt | Hge];
    destruct (any_status "HIT" randomized || any_status "HIT" fixed
              || any_status "MISS" randomized || any_status "MISS" fixed);
    repeat split; try discriminate; try tauto; try lia;
    intros; try lia; intuition (try discriminate; try lia).
Qed.

(** C4 (amended): for a bucket with data on which [predict] gives a verdict,
    the entry written for it carries a label that is 'CACHE' exactly when the
    fixed bucket has strictly more second responses with status HIT than with
    status MISS; otherwise it is 'NO cache' when some sample of either list
    shows HIT or MISS in its first or second response, and 'Unknown' when none
    does. *)
Theorem analyse_label
    (url extension mode : string) (b : bucket) (analysis : analysis_t)
    (raw_randomized raw_fixed : list Sample.t) (verdict : string)
    (calls calls' : store) :
  dict_get b "randomized" = Some raw_randomized ->
  dict_get b "fixed" = Some raw_fixed ->
  raw_randomized <> [] -> raw_fixed <> [] ->
  predict L ttest_ind (summarise raw_randomized) (summarise raw_fixed) calls
  = (Ok (Some verdict), calls') ->
  let randomized := summarise raw_randomized in
  let fixed := summarise raw_fixed in
  let more_hits := count_second "MISS" raw_fixed < count_second "HIT" raw_fixed in
  exists label analysis',
    analyse_mode L ttest_ind url extension mode b analysis calls
    = (Ok (Continue analysis'), calls')
    /\ dict_get (sub (sub analysis' url) extension) mode
       = Some (Verdict label verdict randomized fixed)
    /\ (label = "CACHE" <-> more_hits)
    /\ (label = "NO cache" <-> ~ more_hits /\ some_hit_or_miss randomized fixed)
    /\ (label = "Unknown" <-> ~ more_hits /\ ~ some_hit_or_miss randomized fixed).
Proof.
  intros Hr Hf Hrne Hfne Hp. cbv zeta.
  exists (label_of (summarise raw_randomized) (summarise raw_fixed) raw_fixed).
  eexists. split; [ | split; [apply lookup_set3 | apply label_of_cases]].
  unfold analyse_mode. rewrite Hr, Hf.
  assert (Hlen : (List.length (summarise raw_fixed) =? 0)%nat
                 || (List.length (summarise raw_randomized) =? 0)%nat = false).
  { unfold summarise. rewrite !length_map.
    destruct raw_randomized; [congruence | ]. destruct raw_fixed; [congruence | ].
    reflexivity. }
  rewrite Hlen. unfold bind. rewrite Hp. reflexivity.
Qed.

End LabelFacts.

(** A bucket for the URL https://t/profile: time differences 1, 2, 3 in both
    lists; the only cache-status header seen is one HIT, in the second
    response of the first fixed pair. *)
Definition plain_response (status : string) : Sample.response :=
  Sample.mk_response "https://t/profile" "200" status [].

Definition plain_pair (x : float) (status2 : string) : Sample.t :=
  Sample.mk x (plain_response "-") (plain_response status2).

Definition one_hit_randomized : list Sample.t :=
  [plain_pair 1 "-"; plain_pair 2 "-"; plain_pair 3 "-"].

Definition one_hit_fixed : list Sample.t :=
  [plain_pair 1 "HIT"; plain_pair 2 "-"; plain_pair 3 "-"].

Definition one_hit_bucket : Analysis.bucket :=
  [("randomized", one_hit_randomized); ("fixed", one_hit_fixed)].

Definition one_hit_data : dict (dict (dict Analysis.bucket)) :=
  [("https://t/profile", [(".css", [("PATH_PARAMETER", one_hit_bucket)])])].

Lemma analyse_label_witness :
  let randomized := Analysis.summarise one_hit_randomized in
  let fixed := Analysis.summarise one_hit_fixed in
  let more_hits :=
    Analysis.count_second "MISS" one_hit_fixed < Analysis.count_second "HIT" one_hit_fixed in
  exists label analysis',
    Analysis.analyse_mode rounded_libm constant_ttest "https://t/profile" ".css" "PATH_PARAMETER"
      one_hit_bucket [] []
    = (Ok (Continue analysis'), [])
    /\ dict_get (Analysis.sub (Analysis.sub analysis' "https://t/profile") ".css")
         "PATH_PARAMETER"
       = Some (Analysis.Verdict label "NO cache" randomized fixed)
    /\ (label = "CACHE" <-> more_hits)
    /\ (label = "NO cache" <-> ~ more_hits /\ some_hit_or_miss randomized fixed)
    /\ (label = "Unknown" <-> ~ more_hits /\ ~ some_hit_or_miss randomized fixed).
Proof.
  apply (analyse_label rounded_libm constant_ttest "https://t/profile" ".css" "PATH_PARAMETER"
           one_hit_bucket [] one_hit_randomized one_hit_fixed "NO cache" [] []).
  - reflexivity.
  - reflexivity.
  - discriminate.
  - discriminate.
  - vm_compute. reflexivity.
Defined.

(** C4, as stated, fails: one HIT among three second responses of the fixed
    bucket is no majority, yet, with no MISS beside it, the label written by
    [analyse] is 'CACHE', whatever the t-test. *)
Lemma label_cache_without_hit_majority :
  Analysis.count_second "HIT" one_hit_fixed = 1
  /\ List.length one_hit_fixed = 3
  /\ forall ttest_ind calls,
       Analysis.analyse rounded_libm ttest_ind "t" one_hit_data calls
       = (Ok (Some [("https://t/profile",
                     [(".css",
                       [("PATH_PARAMETER",
                         Analysis.Verdict "CACHE" "NO cache"
                           (Analysis.summarise one_hit_randomized)
                           (Analysis.summarise one_hit_fixed))])])]),
          calls).
Proof.
  split; [reflexivity | ].
  split; [reflexivity | ].
  intros ttest_ind calls. vm_compute. reflexivity.
Qed.

(* ===================================================================== *)
(** * The cache buster: unique tokens *)
(* ===================================================================== *)

Section TokenFacts.

Import CacheBuster.

Variable choice : nat -> nat.
Variable fuel : nat.

Lemma ascii_letters_alpha :
  Forall (fun c => Str.is_alpha c = true) (list_ascii_of_string ascii_letters).
Proof.
  repeat constructor.
Qed.

Lemma random_letter_spec (w : world) :
  exists c, random_letter choice w = (Ok c, mk_world (S (draws w)) (_cache_busters w))
            /\ Str.is_alpha c = true.
Proof.
  unfold random_letter. eexists. split; [reflexivity | ].
  pose proof ascii_letters_alpha as H. rewrite Forall_forall in H.
  apply H, nth_In.
  change (List.length (list_ascii_of_string ascii_letters)) with 52.
  apply Nat.mod_upper_bound. discriminate.
Qed.

(** The generator always returns: [length] letters, the ledger untouched. *)
Lemma generate_random_string_spec (length : nat) (w : world) :
  exists s,
    generate_random_string choice length w
    = (Ok s, mk_world (length + draws w) (_cache_busters w))
    /\ String.length s = length
    /\ Str.all_chars Str.is_alpha s = true.
Proof.
  revert w. induction length as [ | n IH]; intros w.
  - exists EmptyString. destruct w. repeat split.
  - destruct (random_letter_spec w) as [c [Hc Halpha]].
    destruct (IH (mk_world (S (draws w)) (_cache_busters w))) as [s [Hs [Hlen Hall]]].
    exists (String c s). cbn [generate_random_string]. unfold bind at 1.
    rewrite Hc. unfold bind at 1. rewrite Hs. cbn [draws _cache_busters].
    unfold ret. rewrite Nat.add_succ_r. repeat split.
    + cbn. now rewrite Hlen.
    + cbn. now rewrite Halpha, Hall.
Qed.

Lemma existsb_eqb_false (s : string) (l : list string) :
  existsb (String.eqb s) l = false <-> ~ In s l.
Proof.
  split.
  - intros H Hin. assert (existsb (String.eqb s) l = true) as E.
    { apply existsb_exists. exists s. split; [exact Hin | apply String.eqb_refl]. }
    congruence.
  - intros H. destruct (existsb (String.eqb s) l) eqn:E; [ | reflexivity].
    apply existsb_exists in E as [x [Hin Heq]]. apply String.eqb_eq in Heq.
    subst. contradiction.
Qed.

(** What the loop hands back is not in the ledger, is not empty, and is
    either the value it was entered with or a freshly generated string. *)
Lemma reroll_spec (n length : nat) (cache_buster tok : string) (w w' : world) :
  reroll choice n length cache_buster w = (Ok tok, w') ->
  _cache_busters w' = _cache_busters w
  /\ ~ In tok (_cache_busters w)
  /\ tok <> ""
  /\ (tok = cache_buster
      \/ (String.length tok = length /\ Str.all_chars Str.is_alpha tok = true)).
Proof.
  revert cache_buster w. induction n as [ | n IH]; intros cb w H; cbn in H.
  - destruct (existsb (String.eqb cb) (_cache_busters w) || String.eqb cb "") eqn:E;
      [discriminate | ].
    injection H as <- <-. apply orb_false_iff in E as [E1 E2].
    apply existsb_eqb_false in E1. apply String.eqb_neq in E2. tauto.
  - destruct (existsb (String.eqb cb) (_cache_busters w) || String.eqb cb "") eqn:E.
    + destruct (generate_random_string_spec length w) as [s [Hs [Hlen Hall]]].
      unfold bind in H. rewrite Hs in H.
      apply IH in H. cbn [_cache_busters] in H.
      destruct H as [Hl [Hnin [Hne [-> | Hgen]]]]; tauto.
    + injection H as <- <-. apply orb_false_iff in E as [E1 E2].
      apply existsb_eqb_false in E1. apply String.eqb_neq in E2. tauto.
Qed.

Lemma get_unique_cache_buster_spec (self : instance) (length : nat)
    (tok : string) (w w' : world) :
  get_unique_cache_buster choice fuel self length w = (Ok tok, w') ->
  _cache_busters w' = _cache_busters w ++ [tok]
  /\ ~ In tok (_cache_busters w)
  /\ String.length tok = length
  /\ Str.all_chars Str.is_alpha tok = true.
Proof.
  unfold get_unique_cache_buster, bind, modify, ret. intros H.
  destruct (reroll choice fuel length "" w) as [[t | e | ] w1] eqn:E; try discriminate.
  injection H as <- <-.
  apply reroll_spec in E as [Hl [Hnin [Hne [-> | [Hlen Hall]]]]]; [congruence | ].
  unfold record_token. cbn [_cache_busters]. rewrite Hl. tauto.
Qed.

(** The call does return as soon as the generator offers a fresh string. *)
Lemma get_unique_cache_buster_returns (self : instance) (length n : nat)
    (s : string) (w : world) :
  fuel = S n ->
  fst (generate_random_string choice length w) = Ok s ->
  s <> "" -> ~ In s (_cache_busters w) ->
  get_unique_cache_buster choice fuel self length w
  = (Ok s, mk_world (length + draws w) (_cache_busters w ++ [s])).
Proof.
  intros -> Hgen Hne Hnin.
  destruct (generate_random_string_spec length w) as [s' [Hs _]].
  rewrite Hs in Hgen. cbn in Hgen. injection Hgen as ->.
  unfold get_unique_cache_buster. unfold bind at 1. cbn [reroll].
  rewrite String.eqb_refl, orb_true_r. unfold bind at 1. rewrite Hs.
  assert (E : existsb (String.eqb s) (_cache_busters w) || String.eqb s "" = false).
  { apply orb_false_iff. split; [now apply existsb_eqb_false | now apply String.eqb_neq]. }
  destruct n; cbn [reroll _cache_busters]; rewrite E; reflexivity.
Qed.

(** C5: whatever the random generator and through whichever instances the
    calls are made, the tokens returned by a run of calls to
    [get_unique_cache_buster()] are pairwise distinct and absent from the
    ledger the run started with; each is five letters long and is in the
    ledger once the call has returned. *)
Theorem issued_tokens_unique (selves : list instance) (toks : list string)
    (w w' : world) :
  issue_tokens choice fuel selves w = (Ok toks, w') ->
  NoDup toks
  /\ (forall tok, In tok toks -> ~ In tok (_cache_busters w))
  /\ _cache_busters w' = _cache_busters w ++ toks
  /\ List.length toks = List.length selves
  /\ Forall (fun tok => String.length tok = 5
                        /\ Str.all_chars Str.is_alpha tok = true) toks.
Proof.
  revert toks w. induction selves as [ | self rest IH]; intros toks w H.
  - cbn in H. injection H as <- <-. rewrite app_nil_r.
    repeat split; try constructor. intros tok [].
  - cbn [issue_tokens] in H. unfold bind at 1 in H.
    destruct (get_unique_cache_buster choice fuel self default_length w)
      as [[t | e | ] w1] eqn:E; try discriminate.
    unfold bind at 1 in H.
    destruct (issue_tokens choice fuel rest w1) as [[ts | e | ] w2] eqn:E2;
      try discriminate.
    injection H as <- <-.
    apply get_unique_cache_buster_spec in E as [Hl [Hnin [Hlen Hall]]].
    apply IH in E2 as [Hnd [Hfresh [Hl2 [Hcount Hshape]]]].
    rewrite Hl in Hfresh, Hl2.
    split; [ | split; [ | split; [ | split]]].
    + constructor; [ | exact Hnd].
      intros Hin. apply (Hfresh t Hin). apply in_or_app. right. now left.
    + intros tok [<- | Hin]; [exact Hnin | ].
      intros Hold. apply (Hfresh tok Hin). apply in_or_app. now left.
    + rewrite Hl2, <- app_assoc. reflexivity.
    + cbn. now rewrite Hcount.
    + constructor; [split; assumption | exact Hshape].
Qed.

End TokenFacts.

(** A deterministic stand-in for the random generator, and two instances
    for different sites. *)
Definition sample_choice (n : nat) : nat := n * 7 + 3.

Definition buster_a : CacheBuster.instance := CacheBuster.mk_instance "a.example" [] [].
Definition buster_b : CacheBuster.instance := CacheBuster.mk_instance "b.example" [] [].

Lemma issued_tokens_unique_witness :
  NoDup ["dkryF"; "MTaho"; "vCJQX"]
  /\ (forall tok, In tok ["dkryF"; "MTaho"; "vCJQX"] ->
                  ~ In tok (CacheBuster._cache_busters (CacheBuster.mk_world 0 [])))
  /\ CacheBuster._cache_busters (CacheBuster.mk_world 15 ["dkryF"; "MTaho"; "vCJQX"])
     = CacheBuster._cache_busters (CacheBuster.mk_world 0 [])
       ++ ["dkryF"; "MTaho"; "vCJQX"]
  /\ List.length ["dkryF"; "MTaho"; "vCJQX"] = List.length [buster_a; buster_b; buster_a]
  /\ Forall (fun tok => String.length tok = 5
                        /\ Str.all_chars Str.is_alpha tok = true)
            ["dkryF"; "MTaho"; "vCJQX"].
Proof.
  apply (issued_tokens_unique sample_choice 4 [buster_a; buster_b; buster_a]
           ["dkryF"; "MTaho"; "vCJQX"]
           (CacheBuster.mk_world 0 [])
           (CacheBuster.mk_world 15 ["dkryF"; "MTaho"; "vCJQX"])).
  vm_compute. reflexivity.
Defined.

(* ===================================================================== *)
(** * The cache buster: the headers named by Vary *)
(* ===================================================================== *)

(** The request carries a header of that name, whatever its letter case. *)
Definition has_header (headers : dict string) (name : string) : bool :=
  existsb (fun k => String.eqb (Str.lower k) (Str.lower name)) (dict_keys headers).

Section VaryFacts.

Import CacheBuster.

Variable choice : nat -> nat.
Variable fuel : nat.

Lemma lower_char_idempotent (c : ascii) :
  Str.lower_char (Str.lower_char c) = Str.lower_char c.
Proof.
  destruct c as [[] [] [] [] [] [] [] []]; reflexivity.
Qed.

Lemma lower_idempotent (s : string) : Str.lower (Str.lower s) = Str.lower s.
Proof.
  induction s as [ | c s IH]; [reflexivity | ].
  cbn. now rewrite lower_char_idempotent, IH.
Qed.

Lemma dict_set_keys {V} (d : dict V) (k x : string) (v : V) :
  In x (dict_keys (dict_set d k v)) -> In x (dict_keys d) \/ x = k.
Proof.
  induction d as [ | [k' v'] d IH]; cbn.
  - intros [<- | []]. now right.
  - destruct (String.eqb k' k); cbn; [tauto | ].
    intros [<- | H]; [now left; left | ]. destruct (IH H); tauto.
Qed.

Lemma has_header_set (headers : dict string) (k v name : string) :
  has_header headers name = false ->
  Str.lower k <> Str.lower name ->
  has_header (dict_set headers k v) name = false.
Proof.
  unfold has_header. intros Hold Hk.
  destruct (existsb _ (dict_keys (dict_set headers k v))) eqn:E; [ | reflexivity].
  apply existsb_exists in E as [x [Hin Hx]]. apply String.eqb_eq in Hx.
  apply dict_set_keys in Hin as [Hin | ->]; [ | contradiction].
  assert (existsb (fun k0 => String.eqb (Str.lower k0) (Str.lower name))
                  (dict_keys headers) = true) as E.
  { apply existsb_exists. exists x. split; [exact Hin | now apply String.eqb_eq]. }
  congruence.
Qed.

(** A loop keeps what each of its steps keeps. *)
Lemma fold_m_invariant {S X A} (I : A -> Prop) (body : A -> X -> M S A) (l : list X) :
  (forall acc x w acc' w', In x l -> I acc -> body acc x w = (Ok acc', w') -> I acc') ->
  forall acc w acc' w', I acc -> fold_m body l acc w = (Ok acc', w') -> I acc'.
Proof.
  induction l as [ | x l IH]; intros Hbody acc w acc' w' Hacc H.
  - cbn in H. injection H as <- <-. exact Hacc.
  - cbn in H. unfold bind in H.
    destruct (body acc x w) as [[a1 | e | ] w1] eqn:E; try discriminate.
    apply (IH (fun acc0 x0 w0 acc1 w2 Hin => Hbody acc0 x0 w0 acc1 w2 (or_intror Hin))
              a1 w1 acc' w'); [ | exact H].
    apply (Hbody acc x w a1 w1); [now left | exact Hacc | exact E].
Qed.

Lemma bust_test_header_keeps (self : instance) (site name header : string)
    (headers headers' : dict string) (w w' : world) :
  Str.lower header <> Str.lower name ->
  has_header headers name = false ->
  bust_test_header choice fuel self site headers header w = (Ok headers', w') ->
  has_header headers' name = false.
Proof.
  intros Hne Hold. unfold bust_test_header, bind, ret.
  destruct (cache_bust_header choice fuel self site header _ w) as [[v | e | ] w1];
    try discriminate.
  intros H. injection H as <- <-. now apply has_header_set.
Qed.

Lemma bust_vary_header_keeps (self : instance) (site name header : string)
    (headers headers' : dict string) (w w' : world) :
  vary_skipped (Str.lower name) = true ->
  has_header headers name = false ->
  bust_vary_header choice fuel self site headers header w = (Ok headers', w') ->
  has_header headers' name = false.
Proof.
  intros Hskip Hold. unfold bust_vary_header.
  destruct (vary_skipped (Str.lower (Str.strip header))) eqn:E.
  - unfold ret. intros H. injection H as <- <-. exact Hold.
  - unfold bind, ret.
    destruct (cache_bust_header choice fuel self site _ _ w) as [[v | e | ] w1];
      try discriminate.
    intros H. injection H as <- <-. apply has_header_set; [exact Hold | ].
    rewrite lower_idempotent. intros Heq. rewrite Heq in E. congruence.
Qed.

(** C6, where the code departs from it: a name that occurs inside the name
    of one of the TEST_HEADERS without being one of them (as 'forwarded' and
    'host' occur in 'x-forwarded-host') is skipped by the Vary pass, so a
    request that did not carry that header does not carry it after
    [cache_bust_request] either, whatever the [Vary] value lists. *)
Theorem vary_name_inside_test_header_not_echoed
    (self : instance) (url vary name : string) (headers cookies : dict string)
    (path : bool) (w w' : world) (url' : string) (headers' cookies' : dict string) :
  vary_skipped (Str.lower name) = true ->
  forallb (fun h => negb (String.eqb (Str.lower h) (Str.lower name))) TEST_HEADERS = true ->
  has_header headers name = false ->
  cache_bust_request choice fuel self url headers cookies vary path w
  = (Ok (url', headers', cookies'), w') ->
  has_header headers' name = false.
Proof.
  intros Hskip Hnot Hold. unfold cache_bust_request.
  unfold bind at 1.
  destruct ((if path then cache_bust_path choice fuel self url else ret url) w)
    as [[u1 | e | ] w1]; try discriminate.
  unfold bind at 1.
  destruct (cache_bust_query choice fuel self u1 w1) as [[u2 | e | ] w2];
    try discriminate.
  unfold bind at 1.
  destruct (fold_m _ TEST_HEADERS headers w2) as [[h1 | e | ] w3] eqn:E1;
    try discriminate.
  unfold bind at 1.
  destruct (cache_bust_cookies choice fuel self cookies true w3) as [[c1 | e | ] w4];
    try discriminate.
  unfold bind at 1.
  destruct (fold_m _ (Str.split "," vary) h1 w4) as [[h2 | e | ] w5] eqn:E2;
    try discriminate.
  unfold ret. intros H. injection H as <- <- <- <-.
  assert (Htest : forall h, In h TEST_HEADERS -> Str.lower h <> Str.lower name).
  { intros h Hin. rewrite forallb_forall in Hnot.
    apply String.eqb_neq, negb_true_iff, Hnot, Hin. }
  assert (H1 : has_header h1 name = false).
  { apply (fold_m_invariant (fun h => has_header h name = false) _ TEST_HEADERS)
      with (acc := headers) (w := w2) (w' := w3) (2 := Hold) (3 := E1).
    intros acc x w0 acc' w0' Hin Hacc Hstep.
    apply (bust_test_header_keeps self _ name x acc acc' w0 w0' (Htest x Hin) Hacc Hstep). }
  apply (fold_m_invariant (fun h => has_header h name = false) _ (Str.split "," vary))
    with (acc := h1) (w := w4) (w' := w5) (2 := H1) (3 := E2).
  intros acc x w0 acc' w0' _ Hacc Hstep.
  apply (bust_vary_header_keeps self _ name x acc acc' w0 w0' Hskip Hacc Hstep).
Qed.

End VaryFacts.

Lemma vary_name_inside_test_header_not_echoed_witness :
  has_header
    [("User-Agent", "UA vCJQX"); ("Origin", "https://example.com/MTaho");
     ("X-Forwarded-Host", "elszG.example.com");
     ("X-Forwarded-For", "NUbip.example.com");
     ("X-Forwarded-Proto", "httpwDKRY"); ("X-Method-Override", "GETfmtAH");
     ("X-Forwarded-Scheme", "httpOVcjq"); ("accept-encoding", "gnuBI")]
    "Forwarded" = false.
Proof.
  apply (vary_name_inside_test_header_not_echoed sample_choice 4 buster_a
           "https://example.com/a?x=1" "Accept-Encoding, Forwarded" "Forwarded"
           [("User-Agent", "UA")] [("sid", "1")] false
           (CacheBuster.mk_world 0 [])
           (CacheBuster.mk_world 50
              ["dkryF"; "MTaho"; "vCJQX"; "elszG"; "NUbip"; "wDKRY"; "fmtAH";
               "OVcjq"; "xELSZ"; "gnuBI"])
           "https://example.com/a?x=1&dkryF=dkryF"
           _
           [("sid", "1,xELSZ"); ("xELSZ", "xELSZ")]).
  - reflexivity.
  - reflexivity.
  - reflexivity.
  - vm_compute. reflexivity.
Defined.
(* ===================================================================== *)
(** * The controller: following redirects *)
(* ===================================================================== *)

Section RedirectFacts.

Import ExperimentWcd.

Variable cache_headers_heuristics : dict string -> string.
Variable run_attack : nat -> attack.

Lemma turn_facts (st st' : loop_state) (o : outcome unit) :
  guard st = true ->
  iteration cache_headers_heuristics run_attack st = (o, st') ->
  attacks st' = S (attacks st)
  /\ redirects_followed st < 5
  /\ o <> Timeout
  /\ ((following_redirects st' = false
       /\ redirects_followed st' = redirects_followed st)
      \/ (following_redirects st' = true
          /\ redirects_followed st' = S (redirects_followed st))).
Proof.
  intros Hguard Hturn.
  pose proof (iteration_counts cache_headers_heuristics run_attack st) as [Ha [Ht Hc]].
  cbv zeta in Ha, Ht, Hc.
  rewrite Hturn in Ha, Ht, Hc. cbn in Ha, Ht, Hc.
  unfold guard in Hguard. apply andb_true_iff in Hguard as [_ Hlt].
  apply Nat.ltb_lt in Hlt. auto.
Qed.

(** From any state of the loop: the attacks still to come are at most the
    hops left, the hop counter ends at most at 5 (or where it was), and the
    loop ends. *)
Lemma follow_redirects_from (st : loop_state) :
  let final := follow_redirects cache_headers_heuristics run_attack st in
  attacks (snd final) <= attacks st + (5 - redirects_followed st)
  /\ redirects_followed (snd final) <= Nat.max 5 (redirects_followed st)
  /\ redirects_followed st <= redirects_followed (snd final)
  /\ fst final <> Timeout.
Proof.
  cbv zeta.
  funelim (follow_redirects cache_headers_heuristics run_attack st); cbn [fst snd];
    try match goal with
        | Hg : guard ?s = true, Ht : iteration _ _ ?s = _ |- _ =>
            pose proof (turn_facts _ _ _ Hg Ht) as [Ha [Hlt [Hno Hc]]]
        end.
  - repeat split; try lia. discriminate.
  - repeat split; try discriminate; destruct Hc as [[_ Hr] | [_ Hr]]; lia.
  - congruence.
  - destruct Hc as [[Hf _] | [_ Hr]]; [congruence | ].
    match goal with
    | IH : _ /\ _ /\ _ /\ _ |- _ => destruct IH as [IHa [IHr [IHm IHt]]]
    end.
    repeat split; try lia. exact IHt.
  - repeat split; try discriminate; destruct Hc as [[_ Hr] | [_ Hr]]; lia.
Qed.

(** With the guard false the loop is over. *)
Lemma follow_redirects_exit (st : loop_state) :
  guard st = false ->
  follow_redirects cache_headers_heuristics run_attack st = (Ok tt, st).
Proof.
  funelim (follow_redirects cache_headers_heuristics run_attack st);
    intros Hg; try reflexivity; congruence.
Qed.

(** C8: entered as the controller enters it, the redirect-following loop of
    a request pair ends, whatever the network answers (a redirect to the very
    URL requested included), after at most 5 attacks, hence at most 5 retries,
    and with a hop counter of at most 5: every turn that asks for another one
    has raised the counter by one, and the guard stops the loop once it is 5. *)
Theorem redirect_loop_bounded (u1 u2 : string) (sent : list Sample.t) (seen : bool) :
  let final :=
    follow_redirects cache_headers_heuristics run_attack (enter u1 u2 sent seen) in
  fst final <> Timeout
  /\ attacks (snd final) <= 5
  /\ redirects_followed (snd final) <= 5
  /\ (forall st,
        let st' := snd (iteration cache_headers_heuristics run_attack st) in
        following_redirects st' = true ->
        redirects_followed st' = S (redirects_followed st))
  /\ (forall st,
        5 <= redirects_followed st ->
        follow_redirects cache_headers_heuristics run_attack st = (Ok tt, st)).
Proof.
  cbv zeta.
  pose proof (follow_redirects_from (enter u1 u2 sent seen)) as [Ha [Hr [_ Ht]]].
  cbn [enter attacks redirects_followed] in Ha, Hr.
  split; [exact Ht | ]. split; [lia | ]. split; [lia | ]. split.
  - intros st Hf.
    pose proof (iteration_counts cache_headers_heuristics run_attack st)
      as [_ [_ [[Hf' _] | [_ Hr']]]];
      cbv zeta in *; congruence.
  - intros st Hge. apply follow_redirects_exit. unfold guard.
    apply andb_false_iff. right. apply Nat.ltb_ge. exact Hge.
Qed.

End RedirectFacts.

(** A server that answers every attack with a redirect of the first request
    to the URL that was just requested. *)
Definition no_cache_headers (h : dict string) : string := "-".

Definition self_redirect (n : nat) : ExperimentWcd.attack :=
  ExperimentWcd.Results
    [ExperimentWcd.mk_result 1
       [(":status", "302"); ("location", "https://t/a")]
       [(":status", "200")] "" ""].

Example self_redirect_stops_after_five_attacks :
  follow_redirects no_cache_headers self_redirect
    (ExperimentWcd.enter "https://t/a" "https://t/b" [] false)
  = (Ok tt, ExperimentWcd.mk_state "https://t/a" "https://t/b" true 5 5 [] false).
Proof.
  vm_compute. reflexivity.
Qed.

(* ===================================================================== *)
(** * The preliminary experiment: the filter of the fixed bucket *)
(* ===================================================================== *)

Section FixedFilterFacts.

Import Preliminary.

Variable py_eq : Sample.t -> Sample.t -> bool.

(** What [==] is known to satisfy here: [list.remove] takes an object for
    equal to itself, and two equal samples have the same first cache status. *)
Hypothesis py_eq_refl : forall x, py_eq x x = true.
Hypothesis py_eq_first :
  forall x y, py_eq x y = true ->
              Sample.cache_status (Sample.first x) = Sample.cache_status (Sample.first y).

Definition not_hit (request : Sample.t) : bool := negb (first_is_hit request).

(** Only log lines were added to the events. *)
Definition only_logged (before after : list event) : Prop :=
  exists logs, after = before ++ logs /\ Forall (fun e => exists m, e = Log m) logs.

Lemma only_logged_refl (evs : list event) : only_logged evs evs.
Proof. exists []. split; [now rewrite app_nil_r | constructor]. Qed.

Lemma only_logged_step (a b : list event) (m : string) :
  only_logged a b -> only_logged a (b ++ [Log m]).
Proof.
  intros [logs [-> Hall]]. exists (logs ++ [Log m]). split.
  - now rewrite app_assoc.
  - apply Forall_app. split; [exact Hall | ]. constructor; [now exists m | constructor].
Qed.

(** Removing a sample whose first response was a HIT from a list that
    starts with samples that were not: the sample itself goes. *)
Lemma list_remove_first_hit (pre rest : list Sample.t) (x : Sample.t) :
  Forall (fun y => not_hit y = true) pre ->
  first_is_hit x = true ->
  list_remove py_eq x (pre ++ x :: rest) = Ok (pre ++ rest).
Proof.
  intros Hpre Hx. induction Hpre as [ | y pre Hy _ IH]; cbn.
  - now rewrite py_eq_refl.
  - destruct (py_eq y x) eqn:E.
    + apply py_eq_first in E. unfold not_hit, first_is_hit in Hy, Hx.
      rewrite E, Hx in Hy. discriminate.
    + rewrite IH. reflexivity.
Qed.

(** The loop over the copy leaves, of the part still to visit, the samples
    whose first response was no HIT. *)
Lemma drop_loop (todo pre : list Sample.t) (st : state) :
  dict_get (sent_requests st) "fixed" = Some (pre ++ todo) ->
  Forall (fun y => not_hit y = true) pre ->
  exists st',
    fold_m (drop_if_hit py_eq) todo tt st = (Ok tt, st')
    /\ dict_get (sent_requests st') "fixed" = Some (pre ++ filter not_hit todo)
    /\ only_logged (events st) (events st').
Proof.
  revert pre st. induction todo as [ | x todo IH]; intros pre st Hget Hpre.
  - exists st. cbn. repeat split; [exact Hget | apply only_logged_refl].
  - cbn [fold_m filter]. unfold bind at 1, drop_if_hit at 1.
    destruct (first_is_hit x) eqn:Hx.
    + assert (Hn : not_hit x = false) by (unfold not_hit; now rewrite Hx).
      rewrite Hn.
      unfold bind at 1, get. rewrite Hget.
      unfold bind at 1, lift. rewrite (list_remove_first_hit pre todo x Hpre Hx).
      unfold bind at 1, modify.
      destruct (IH pre (emit (Log "Removed request from the fixed case")
                          (set_fixed (pre ++ todo) st))) as [st' [Hrun [Hfix Hlog]]].
      * cbn. apply dict_get_set_same.
      * exact Hpre.
      * exists st'. split; [exact Hrun | split; [exact Hfix | ]].
        destruct Hlog as [logs [Hev Hall]]. cbn in Hev.
        exists (Log "Removed request from the fixed case" :: logs). split.
        -- rewrite Hev, <- app_assoc. reflexivity.
        -- constructor; [eexists; reflexivity | exact Hall].
    + assert (Hn : not_hit x = true) by (unfold not_hit; now rewrite Hx).
      rewrite Hn.
      destruct (IH (pre ++ [x]) st) as [st' [Hrun [Hfix Hlog]]].
      * now rewrite <- app_assoc.
      * apply Forall_app. split; [exact Hpre | ].
        constructor; [exact Hn | constructor].
      * exists st'. unfold ret. split; [exact Hrun | split; [ | exact Hlog]].
        rewrite Hfix, <- app_assoc. reflexivity.
Qed.

(** C9: after the filter, the fixed bucket holds, in order, the samples
    whose first response was no HIT; with fewer than 5 of them the controller
    moves to the next URL having done nothing but log: no output file, no
    'tested' mark, no analysis. *)
Theorem fixed_bucket_filtered (analyse : bool) (sent : dict (list Sample.t))
    (fixed : list Sample.t) (evs : list event) :
  dict_get sent "fixed" = Some fixed ->
  let kept := filter not_hit fixed in
  exists st',
    after_fixed_round py_eq analyse (mk_state sent evs)
    = (Ok (if (List.length kept <? 5)%nat then Continue tt else Break tt), st')
    /\ dict_get (sent_requests st') "fixed" = Some kept
    /\ Forall (fun r => Sample.cache_status (Sample.first r) <> "HIT") kept
    /\ (List.length kept < 5 -> only_logged evs (events st'))
    /\ (5 <= List.length kept -> In (WriteOutput (sent_requests st')) (events st')).
Proof.
  intros Hget. cbv zeta.
  destruct (drop_loop fixed [] (mk_state sent evs) Hget (Forall_nil _))
    as [st1 [Hrun [Hfix Hlog]]].
  cbn [app] in Hfix. cbn [events] in Hlog.
  assert (Hkept : Forall (fun r => Sample.cache_status (Sample.first r) <> "HIT")
                         (filter not_hit fixed)).
  { apply Forall_forall. intros r Hr. apply filter_In in Hr as [_ Hr].
    unfold not_hit, first_is_hit in Hr. apply negb_true_iff in Hr.
    now apply String.eqb_neq. }
  unfold after_fixed_round. unfold bind at 1, get. cbn [sent_requests].
  rewrite Hget. unfold bind at 1. rewrite Hrun.
  unfold bind at 1. rewrite Hfix.
  destruct (List.length (filter not_hit fixed) <? 5)%nat eqn:Hlen.
  - eexists. split; [reflexivity | ]. cbn.
    split; [exact Hfix | split; [exact Hkept | split]].
    + intros _. now apply only_logged_step.
    + intros Hge. apply Nat.ltb_lt in Hlen. lia.
  - eexists. split; [reflexivity | ]. cbn.
    split; [exact Hfix | split; [exact Hkept | split]].
    + intros Hlt. apply Nat.ltb_ge in Hlen. lia.
    + intros _. apply in_or_app. left. apply in_or_app. left.
      apply in_or_app. right. now left.
Qed.

End FixedFilterFacts.

(** An equality on samples for concrete runs: field by field. *)
Definition response_eqb (a b : Sample.response) : bool :=
  String.eqb (Sample.url a) (Sample.url b)
  && String.eqb (Sample.status_code a) (Sample.status_code b)
  && String.eqb (Sample.cache_status a) (Sample.cache_status b).

Definition sample_eqb (a b : Sample.t) : bool :=
  PrimFloat.Leibniz.eqb (Sample.time_diff a) (Sample.time_diff b)
  && response_eqb (Sample.first a) (Sample.first b)
  && response_eqb (Sample.second a) (Sample.second b).

Lemma sample_eqb_refl (x : Sample.t) : sample_eqb x x = true.
Proof.
  unfold sample_eqb, response_eqb. rewrite !String.eqb_refl.
  rewrite (proj2 (FloatAxioms.Leibniz.eqb_spec _ _) eq_refl). reflexivity.
Qed.

Lemma sample_eqb_first (x y : Sample.t) :
  sample_eqb x y = true ->
  Sample.cache_status (Sample.first x) = Sample.cache_status (Sample.first y).
Proof.
  unfold sample_eqb, response_eqb. rewrite !andb_true_iff.
  intros [[_ [[_ _] H]] _]. now apply String.eqb_eq.
Qed.

(** A fixed round of three pairs, two of which hit the cache with their
    first request as well. *)
Definition fixed_pair (x : float) (status1 : string) : Sample.t :=
  Sample.mk x (plain_response status1) (plain_response "HIT").

Definition three_fixed : list Sample.t :=
  [fixed_pair (-3) "HIT"; fixed_pair (-5) "MISS"; fixed_pair (-4) "HIT"].

Lemma fixed_bucket_filtered_witness :
  exists st',
    Preliminary.after_fixed_round sample_eqb true
      (Preliminary.mk_state [("randomized", []); ("fixed", three_fixed)] [])
    = (Ok (if (List.length (filter not_hit three_fixed) <? 5)%nat
           then Continue tt else Break tt), st')
    /\ dict_get (Preliminary.sent_requests st') "fixed" = Some (filter not_hit three_fixed)
    /\ Forall (fun r => Sample.cache_status (Sample.first r) <> "HIT")
              (filter not_hit three_fixed)
    /\ (List.length (filter not_hit three_fixed) < 5 ->
        only_logged [] (Preliminary.events st'))
    /\ (5 <= List.length (filter not_hit three_fixed) ->
        In (Preliminary.WriteOutput (Preliminary.sent_requests st'))
           (Preliminary.events st')).
Proof.
  apply (fixed_bucket_filtered sample_eqb sample_eqb_refl sample_eqb_first true
           [("randomized", []); ("fixed", three_fixed)] three_fixed []).
  reflexivity.
Defined.

(* ===================================================================== *)
(** * H2Request: the port *)
(* ===================================================================== *)

Section PortFacts.

Import H2Request.

(** The port [set_url] derives, case by case. *)
Lemma derive_port_cases (parsed : Url.parsed) :
  (Url.scheme parsed = "https" ->
   forall explicit, Url.port parsed = Ok explicit ->
     derive_port parsed
     = Ok match explicit with
          | Some n => if (n =? 0)%Z then 443%Z else n
          | None => 443%Z
          end)
  /\ (Url.scheme parsed <> "https" -> derive_port parsed = Ok 80%Z).
Proof.
  unfold derive_port. split.
  - intros Hs explicit Hp. rewrite Hs, String.eqb_refl, Hp. reflexivity.
  - intros Hs. apply String.eqb_neq in Hs. now rewrite Hs.
Qed.

(** For an https URL the claim of C7 holds, but for an explicit port 0. *)
Lemma set_url_https_port (self : t) (url : string) (explicit : option Z) :
  Url.scheme (Url.urlparse url) = "https" ->
  Url.port (Url.urlparse url) = Ok explicit ->
  exists r, set_url self url = Ok r
            /\ port r = match explicit with
                        | Some n => if (n =? 0)%Z then 443%Z else n
                        | None => 443%Z
                        end.
Proof.
  intros Hs Hp. unfold set_url.
  rewrite (proj1 (derive_port_cases _) Hs explicit Hp). cbn.
  eexists. split; reflexivity.
Qed.

(** C7, where the code departs from it: for a URL whose scheme is not
    https the port is 80, whatever port the authority names (the conditional
    expression reads [parsed.port] in its https branch only). *)
Theorem set_url_other_scheme_port_80 (self : t) (url : string) :
  Url.scheme (Url.urlparse url) <> "https" ->
  exists r, set_url self url = Ok r /\ port r = 80%Z.
Proof.
  intros Hs. unfold set_url.
  rewrite (proj2 (derive_port_cases _) Hs). cbn.
  eexists. split; reflexivity.
Qed.

End PortFacts.

Lemma set_url_other_scheme_port_80_witness :
  exists r,
    H2Request.set_url (H2Request.mk "GET" "" "" "" 0 "" "" [] "")
      "http://example.com:8080/x?y"
    = Ok r
    /\ H2Request.port r = 80%Z.
Proof.
  apply (set_url_other_scheme_port_80 (H2Request.mk "GET" "" "" "" 0 "" "" [] "")
           "http://example.com:8080/x?y").
  vm_compute. discriminate.
Defined.

(** The URL http://example.com:8080/x?y names the port 8080, and the request
    built for it has port 80. *)
Example explicit_http_port_lost :
  Url.port (Url.urlparse "http://example.com:8080/x?y") = Ok (Some 8080%Z)
  /\ H2Request.init "GET" "http://example.com:8080/x?y" [] ""
     = Ok (H2Request.mk "GET" "http://example.com:8080/x?y" "http"
             "example.com:8080" 80 "/x" "y" [] "").
Proof.
  split; vm_compute; reflexivity.
Qed.

(* ===================================================================== *)
(** * The cache buster: what one call issues *)
(* ===================================================================== *)

Section BusterFacts.

Import CacheBuster.

Variable choice : nat -> nat.
Variable fuel : nat.

Lemma prefix_self_app (t s : string) : String.prefix t (t ++ s)%string = true.
Proof.
  induction t as [ | c t IH]; cbn.
  - now destruct s.
  - destruct (ascii_dec c c) as [_ | Hne]; [exact IH | congruence].
Qed.

Lemma contains_self_app (t s : string) : Str.contains t (t ++ s)%string = true.
Proof.
  destruct (t ++ s)%string eqn:E; cbn [Str.contains]; rewrite <- E;
    now rewrite prefix_self_app.
Qed.

Lemma contains_app_left (t a s : string) :
  Str.contains t s = true -> Str.contains t (a ++ s)%string = true.
Proof.
  intros H. induction a as [ | c a IH]; [exact H | ].
  cbn [String.append Str.contains]. rewrite IH. apply orb_true_r.
Qed.

Lemma contains_cons (t s : string) (c : ascii) :
  Str.contains t s = true -> Str.contains t (String c s) = true.
Proof. intros H. cbn [Str.contains]. rewrite H. apply orb_true_r. Qed.

Lemma contains_at_end (t a : string) : Str.contains t (a ++ t)%string = true.
Proof.
  apply contains_app_left. rewrite <- (contains_self_app t "") at 1.
  f_equal. induction t as [ | c t IH]; [reflexivity | cbn; now rewrite <- IH].
Qed.

(** Code that, when it returns, has appended exactly [n] tokens to the ledger:
    pairwise distinct, absent from the ledger it started with, five letters
    each. *)
Definition issues {A} (n : nat) (m : M world A) : Prop :=
  forall w out w',
    m w = (Ok out, w') ->
    exists toks,
      _cache_busters w' = _cache_busters w ++ toks
      /\ List.length toks = n
      /\ NoDup toks
      /\ (forall t, In t toks -> ~ In t (_cache_busters w))
      /\ Forall (fun t => String.length t = 5
                          /\ Str.all_chars Str.is_alpha t = true) toks.

Lemma issues_ret {A} (a : A) : issues 0 (ret a).
Proof.
  intros w out w' H. injection H as <- <-. exists [].
  rewrite app_nil_r. repeat split; try constructor. intros t [].
Qed.

Lemma issues_bind {A B} (n k : nat) (m : M world A) (f : A -> M world B) :
  issues n m -> (forall a, issues k (f a)) -> issues (n + k) (bind m f).
Proof.
  intros Hm Hf w out w' H. unfold bind in H.
  destruct (m w) as [[a | e | ] w1] eqn:E; try discriminate.
  destruct (Hm w a w1 E) as [t1 [L1 [N1 [D1 [F1 S1]]]]].
  destruct (Hf a w1 out w' H) as [t2 [L2 [N2 [D2 [F2 S2]]]]].
  exists (t1 ++ t2).
  split; [rewrite L2, L1; symmetry; apply app_assoc | ].
  split; [rewrite length_app, N1, N2; reflexivity | ]. split; [ | split].
  - apply NoDup_app; [exact D1 | exact D2 | ].
    intros t Hin1 Hin2. apply (F2 t Hin2). rewrite L1. apply in_or_app. now right.
  - intros t Hin. apply in_app_or in Hin as [Hin | Hin]; [now apply F1 | ].
    intros Hold. apply (F2 t Hin). rewrite L1. apply in_or_app. now left.
  - apply Forall_app. now split.
Qed.

Lemma issues_get_unique (self : instance) :
  issues 1 (get_unique_cache_buster choice fuel self default_length).
Proof.
  intros w tok w' H.
  apply get_unique_cache_buster_spec in H as [Hl [Hnin [Hlen Hall]]].
  exists [tok]. repeat split; try assumption.
  - constructor; [intros [] | constructor].
  - intros t [<- | []]. exact Hnin.
  - constructor; [now split | constructor].
Qed.

(** One token followed by pure code. *)
Lemma issues_one_then {A} (self : instance) (f : string -> A) :
  issues 1 (tok <- get_unique_cache_buster choice fuel self default_length ;; ret (f tok)).
Proof.
  apply (issues_bind 1 0); [apply issues_get_unique | intros; apply issues_ret].
Qed.

Lemma append_empty_r (t : string) : (t ++ "")%string = t.
Proof. induction t as [ | c t IH]; [reflexivity | cbn; now rewrite IH]. Qed.

Lemma contains_self (t : string) : Str.contains t t = true.
Proof. rewrite <- (append_empty_r t) at 2. apply contains_self_app. Qed.

(** Every branch of [cache_bust_header] draws one token and returns a value
    that contains it. *)
Lemma cache_bust_header_spec (self : instance) (site header value v : string)
    (w w' : world) :
  cache_bust_header choice fuel self site header value w = (Ok v, w') ->
  exists tok,
    get_unique_cache_buster choice fuel self default_length w = (Ok tok, w')
    /\ Str.contains tok v = true.
Proof.
  unfold cache_bust_header.
  repeat match goal with
         | |- context [if ?c then _ else _] => destruct c
         end;
    unfold bind, ret;
    destruct (get_unique_cache_buster choice fuel self default_length w)
      as [[tok | e | ] w1]; try discriminate;
    intros H; injection H as <- <-; exists tok; (split; [reflexivity | ]);
    first [ apply contains_self
          | apply contains_self_app
          | repeat first [apply contains_app_left | apply contains_cons];
            apply contains_self ].
Qed.

Lemma issues_cache_bust_header (self : instance) (site header value : string) :
  issues 1 (cache_bust_header choice fuel self site header value).
Proof.
  intros w v w' H. apply cache_bust_header_spec in H as [tok [H _]].
  apply (issues_get_unique self w tok w' H).
Qed.

(** X1: whatever the header, [cache_bust_header] returns a value that
    contains a token of five letters which was not in the ledger and is
    recorded in it when the call returns; one token per call. *)
Theorem cache_bust_header_fresh_token (self : instance) (site header value v : string)
    (w w' : world) :
  cache_bust_header choice fuel self site header value w = (Ok v, w') ->
  exists tok,
    Str.contains tok v = true
    /\ String.length tok = 5
    /\ Str.all_chars Str.is_alpha tok = true
    /\ ~ In tok (_cache_busters w)
    /\ _cache_busters w' = _cache_busters w ++ [tok].
Proof.
  intros H. apply cache_bust_header_spec in H as [tok [H Hc]].
  apply get_unique_cache_buster_spec in H as [Hl [Hnin [Hlen Halpha]]].
  exists tok. auto.
Qed.

Lemma dict_get_set_other {V} (d : dict V) (k k' : string) (v : V) :
  k <> k' -> dict_get (dict_set d k v) k' = dict_get d k'.
Proof.
  intros Hne. induction d as [ | [k0 v0] d IH]; cbn.
  - apply String.eqb_neq in Hne. now rewrite Hne.
  - destruct (String.eqb k0 k) eqn:E; cbn.
    + apply String.eqb_eq in E. subst k0.
      apply String.eqb_neq in Hne. now rewrite Hne.
    + destruct (String.eqb k0 k'); [reflexivity | exact IH].
Qed.

Lemma dict_get_map_values {V W} (g : V -> W) (d : dict V) (k : string) :
  dict_get (map (fun '(c, v) => (c, g v)) d) k = option_map g (dict_get d k).
Proof.
  induction d as [ | [k0 v0] d IH]; [reflexivity | ].
  cbn. destruct (String.eqb k0 k); [reflexivity | exact IH].
Qed.

(** X2: [cache_bust_cookies] adds the cookie tok=tok for a token that was not
    in the ledger, and, when asked to bust all cookies, appends ",tok" to the
    value of every other cookie; it removes none and adds no other. *)
Theorem cache_bust_cookies_spec (self : instance) (cookies cookies' : dict string)
    (cache_bust_all : bool) (w w' : world) :
  cache_bust_cookies choice fuel self cookies cache_bust_all w = (Ok cookies', w') ->
  exists tok,
    ~ In tok (_cache_busters w)
    /\ _cache_busters w' = _cache_busters w ++ [tok]
    /\ dict_get cookies' tok = Some tok
    /\ forall name, name <> tok ->
         dict_get cookies' name
         = option_map (fun value => if cache_bust_all
                                    then (value ++ "," ++ tok)%string else value)
                      (dict_get cookies name).
Proof.
  unfold cache_bust_cookies, bind, ret. intros H.
  destruct (get_unique_cache_buster choice fuel self default_length w)
    as [[tok | e | ] w1] eqn:E; try discriminate.
  injection H as <- <-.
  apply get_unique_cache_buster_spec in E as [Hl [Hnin _]].
  exists tok. split; [exact Hnin | ]. split; [exact Hl | ].
  split; [apply dict_get_set_same | ].
  intros name Hne. rewrite dict_get_set_other by congruence.
  destruct cache_bust_all.
  - apply (dict_get_map_values (fun value => (value ++ "," ++ tok)%string)).
  - now destruct (dict_get cookies name).
Qed.

Lemma issues_cache_bust_cookies (self : instance) (cookies : dict string) (b : bool) :
  issues 1 (cache_bust_cookies choice fuel self cookies b).
Proof.
  unfold cache_bust_cookies. apply (issues_bind 1 0); [apply issues_get_unique | ].
  intros tok. apply issues_ret.
Qed.

Lemma issues_cache_bust_query (self : instance) (url : string) :
  issues 1 (cache_bust_query choice fuel self url).
Proof.
  unfold cache_bust_query. apply (issues_bind 1 0); [apply issues_get_unique | ].
  intros tok. apply issues_ret.
Qed.

Lemma issues_cache_bust_path (self : instance) (url : string) :
  issues 1 (cache_bust_path choice fuel self url).
Proof.
  unfold cache_bust_path. apply (issues_bind 1 0); [apply issues_get_unique | ].
  intros tok. apply issues_ret.
Qed.

Lemma issues_fold_m {X A} (cost : X -> nat) (body : A -> X -> M world A) (l : list X) :
  (forall acc x, issues (cost x) (body acc x)) ->
  forall acc, issues (list_sum (map cost l)) (fold_m body l acc).
Proof.
  intros Hbody. induction l as [ | x l IH]; intros acc; cbn [fold_m map list_sum].
  - apply issues_ret.
  - apply issues_bind; [apply Hbody | apply IH].
Qed.

(** The Vary names that the Vary pass mutates. *)
Definition echoed (vary : string) : list string :=
  filter (fun name => negb (vary_skipped name))
         (map (fun header => Str.lower (Str.strip header)) (Str.split "," vary)).

Lemma vary_cost_sum (l : list string) :
  list_sum (map (fun header =>
                   if vary_skipped (Str.lower (Str.strip header)) then 0 else 1) l)
  = List.length (filter (fun name => negb (vary_skipped name))
                        (map (fun header => Str.lower (Str.strip header)) l)).
Proof.
  induction l as [ | x l IH]; [reflexivity | ].
  assert (Hcons : forall a m, list_sum (a :: m) = a + list_sum m) by reflexivity.
  cbn [map filter]. rewrite Hcons, IH.
  destruct (vary_skipped (Str.lower (Str.strip x))); reflexivity.
Qed.

Lemma issues_bust_test_header (self : instance) (site : string)
    (acc : dict string) (x : string) :
  issues 1 (bust_test_header choice fuel self site acc x).
Proof.
  unfold bust_test_header.
  apply (issues_bind 1 0); [apply issues_cache_bust_header | intros; apply issues_ret].
Qed.

Lemma issues_bust_vary_header (self : instance) (site : string)
    (acc : dict string) (x : string) :
  issues (if vary_skipped (Str.lower (Str.strip x)) then 0 else 1)
         (bust_vary_header choice fuel self site acc x).
Proof.
  unfold bust_vary_header.
  destruct (vary_skipped (Str.lower (Str.strip x))); [apply issues_ret | ].
  apply (issues_bind 1 0); [apply issues_cache_bust_header | intros; apply issues_ret].
Qed.

Lemma issues_cache_bust_request (self : instance) (url vary : string)
    (headers cookies : dict string) (path : bool) :
  issues (9 + (if path then 1 else 0) + List.length (echoed vary))
         (cache_bust_request choice fuel self url headers cookies vary path).
Proof.
  unfold cache_bust_request.
  replace (9 + (if path then 1 else 0) + List.length (echoed vary))
    with ((if path then 1 else 0)
          + (1 + (7 + (1 + (List.length (echoed vary) + 0))))) by lia.
  apply issues_bind.
  { destruct path; [apply issues_cache_bust_path | apply issues_ret]. }
  intros u1. apply issues_bind; [apply issues_cache_bust_query | ].
  intros u2. apply issues_bind.
  { apply (issues_fold_m (fun _ => 1) _ TEST_HEADERS).
    intros acc x. apply issues_bust_test_header. }
  intros h1. apply issues_bind; [apply issues_cache_bust_cookies | ].
  intros c1. apply issues_bind; [ | intros; apply issues_ret].
  unfold echoed. rewrite <- vary_cost_sum.
  apply issues_fold_m. intros acc x. apply issues_bust_vary_header.
Qed.

(** X3: a call of [cache_bust_request] that returns has issued one token for
    the query, one for each of the seven TEST_HEADERS, one for the cookies,
    one for the path when asked, and one for each Vary name it mutates: all
    pairwise distinct and new to the ledger. *)
Theorem cache_bust_request_tokens (self : instance) (url vary : string)
    (headers cookies : dict string) (path : bool) (w w' : world)
    (out : string * dict string * dict string) :
  cache_bust_request choice fuel self url headers cookies vary path w = (Ok out, w') ->
  exists toks,
    _cache_busters w' = _cache_busters w ++ toks
    /\ List.length toks = 9 + (if path then 1 else 0) + List.length (echoed vary)
    /\ NoDup toks
    /\ (forall t, In t toks -> ~ In t (_cache_busters w)).
Proof.
  intros H.
  destruct (issues_cache_bust_request self url vary headers cookies path w out w' H)
    as [toks [Hl [Hn [Hd [Hf _]]]]].
  exists toks. auto.
Qed.

(** With length 0 the generator can only offer the empty string, which the
    loop never accepts. *)
Lemma reroll_zero_length (n : nat) (w : world) :
  reroll choice n 0 "" w = (Timeout, w).
Proof.
  induction n as [ | n IH]; cbn [reroll]; rewrite String.eqb_refl, orb_true_r.
  - reflexivity.
  - unfold bind. cbn [generate_random_string ret]. exact IH.
Qed.

(** X4: [get_unique_cache_buster(0)] does not return: whatever the bound on
    the re-rolls, the loop is still running when it is reached, and nothing
    is recorded. *)
Theorem get_unique_cache_buster_zero_length (self : instance) (w : world) :
  get_unique_cache_buster choice fuel self 0 w = (Timeout, w).
Proof.
  unfold get_unique_cache_buster, bind. now rewrite reroll_zero_length.
Qed.

Lemma dict_mem_set_same {V} (d : dict V) (k : string) (v : V) :
  dict_mem (dict_set d k v) k = true.
Proof. unfold dict_mem. now rewrite dict_get_set_same. Qed.

Lemma dict_mem_set_keeps {V} (d : dict V) (k k' : string) (v : V) :
  dict_mem d k' = true -> dict_mem (dict_set d k v) k' = true.
Proof.
  destruct (String.eqb_spec k k') as [-> | Hne]; [intros _; apply dict_mem_set_same | ].
  unfold dict_mem. now rewrite dict_get_set_other.
Qed.

(** A loop whose steps only add keys: the keys each step is to add are all
    there at the end, with those the dictionary started with. *)
Lemma fold_m_members {S X} (adds : X -> string -> Prop)
    (body : dict string -> X -> M S (dict string)) (l : list X) :
  (forall acc x w acc' w', body acc x w = (Ok acc', w') ->
     (forall k, adds x k -> dict_mem acc' k = true)
     /\ (forall k, dict_mem acc k = true -> dict_mem acc' k = true)) ->
  forall acc w acc' w', fold_m body l acc w = (Ok acc', w') ->
    (forall x k, In x l -> adds x k -> dict_mem acc' k = true)
    /\ (forall k, dict_mem acc k = true -> dict_mem acc' k = true).
Proof.
  intros Hbody. induction l as [ | x l IH]; intros acc w acc' w' H.
  - cbn in H. injection H as <- <-. split; [intros x k [] | auto].
  - cbn in H. unfold bind in H.
    destruct (body acc x w) as [[a1 | e | ] w1] eqn:E; try discriminate.
    destruct (Hbody _ _ _ _ _ E) as [Hadd Hkeep].
    destruct (IH _ _ _ _ H) as [Hall Hkeep'].
    split; [ | auto].
    intros y k [<- | Hin] Hk; [apply Hkeep', Hadd, Hk | now apply (Hall y)].
Qed.

(** X5: the headers returned by [cache_bust_request] hold every one of the
    TEST_HEADERS, every Vary name the Vary pass mutates, and every header the
    request came with. *)
Theorem cache_bust_request_headers_present (self : instance) (url vary : string)
    (headers cookies : dict string) (path : bool) (w w' : world)
    (url' : string) (headers' cookies' : dict string) :
  cache_bust_request choice fuel self url headers cookies vary path w
  = (Ok (url', headers', cookies'), w') ->
  (forall header, In header TEST_HEADERS -> dict_mem headers' header = true)
  /\ (forall name, In name (echoed vary) -> dict_mem headers' name = true)
  /\ (forall header, dict_mem headers header = true -> dict_mem headers' header = true).
Proof.
  unfold cache_bust_request. unfold bind at 1.
  destruct ((if path then cache_bust_path choice fuel self url else ret url) w)
    as [[u1 | e | ] w1]; try discriminate.
  unfold bind at 1.
  destruct (cache_bust_query choice fuel self u1 w1) as [[u2 | e | ] w2];
    try discriminate.
  unfold bind at 1.
  destruct (fold_m _ TEST_HEADERS headers w2) as [[h1 | e | ] w3] eqn:E1;
    try discriminate.
  unfold bind at 1.
  destruct (cache_bust_cookies choice fuel self cookies true w3) as [[c1 | e | ] w4];
    try discriminate.
  unfold bind at 1.
  destruct (fold_m _ (Str.split "," vary) h1 w4) as [[h2 | e | ] w5] eqn:E2;
    try discriminate.
  unfold ret. intros H. injection H as <- <- <- <-.
  apply (fold_m_members (fun x k => k = x)) in E1 as [T1 K1].
  2:{ intros acc x w0 acc' w0' Hstep. unfold bust_test_header, bind, ret in Hstep.
      destruct (cache_bust_header choice fuel self _ x _ w0) as [[v | e | ] w6];
        try discriminate.
      injection Hstep as <- <-. split.
      - intros k ->. apply dict_mem_set_same.
      - intros k. apply dict_mem_set_keeps. }
  apply (fold_m_members
           (fun x k => k = Str.lower (Str.strip x) /\ vary_skipped k = false))
    in E2 as [T2 K2].
  2:{ intros acc x w0 acc' w0' Hstep. unfold bust_vary_header in Hstep.
      destruct (vary_skipped (Str.lower (Str.strip x))) eqn:Hs.
      - injection Hstep as <- <-. split; [ | auto].
        intros k [-> Hk]. congruence.
      - unfold bind, ret in Hstep.
        destruct (cache_bust_header choice fuel self _ _ _ w0) as [[v | e | ] w6];
          try discriminate.
        injection Hstep as <- <-. split.
        + intros k [-> _]. apply dict_mem_set_same.
        + intros k. apply dict_mem_set_keeps. }
  split; [ | split].
  - intros header Hin. apply K2, (T1 header header Hin eq_refl).
  - intros name Hin. unfold echoed in Hin.
    apply filter_In in Hin as [Hin Hs]. apply in_map_iff in Hin as [x [<- Hx]].
    apply negb_true_iff in Hs. now apply (T2 x).
  - intros header Hin. apply K2, K1, Hin.
Qed.

(** The ledger only grows. *)
Lemma issues_grows {A} (n : nat) (m : M world A) (w w' : world) (out : A) :
  issues n m -> m w = (Ok out, w') ->
  forall t, In t (_cache_busters w) -> In t (_cache_busters w').
Proof.
  intros Hm H t Hin. destruct (Hm w out w' H) as [toks [Hl _]].
  rewrite Hl. apply in_or_app. now left.
Qed.

Lemma lower_not_user_agent (s : string) : Str.lower s <> "User-Agent".
Proof.
  intros H. pose proof (lower_idempotent s) as Hi. rewrite H in Hi. discriminate.
Qed.

Lemma get_or_empty_set_other (headers : dict string) (k k' v : string) :
  k <> k' -> get_or_empty (dict_set headers k v) k' = get_or_empty headers k'.
Proof. intros Hne. unfold get_or_empty. now rewrite dict_get_set_other. Qed.

(** The pass over the TEST_HEADERS appends a new token to the User-Agent. *)
Lemma test_headers_user_agent (self : instance) (site : string)
    (headers h1 : dict string) (w w' : world) :
  fold_m (bust_test_header choice fuel self site) TEST_HEADERS headers w = (Ok h1, w') ->
  exists tok,
    dict_get h1 "User-Agent"
    = Some (get_or_empty headers "User-Agent" ++ " " ++ tok)%string
    /\ ~ In tok (_cache_busters w)
    /\ In tok (_cache_busters w').
Proof.
  unfold TEST_HEADERS. set (rest := "X-Forwarded-Host" :: _).
  cbn [fold_m]. unfold bind at 1.
  unfold bust_test_header at 1. unfold bind at 1.
  destruct (cache_bust_header choice fuel self site "Origin" _ w)
    as [[v0 | e | ] w0] eqn:E0; try discriminate.
  unfold ret at 1. unfold bind at 1.
  unfold bust_test_header at 1, cache_bust_header at 1.
  change (String.eqb (Str.lower "User-Agent") "user-agent") with true.
  cbv iota. unfold bind at 1 2.
  destruct (get_unique_cache_buster choice fuel self default_length w0)
    as [[tok | e | ] w1] eqn:E1; try discriminate.
  unfold ret at 1 2.
  rewrite get_or_empty_set_other by discriminate.
  intros H. exists tok.
  pose proof (issues_grows 1 _ _ _ _ (issues_cache_bust_header self site "Origin" _) E0)
    as G0.
  apply get_unique_cache_buster_spec in E1 as [L1 [N1 _]].
  assert (G : forall t, In t (_cache_busters w1) -> In t (_cache_busters w')).
  { apply (issues_grows _ _ _ _ _
             (issues_fold_m (fun _ => 1) _ _
                (fun acc x => issues_bust_test_header self site acc x) _) H). }
  split; [ | split].
  - apply (fold_m_invariant
             (fun h => dict_get h "User-Agent"
                       = Some (get_or_empty headers "User-Agent" ++ " " ++ tok)%string))
      with (3 := H).
    + intros acc x w2 acc' w2' Hin Hacc Hstep.
      unfold bust_test_header, bind, ret in Hstep.
      destruct (cache_bust_header choice fuel self site x _ w2) as [[v | e | ] w3];
        try discriminate.
      injection Hstep as <- <-. rewrite dict_get_set_other; [exact Hacc | ].
      subst rest. cbn in Hin. intuition (subst; discriminate).
    + apply dict_get_set_same.
  - intros Hin. apply N1, G0, Hin.
  - apply G. rewrite L1. apply in_or_app. right. now left.
Qed.

(** One call appends a token, new to the ledger, to the User-Agent it was
    given (the empty string when there was none). *)
Lemma cache_bust_request_user_agent (self : instance) (url vary : string)
    (headers cookies : dict string) (path : bool) (w w' : world)
    (url' : string) (headers' cookies' : dict string) :
  cache_bust_request choice fuel self url headers cookies vary path w
  = (Ok (url', headers', cookies'), w') ->
  exists tok,
    dict_get headers' "User-Agent"
    = Some (get_or_empty headers "User-Agent" ++ " " ++ tok)%string
    /\ ~ In tok (_cache_busters w)
    /\ In tok (_cache_busters w').
Proof.
  unfold cache_bust_request. unfold bind at 1.
  destruct ((if path then cache_bust_path choice fuel self url else ret url) w)
    as [[u1 | e | ] w1] eqn:E0; try discriminate.
  unfold bind at 1.
  destruct (cache_bust_query choice fuel self u1 w1) as [[u2 | e | ] w2] eqn:Eq;
    try discriminate.
  unfold bind at 1.
  destruct (fold_m _ TEST_HEADERS headers w2) as [[h1 | e | ] w3] eqn:E1;
    try discriminate.
  unfold bind at 1.
  destruct (cache_bust_cookies choice fuel self cookies true w3) as [[c1 | e | ] w4]
    eqn:Ec; try discriminate.
  unfold bind at 1.
  destruct (fold_m _ (Str.split "," vary) h1 w4) as [[h2 | e | ] w5] eqn:E2;
    try discriminate.
  unfold ret. intros H. injection H as <- <- <- <-.
  destruct (test_headers_user_agent _ _ _ _ _ _ E1) as [tok [Hua [Hnew Hin]]].
  exists tok. split; [ | split].
  - apply (fold_m_invariant
             (fun h => dict_get h "User-Agent"
                       = Some (get_or_empty headers "User-Agent" ++ " " ++ tok)%string))
      with (3 := E2); [ | exact Hua].
    intros acc x w6 acc' w6' _ Hacc Hstep. unfold bust_vary_header in Hstep.
    destruct (vary_skipped (Str.lower (Str.strip x))).
    + injection Hstep as <- <-. exact Hacc.
    + unfold bind, ret in Hstep.
      destruct (cache_bust_header choice fuel self _ _ _ w6) as [[v | e | ] w7];
        try discriminate.
      injection Hstep as <- <-.
      rewrite dict_get_set_other; [exact Hacc | apply lower_not_user_agent].
  - intros Hold. apply Hnew.
    apply (issues_grows _ _ _ _ _ (issues_cache_bust_query self u1) Eq).
    destruct path.
    + apply (issues_grows _ _ _ _ _ (issues_cache_bust_path self url) E0), Hold.
    + injection E0 as <- <-. exact Hold.
  - apply (issues_grows _ _ _ _ _
             (issues_fold_m
                (fun header => if vary_skipped (Str.lower (Str.strip header))
                               then 0 else 1) _ _
                (fun acc x => issues_bust_vary_header self _ acc x) _) E2).
    apply (issues_grows _ _ _ _ _ (issues_cache_bust_cookies self cookies true) Ec).
    exact Hin.
Qed.

(** X6: called again on the headers it returned (the controllers pass the one
    headers dictionary to every call), [cache_bust_request] makes the
    User-Agent grow by one more token: after two calls it is the original
    value followed by two distinct tokens. *)
Theorem cache_bust_request_twice_user_agent (self : instance)
    (url1 url2 vary1 vary2 : string) (headers cookies1 cookies2 : dict string)
    (path1 path2 : bool) (w w1 w2 : world)
    (u1 u2 : string) (h1 h2 c1 c2 : dict string) :
  cache_bust_request choice fuel self url1 headers cookies1 vary1 path1 w
  = (Ok (u1, h1, c1), w1) ->
  cache_bust_request choice fuel self url2 h1 cookies2 vary2 path2 w1
  = (Ok (u2, h2, c2), w2) ->
  exists tok1 tok2,
    tok1 <> tok2
    /\ dict_get h2 "User-Agent"
       = Some ((get_or_empty headers "User-Agent" ++ " " ++ tok1) ++ " " ++ tok2)%string.
Proof.
  intros H1 H2.
  apply cache_bust_request_user_agent in H1 as [tok1 [Hua1 [_ Hin1]]].
  apply cache_bust_request_user_agent in H2 as [tok2 [Hua2 [Hnew2 _]]].
  exists tok1, tok2. split; [congruence | ].
  rewrite Hua2. unfold get_or_empty at 1. now rewrite Hua1.
Qed.

End BusterFacts.

Definition busted_world : CacheBuster.world :=
  CacheBuster.mk_world 50
    ["dkryF"; "MTaho"; "vCJQX"; "elszG"; "NUbip"; "wDKRY"; "fmtAH"; "OVcjq";
     "xELSZ"; "gnuBI"].

Definition busted_headers : dict string :=
  [("User-Agent", "UA vCJQX"); ("Origin", "https://example.com/MTaho");
   ("X-Forwarded-Host", "elszG.example.com");
   ("X-Forwarded-For", "NUbip.example.com");
   ("X-Forwarded-Proto", "httpwDKRY"); ("X-Method-Override", "GETfmtAH");
   ("X-Forwarded-Scheme", "httpOVcjq"); ("accept-encoding", "gnuBI")].

Definition busted_again_world : CacheBuster.world :=
  CacheBuster.mk_world 95
    ["dkryF"; "MTaho"; "vCJQX"; "elszG"; "NUbip"; "wDKRY"; "fmtAH"; "OVcjq";
     "xELSZ"; "gnuBI"; "PWdkr"; "yFMTa"; "hovCJ"; "QXels"; "zGNUb"; "ipwDK";
     "RYfmt"; "AHOVc"; "jqxEL"].

Definition busted_again_headers : dict string :=
  [("User-Agent", "UA vCJQX hovCJ"); ("Origin", "https://example.com/yFMTa");
   ("X-Forwarded-Host", "QXels.example.com");
   ("X-Forwarded-For", "zGNUb.example.com");
   ("X-Forwarded-Proto", "httpipwDK"); ("X-Method-Override", "GETRYfmt");
   ("X-Forwarded-Scheme", "httpAHOVc"); ("accept-encoding", "gnuBI")].

Lemma cache_bust_header_fresh_token_witness :
  exists tok,
    Str.contains tok "gzip, dkryF" = true
    /\ String.length tok = 5
    /\ Str.all_chars Str.is_alpha tok = true
    /\ ~ In tok (CacheBuster._cache_busters (CacheBuster.mk_world 0 []))
    /\ CacheBuster._cache_busters (CacheBuster.mk_world 5 ["dkryF"])
       = CacheBuster._cache_busters (CacheBuster.mk_world 0 []) ++ [tok].
Proof.
  apply (cache_bust_header_fresh_token sample_choice 4 buster_a
           "example.com" "Accept-Encoding" "gzip" "gzip, dkryF"
           (CacheBuster.mk_world 0 []) (CacheBuster.mk_world 5 ["dkryF"])).
  vm_compute. reflexivity.
Defined.

Lemma cache_bust_cookies_spec_witness :
  exists tok,
    ~ In tok (CacheBuster._cache_busters (CacheBuster.mk_world 0 []))
    /\ CacheBuster._cache_busters (CacheBuster.mk_world 5 ["dkryF"])
       = CacheBuster._cache_busters (CacheBuster.mk_world 0 []) ++ [tok]
    /\ dict_get [("sid", "1,dkryF"); ("dkryF", "dkryF")] tok = Some tok
    /\ forall name, name <> tok ->
         dict_get [("sid", "1,dkryF"); ("dkryF", "dkryF")] name
         = option_map (fun value => if true
                                    then (value ++ "," ++ tok)%string else value)
                      (dict_get [("sid", "1")] name).
Proof.
  apply (cache_bust_cookies_spec sample_choice 4 buster_a
           [("sid", "1")] [("sid", "1,dkryF"); ("dkryF", "dkryF")] true
           (CacheBuster.mk_world 0 []) (CacheBuster.mk_world 5 ["dkryF"])).
  vm_compute. reflexivity.
Defined.

Lemma cache_bust_request_tokens_witness :
  exists toks,
    CacheBuster._cache_busters busted_world
    = CacheBuster._cache_busters (CacheBuster.mk_world 0 []) ++ toks
    /\ List.length toks
       = 9 + (if false then 1 else 0) + List.length (echoed "Accept-Encoding, Forwarded")
    /\ NoDup toks
    /\ (forall t, In t toks -> ~ In t (CacheBuster._cache_busters (CacheBuster.mk_world 0 []))).
Proof.
  apply (cache_bust_request_tokens sample_choice 4 buster_a
           "https://example.com/a?x=1" "Accept-Encoding, Forwarded"
           [("User-Agent", "UA")] [("sid", "1")] false
           (CacheBuster.mk_world 0 []) busted_world
           ("https://example.com/a?x=1&dkryF=dkryF", busted_headers,
            [("sid", "1,xELSZ"); ("xELSZ", "xELSZ")])).
  vm_compute. reflexivity.
Defined.

Lemma cache_bust_request_headers_present_witness :
  (forall header, In header CacheBuster.TEST_HEADERS ->
                  dict_mem busted_headers header = true)
  /\ (forall name, In name (echoed "Accept-Encoding, Forwarded") ->
                   dict_mem busted_headers name = true)
  /\ (forall header, dict_mem [("User-Agent", "UA")] header = true ->
                     dict_mem busted_headers header = true).
Proof.
  apply (cache_bust_request_headers_present sample_choice 4 buster_a
           "https://example.com/a?x=1" "Accept-Encoding, Forwarded"
           [("User-Agent", "UA")] [("sid", "1")] false
           (CacheBuster.mk_world 0 []) busted_world
           "https://example.com/a?x=1&dkryF=dkryF" busted_headers
           [("sid", "1,xELSZ"); ("xELSZ", "xELSZ")]).
  vm_compute. reflexivity.
Defined.

Lemma cache_bust_request_twice_user_agent_witness :
  exists tok1 tok2,
    tok1 <> tok2
    /\ dict_get busted_again_headers "User-Agent"
       = Some ((CacheBuster.get_or_empty [("User-Agent", "UA")] "User-Agent"
                ++ " " ++ tok1) ++ " " ++ tok2)%string.
Proof.
  apply (cache_bust_request_twice_user_agent sample_choice 4 buster_a
           "https://example.com/a?x=1" "https://example.com/a?x=1"
           "Accept-Encoding, Forwarded" ""
           [("User-Agent", "UA")] [("sid", "1")] [("sid", "1")] false false
           (CacheBuster.mk_world 0 []) busted_world busted_again_world
           "https://example.com/a?x=1&dkryF=dkryF"
           "https://example.com/a?x=1&PWdkr=PWdkr"
           busted_headers busted_again_headers
           [("sid", "1,xELSZ"); ("xELSZ", "xELSZ")]
           [("sid", "1,jqxEL"); ("jqxEL", "jqxEL")]).
  - vm_compute. reflexivity.
  - vm_compute. reflexivity.
Defined.

(* ===================================================================== *)
(** * The headers of an HTTP/2 request *)
(* ===================================================================== *)

Section HeaderFacts.

Import H2Headers.

Lemma dict_get_absent {V} (d : dict V) (k : string) :
  ~ In k (dict_keys d) -> dict_get d k = None.
Proof.
  induction d as [ | [k' v'] d IH]; cbn; [reflexivity | ].
  intros H. destruct (String.eqb_spec k' k) as [-> | Hne]; [tauto | ].
  apply IH. tauto.
Qed.

Lemma dict_keys_set {V} (d : dict V) (k : string) (v : V) :
  exists tail, dict_keys (dict_set d k v) = dict_keys d ++ tail.
Proof.
  unfold dict_keys.
  induction d as [ | [k' v'] d [tail IH]]; cbn.
  - now exists [k].
  - destruct (String.eqb k' k); cbn.
    + exists []. now rewrite app_nil_r.
    + exists tail. now rewrite IH.
Qed.

(** [for k, v in items: d[k] = v] *)
Definition update (d items : dict string) : dict string :=
  fold_left (fun headers '(k, v) => dict_set headers k v) items d.

Lemma update_keys (items d : dict string) :
  exists tail, dict_keys (update d items) = dict_keys d ++ tail.
Proof.
  unfold update. revert d.
  induction items as [ | [k v] items IH]; intros d; cbn [fold_left].
  - exists []. now rewrite app_nil_r.
  - destruct (IH (dict_set d k v)) as [t1 H1].
    destruct (dict_keys_set d k v) as [t2 H2].
    exists (t2 ++ t1). now rewrite H1, H2, app_assoc.
Qed.

Lemma update_get (items d : dict string) (k : string) :
  NoDup (dict_keys items) ->
  dict_get (update d items) k
  = match dict_get items k with Some v => Some v | None => dict_get d k end.
Proof.
  unfold update. revert d.
  induction items as [ | [k0 v0] items IH]; intros d Hnd; cbn [fold_left].
  - reflexivity.
  - cbn in Hnd. inversion Hnd as [ | ? ? Hnin Hnd']; subst.
    rewrite (IH _ Hnd'). cbn [dict_get].
    destruct (String.eqb_spec k0 k) as [-> | Hne].
    + rewrite (dict_get_absent items k Hnin). apply dict_get_set_same.
    + destruct (dict_get items k); [reflexivity | ].
      now apply dict_get_set_other.
Qed.

(** X7: whatever the request's own headers, the four pseudo-headers are
    the first four names of the header block that is sent, in the order
    :method, :authority, :scheme, :path. *)
Theorem get_request_headers_pseudo_first (self : H2Request.t) :
  firstn 4 (dict_keys (get_request_headers self))
  = [":method"; ":authority"; ":scheme"; ":path"].
Proof.
  unfold get_request_headers.
  destruct (update_keys (H2Request.headers self) (pseudo_headers self)) as [tail H].
  unfold update in H. rewrite H. reflexivity.
Qed.

(** X8: every header of the request is sent with its own value, also one
    that is named like a pseudo-header, whose value it replaces; a name the
    request does not set has the pseudo-header's value, if it is one. *)
Theorem get_request_headers_lookup (self : H2Request.t) (k : string) :
  NoDup (dict_keys (H2Request.headers self)) ->
  dict_get (get_request_headers self) k
  = match dict_get (H2Request.headers self) k with
    | Some v => Some v
    | None => dict_get (pseudo_headers self) k
    end.
Proof.
  intros H. exact (update_get _ _ k H).
Qed.

Lemma update_get_absent (items d : dict string) (k : string) :
  dict_get items k = None -> dict_get (update d items) k = dict_get d k.
Proof.
  unfold update. revert d.
  induction items as [ | [k0 v0] items IH]; intros d; cbn [fold_left dict_get].
  - reflexivity.
  - destruct (String.eqb_spec k0 k) as [-> | Hne]; [discriminate | ].
    intros H. rewrite (IH _ H). now apply dict_get_set_other.
Qed.

Lemma nonempty_not_empty (s : string) : Url.nonempty s = true -> s <> "".
Proof. now destruct s. Qed.

(** X9: unless the request's own headers set one, the :path that is sent is
    never empty: it is the path, then '?' and the query when there is one, and
    '/' when both are empty. *)
Theorem get_request_headers_path (self : H2Request.t) :
  dict_get (H2Request.headers self) ":path" = None ->
  exists p,
    dict_get (get_request_headers self) ":path" = Some p
    /\ p <> ""
    /\ (H2Request.path self = "" -> H2Request.query self = "" -> p = "/").
Proof.
  intros Habs. unfold get_request_headers.
  change (fold_left _ _ _)
    with (update (pseudo_headers self) (H2Request.headers self)).
  rewrite (update_get_absent _ _ _ Habs).
  unfold pseudo_headers. cbn [dict_get String.eqb Ascii.eqb Bool.eqb].
  eexists. split; [reflexivity | ]. split.
  - destruct (Url.nonempty _) eqn:E; [now apply nonempty_not_empty | discriminate].
  - intros -> ->. reflexivity.
Qed.

Lemma dict_del_absent {V} (d : dict V) (k : string) :
  dict_get d k = None -> dict_del d k = Raise (KeyError k).
Proof.
  induction d as [ | [k' v'] d IH]; cbn [dict_get dict_del]; [reflexivity | ].
  destruct (String.eqb k' k); [discriminate | ].
  intros H. now rewrite (IH H).
Qed.

Lemma dict_del_returns {V} (d : dict V) (k : string) (v : V) :
  dict_get d k = Some v -> exists d', dict_del d k = Ok d'.
Proof.
  induction d as [ | [k' v'] d IH]; cbn [dict_get dict_del]; [discriminate | ].
  destruct (String.eqb k' k); [now exists d | ].
  intros H. destruct (IH H) as [d' ->]. now eexists.
Qed.

Lemma dict_del_set {V} (d : dict V) (k : string) (v : V) :
  dict_get d k = None -> dict_del (dict_set d k v) k = Ok d.
Proof.
  induction d as [ | [k' v'] d IH]; cbn [dict_get dict_set dict_del].
  - now rewrite String.eqb_refl.
  - destruct (String.eqb k' k) eqn:E; [discriminate | ].
    intros H. cbn [dict_del]. now rewrite E, (IH H).
Qed.

(** X10: [remove_header] raises KeyError, with the name as its argument,
    exactly when the request has no header of that name; otherwise it
    returns. *)
Theorem remove_header_key_error (self : H2Request.t) (key : string) :
  (dict_get (H2Request.headers self) key = None
   <-> remove_header self key = Raise (KeyError key))
  /\ (dict_get (H2Request.headers self) key <> None
      <-> exists self', remove_header self key = Ok self').
Proof.
  unfold remove_header.
  destruct (dict_get (H2Request.headers self) key) as [v | ] eqn:E.
  - destruct (dict_del_returns _ _ _ E) as [d' Hd]. rewrite Hd. cbn.
    split; split; try discriminate; try congruence.
    intros _. now eexists.
  - rewrite (dict_del_absent _ _ E). cbn.
    split; split; try congruence; try reflexivity.
    intros [self' H]. discriminate.
Qed.

(** X11: setting a header the request did not have and removing it again
    gives the request back, headers in their order included. *)
Theorem set_header_remove_header (self : H2Request.t) (key value : string) :
  dict_get (H2Request.headers self) key = None ->
  remove_header (set_header self key value) key = Ok self.
Proof.
  intros H. unfold remove_header, set_header. destruct self as [m u s h p pa q hs d].
  cbn in *. now rewrite (dict_del_set _ _ _ H).
Qed.

Lemma set_headers_headers (items : dict string) (self : H2Request.t) :
  H2Request.headers (set_headers self items) = update (H2Request.headers self) items.
Proof.
  unfold set_headers, update. revert self.
  induction items as [ | [k v] items IH]; intros self; cbn [fold_left].
  - reflexivity.
  - now rewrite IH.
Qed.

(** X12: after [set_headers], a name of the given dictionary has the given
    value, whether the request had it or not, and every other header of the
    request is as it was. *)
Theorem set_headers_lookup (self : H2Request.t) (headers : dict string) (k : string) :
  NoDup (dict_keys headers) ->
  dict_get (H2Request.headers (set_headers self headers)) k
  = match dict_get headers k with
    | Some v => Some v
    | None => dict_get (H2Request.headers self) k
    end.
Proof.
  intros H. rewrite set_headers_headers. now apply update_get.
Qed.

End HeaderFacts.

Definition bare_request : H2Request.t :=
  H2Request.mk "GET" "https://example.com" "https" "example.com" 443 "" ""
    [("user-agent", "UA")] "".

Definition pathless_override : H2Request.t :=
  H2Request.mk "GET" "https://example.com/a?x=1" "https" "example.com" 443 "/a" "x=1"
    [("user-agent", "UA"); (":path", "/b")] "".

Lemma get_request_headers_lookup_witness :
  dict_get (H2Headers.get_request_headers pathless_override) ":path"
  = match dict_get (H2Request.headers pathless_override) ":path" with
    | Some v => Some v
    | None => dict_get (H2Headers.pseudo_headers pathless_override) ":path"
    end.
Proof.
  apply (get_request_headers_lookup pathless_override ":path").
  repeat constructor; cbn; intuition discriminate.
Defined.

Lemma get_request_headers_path_witness :
  exists p,
    dict_get (H2Headers.get_request_headers bare_request) ":path" = Some p
    /\ p <> ""
    /\ (H2Request.path bare_request = "" -> H2Request.query bare_request = "" -> p = "/").
Proof.
  apply (get_request_headers_path bare_request). reflexivity.
Defined.

Lemma set_header_remove_header_witness :
  H2Headers.remove_header (H2Headers.set_header bare_request "accept" "*/*") "accept"
  = Ok bare_request.
Proof.
  apply (set_header_remove_header bare_request "accept" "*/*"). reflexivity.
Defined.

Lemma set_headers_lookup_witness :
  dict_get (H2Request.headers
              (H2Headers.set_headers bare_request
                 [("user-agent", "curl"); ("accept", "*/*")])) "user-agent"
  = match dict_get [("user-agent", "curl"); ("accept", "*/*")] "user-agent" with
    | Some v => Some v
    | None => dict_get (H2Request.headers bare_request) "user-agent"
    end.
Proof.
  apply (set_headers_lookup bare_request
           [("user-agent", "curl"); ("accept", "*/*")] "user-agent").
  repeat constructor; cbn; intuition discriminate.
Defined.
(*END*)

(* ===================================================================== *)
(** * The response headers of a request pair *)
(* ===================================================================== *)

Section MergeFacts.

Import H2Time.

Definition str_keys (headers : kdict) : Prop :=
  forall k v, In (k, v) headers -> exists s, k = StrKey s.

Lemma kget_bytes_absent (headers : kdict) (b : string) :
  str_keys headers -> kget headers (BytesKey b) = None.
Proof.
  induction headers as [ | [k v] headers IH]; intros H; cbn [kget]; [reflexivity | ].
  destruct (H k v (or_introl eq_refl)) as [s ->]. cbn [key_eqb].
  apply IH. intros k' v' Hin. apply (H k' v'). now right.
Qed.

Lemma kset_str_keys (headers : kdict) (s v : string) :
  str_keys headers -> str_keys (kset headers (StrKey s) v).
Proof.
  induction headers as [ | [k0 v0] headers IH]; intros H k v' Hin; cbn [kset] in Hin.
  - destruct Hin as [E | []]. inversion E. now eexists.
  - assert (Hrest : str_keys headers)
      by (intros k' w Hk; apply (H k' w); now right).
    destruct (key_eqb k0 (StrKey s)).
    + destruct Hin as [E | Hin]; [inversion E; subst | ].
      * apply (H k v0). now left.
      * apply (H k v'). now right.
    + destruct Hin as [E | Hin]; [inversion E; subst | ].
      * apply (H k v'). now left.
      * exact (IH Hrest k v' Hin).
Qed.

Lemma key_eqb_spec (a b : key) : reflect (a = b) (key_eqb a b).
Proof.
  destruct a as [a | a], b as [b | b]; cbn; try (constructor; discriminate);
    destruct (String.eqb_spec a b); constructor; congruence.
Qed.

Lemma kget_kset (headers : kdict) (k k' : key) (v : string) :
  kget (kset headers k v) k'
  = if key_eqb k k' then Some v else kget headers k'.
Proof.
  induction headers as [ | [k0 v0] headers IH]; cbn [kset kget].
  - reflexivity.
  - destruct (key_eqb_spec k0 k) as [-> | Hne]; cbn [kget].
    + destruct (key_eqb k k'); reflexivity.
    + rewrite IH. destruct (key_eqb_spec k0 k') as [-> | Hne']; [ | reflexivity].
      destruct (key_eqb_spec k k'); [congruence | reflexivity].
Qed.

Lemma dict_get_app {V} (a b : dict V) (k : string) :
  dict_get (a ++ b) k
  = match dict_get a k with Some v => Some v | None => dict_get b k end.
Proof.
  induction a as [ | [k0 v0] a IH]; cbn [app dict_get]; [reflexivity | ].
  destruct (String.eqb k0 k); [reflexivity | exact IH].
Qed.

(** The lookup of a [bytes] name never succeeds, so every step of the loop
    takes the [else] branch. *)
Lemma merge_headers_from (event_headers : list (string * string)) (headers : kdict) :
  str_keys headers ->
  exists headers',
    merge_headers event_headers headers = Ok headers'
    /\ str_keys headers'
    /\ forall k,
         kget headers' (StrKey (decode k))
         = match dict_get (rev event_headers) k with
           | Some v => Some (decode v)
           | None => kget headers (StrKey (decode k))
           end.
Proof.
  revert headers.
  induction event_headers as [ | [k0 v0] rest IH]; intros headers Hstr.
  - exists headers. cbn. auto.
  - cbn [merge_headers merge_step]. unfold kmem.
    rewrite (kget_bytes_absent headers k0 Hstr). cbn [obind].
    destruct (IH _ (kset_str_keys headers (decode k0) (decode v0) Hstr))
      as [headers' [Hm [Hs Hg]]].
    exists headers'. split; [exact Hm | ]. split; [exact Hs | ].
    intros k. rewrite Hg. cbn [rev]. rewrite dict_get_app.
    destruct (dict_get (rev rest) k); [reflexivity | ].
    rewrite kget_kset. cbn [dict_get key_eqb]. unfold decode.
    destruct (String.eqb k0 k); reflexivity.
Qed.

(** X13: the loop that is to merge response headers of the same name never
    joins two values and, on text that decodes, never raises: the names
    arrive as [bytes] and are looked up in a dictionary keyed by [str], so
    each name ends with the value of its last occurrence alone. *)
Theorem merge_headers_last_value (event_headers : list (string * string)) :
  exists headers,
    merge_headers event_headers [] = Ok headers
    /\ forall k,
         kget headers (StrKey (decode k))
         = option_map decode (dict_get (rev event_headers) k).
Proof.
  destruct (merge_headers_from event_headers []) as [headers [Hm [_ Hg]]].
  - intros k v [].
  - exists headers. split; [exact Hm | ].
    intros k. rewrite Hg. now destruct (dict_get (rev event_headers) k).
Qed.

End MergeFacts.

Example repeated_header_keeps_last :
  H2Time.merge_headers [("set-cookie", "a=1"); ("set-cookie", "b=2")] []
  = Ok [(H2Time.StrKey "set-cookie", "b=2")].
Proof. reflexivity. Qed.

(* ===================================================================== *)
(** * The pairs of one attack *)
(* ===================================================================== *)

Section AttackFacts.

Import H2Time.

Variable connect_error : nat -> option exn.
Variable send_request_pair : nat -> pair_outcome.

Definition no_location (r : ExperimentWcd.result) : Prop :=
  dict_mem (ExperimentWcd.response_headers1 r) "location" = false.

(** What a run of the loop leaves behind, [new] being the results it
    appended. *)
Definition attack_post (n : nat) (c : connection)
    (out : outcome (list ExperimentWcd.result) * connection)
    (acc : list ExperimentWcd.result) : Prop :=
  pairs_sent c <= pairs_sent (snd out) <= pairs_sent c + n
  /\ connects c <= connects (snd out) <= connects c + n
  /\ match fst out with
     | Ok results =>
         exists new,
           results = acc ++ new
           /\ List.length new <= pairs_sent (snd out) - pairs_sent c
           /\ Forall no_location (removelast new)
           /\ Forall (fun r => exists k, pairs_sent c <= k < pairs_sent (snd out)
                                         /\ send_request_pair k = PairTuple r) new
     | Raise e =>
         connection_open (snd out) = false
         /\ connect_error (connects (snd out)) = Some e
     | Timeout => False
     end.

(** One turn of the loop, by cases. *)
Lemma run_pairs_step (n : nat) (acc : list ExperimentWcd.result) (c : connection) :
  run_pairs connect_error send_request_pair (S n) acc c
  = match (if connection_open c then None else connect_error (connects c)) with
    | Some e => (Raise e, c)
    | None =>
        let c1 := if connection_open c then c else opened c in
        let c2 := pair_counted c1 in
        match send_request_pair (pairs_sent c1) with
        | PairTuple r =>
            if dict_mem (ExperimentWcd.response_headers1 r) "location"
            then (Ok (acc ++ [r]), c2)
            else run_pairs connect_error send_request_pair n (acc ++ [r]) c2
        | PairNone | PairRaises _ =>
            run_pairs connect_error send_request_pair n acc (closed c2)
        end
    end.
Proof.
  cbn [run_pairs]. unfold connect. unfold bind, get, modify, ret, raise.
  destruct (connection_open c) eqn:Eo; cbn [fst snd].
  - destruct (send_request_pair (pairs_sent c)) as [r | | e]; try reflexivity.
    destruct (dict_mem _ _); reflexivity.
  - destruct (connect_error (connects c)) as [e | ]; cbn [fst snd]; [reflexivity | ].
    destruct (send_request_pair (pairs_sent (opened c))) as [r | | e]; try reflexivity.
    destruct (dict_mem _ _); reflexivity.
Qed.

Lemma Forall_removelast_cons {A} (P : A -> Prop) (x : A) (l : list A) :
  P x -> Forall P (removelast l) -> Forall P (removelast (x :: l)).
Proof.
  intros Hx Hl. destruct l as [ | y l]; [constructor | ].
  change (removelast (x :: y :: l)) with (x :: removelast (y :: l)).
  now constructor.
Qed.

(** The rest of the loop, run after one more pair was sent on [c']. *)
Lemma attack_post_later (n : nat) (c c' : connection)
    (out : outcome (list ExperimentWcd.result) * connection)
    (acc : list ExperimentWcd.result) :
  pairs_sent c' = S (pairs_sent c) ->
  connects c <= connects c' <= connects c + 1 ->
  attack_post n c' out acc ->
  attack_post (S n) c out acc.
Proof.
  intros Hp Hc [Hps [Hcs Hout]]. unfold attack_post.
  split; [lia | ]. split; [lia | ].
  destruct (fst out) as [results | e | ]; [ | exact Hout | exact Hout].
  destruct Hout as [new [Hr [Hlen [Hloc Hfrom]]]].
  exists new. split; [exact Hr | ]. split; [lia | ]. split; [exact Hloc | ].
  eapply Forall_impl; [ | exact Hfrom].
  intros r [k [Hk Hs]]. exists k. split; [lia | exact Hs].
Qed.

Lemma attack_post_cons (n : nat) (c : connection)
    (out : outcome (list ExperimentWcd.result) * connection)
    (acc : list ExperimentWcd.result) (r : ExperimentWcd.result) (k : nat) :
  no_location r ->
  pairs_sent c <= k < pairs_sent (snd out) ->
  send_request_pair k = PairTuple r ->
  S (pairs_sent c) <= pairs_sent (snd out) ->
  (match fst out with
   | Ok results =>
       exists new, results = (acc ++ [r]) ++ new
                   /\ List.length new <= pairs_sent (snd out) - S (pairs_sent c)
                   /\ Forall no_location (removelast new)
                   /\ Forall (fun r => exists k, pairs_sent c <= k < pairs_sent (snd out)
                                                 /\ send_request_pair k = PairTuple r) new
   | Raise e => connection_open (snd out) = false
                /\ connect_error (connects (snd out)) = Some e
   | Timeout => False
   end) ->
  match fst out with
  | Ok results =>
      exists new, results = acc ++ new
                  /\ List.length new <= pairs_sent (snd out) - pairs_sent c
                  /\ Forall no_location (removelast new)
                  /\ Forall (fun r => exists k, pairs_sent c <= k < pairs_sent (snd out)
                                                /\ send_request_pair k = PairTuple r) new
  | Raise e => connection_open (snd out) = false
               /\ connect_error (connects (snd out)) = Some e
  | Timeout => False
  end.
Proof.
  intros Hr Hk Hs Hle Hout.
  destruct (fst out) as [results | e | ]; [ | exact Hout | exact Hout].
  destruct Hout as [new [Hres [Hlen [Hloc Hfrom]]]].
  exists (r :: new). split; [now rewrite Hres, <- app_assoc | ].
  split; [cbn [List.length]; lia | ].
  split; [now apply Forall_removelast_cons | ].
  constructor; [now exists k | exact Hfrom].
Qed.

(** After the connection is there: [c1] is [c], or [c] reconnected. *)
Lemma run_pairs_turn (n : nat) (acc : list ExperimentWcd.result) (c c1 : connection) :
  (forall acc c, attack_post n c (run_pairs connect_error send_request_pair n acc c) acc) ->
  pairs_sent c1 = pairs_sent c ->
  connects c <= connects c1 <= connects c + 1 ->
  attack_post (S n) c
    match send_request_pair (pairs_sent c1) with
    | PairTuple r =>
        if dict_mem (ExperimentWcd.response_headers1 r) "location"
        then (Ok (acc ++ [r]), pair_counted c1)
        else run_pairs connect_error send_request_pair n (acc ++ [r]) (pair_counted c1)
    | _ => run_pairs connect_error send_request_pair n acc (closed (pair_counted c1))
    end acc.
Proof.
  intros IH Hp Hc.
  destruct (send_request_pair (pairs_sent c1)) as [r | | e] eqn:Es.
  - destruct (dict_mem (ExperimentWcd.response_headers1 r) "location") eqn:El.
    + unfold attack_post. cbn [fst snd pair_counted pairs_sent connects].
      split; [lia | ]. split; [lia | ].
      exists [r]. split; [reflexivity | ]. split; [cbn [List.length]; lia | ].
      split; [constructor | ].
      constructor; [ | constructor]. exists (pairs_sent c1). split; [lia | exact Es].
    + specialize (IH (acc ++ [r]) (pair_counted c1)).
      destruct IH as [Hps [Hcs Hout]]. cbn [pair_counted pairs_sent connects] in *.
      unfold attack_post. split; [lia | ]. split; [lia | ].
      apply (attack_post_cons n c _ acc r (pairs_sent c1)); try assumption; try lia.
      destruct (fst (run_pairs connect_error send_request_pair n (acc ++ [r])
                       (pair_counted c1))) as [results | e | ];
        [ | exact Hout | exact Hout].
      destruct Hout as [new [Hres [Hlen [Hloc Hfrom]]]].
      exists new. split; [exact Hres | ]. split; [lia | ]. split; [exact Hloc | ].
      eapply Forall_impl; [ | exact Hfrom].
      intros r' [k [Hk Hs]]. exists k. split; [lia | exact Hs].
  - apply (attack_post_later n c (closed (pair_counted c1))); cbn; try lia. apply IH.
  - apply (attack_post_later n c (closed (pair_counted c1))); cbn; try lia. apply IH.
Qed.

Lemma run_pairs_post (n : nat) :
  forall acc c,
    attack_post n c (run_pairs connect_error send_request_pair n acc c) acc.
Proof.
  induction n as [ | n IH]; intros acc c.
  - unfold attack_post, run_pairs, ret. cbn [fst snd].
    split; [lia | ]. split; [lia | ].
    exists []. split; [now rewrite app_nil_r | ].
    split; [cbn; lia | ]. split; constructor.
  - rewrite run_pairs_step.
    destruct (connection_open c) eqn:Eo.
    + cbv zeta. apply run_pairs_turn; [exact IH | reflexivity | lia].
    + destruct (connect_error (connects c)) as [e | ] eqn:Ec.
      * unfold attack_post. cbn [fst snd]. split; [lia | ]. split; [lia | ]. auto.
      * cbv zeta. apply run_pairs_turn; [exact IH | reflexivity | cbn; lia].
Qed.

(** X14: [run_attack] ends in one of two ways. It raises what a failed
    [connect] raised, and nothing else: a pair that fails only closes the
    connection ([close] itself taken to return). Or it returns at most one result per pair sent, each the
    tuple some pair of this run gave, and of these only the last can have a
    [location] among the headers of its first response. It sends at most
    [num_request_pairs] pairs and connects at most once per pair. *)
Theorem run_attack_results (num_request_pairs : nat) (c : connection) :
  let out := run_attack connect_error send_request_pair num_request_pairs c in
  pairs_sent (snd out) <= pairs_sent c + num_request_pairs
  /\ connects (snd out) <= connects c + num_request_pairs
  /\ match fst out with
     | Ok results =>
         List.length results <= num_request_pairs
         /\ List.length results <= pairs_sent (snd out) - pairs_sent c
         /\ Forall no_location (removelast results)
         /\ Forall (fun r => exists k, pairs_sent c <= k < pairs_sent (snd out)
                                       /\ send_request_pair k = PairTuple r) results
     | Raise e =>
         connection_open (snd out) = false
         /\ connect_error (connects (snd out)) = Some e
     | Timeout => False
     end.
Proof.
  cbv zeta. unfold run_attack.
  destruct (run_pairs_post num_request_pairs [] c) as [Hps [Hcs Hout]].
  split; [lia | ]. split; [lia | ].
  destruct (fst (run_pairs connect_error send_request_pair num_request_pairs [] c))
    as [results | e | ]; [ | exact Hout | exact Hout].
  destruct Hout as [new [Hres [Hlen [Hloc Hfrom]]]]. cbn [app] in Hres. subst new.
  split; [lia | auto].
Qed.

End AttackFacts.

(* ===================================================================== *)
(** * Caching the fixed variant *)
(* ===================================================================== *)

Section PrimingFacts.

Import Priming.

Variable cache_headers_heuristics : dict string -> string.
Variable browser_get : nat -> outcome (dict string).

Let is_hit := is_hit cache_headers_heuristics.
Let prime_loop := prime_loop cache_headers_heuristics browser_get.

(** The requests before the [n]-th all returned, none with a HIT. *)
Definition misses_before (n : nat) : Prop :=
  forall j, j < n -> exists r, browser_get j = Ok r /\ is_hit r = false.

(** What the loop has come to when it ends after [gets] requests. *)
Definition primed (out : outcome (dict string) * nat) : Prop :=
  let gets := snd out in
  1 <= gets <= 6
  /\ misses_before (gets - 1)
  /\ match fst out with
     | Ok last => browser_get (gets - 1) = Ok last
                  /\ (is_hit last = true \/ gets = 6)
     | Raise e => browser_get (gets - 1) = Raise e
     | Timeout => browser_get (gets - 1) = Timeout
     end.

Lemma prime_loop_primed (response : dict string) (requests_sent gets : nat) :
  gets = S requests_sent ->
  requests_sent <= 5 ->
  misses_before requests_sent ->
  browser_get requests_sent = Ok response ->
  primed (prime_loop response requests_sent gets).
Proof.
  unfold prime_loop.
  funelim (Priming.prime_loop cache_headers_heuristics browser_get
             response requests_sent gets).
  all: intros Hg Hle Hm Hr; subst gets.
  - unfold primed. cbn [fst snd]. replace (S requests_sent - 1) with requests_sent by lia.
    split; [lia | ]. split; [exact Hm | ]. split; [exact Hr | ].
    destruct (proj1 (andb_false_iff _ _) e) as [e1 | e1].
    + left. now apply negb_false_iff in e1.
    + right. apply Nat.ltb_ge in e1. lia.
  - destruct (proj1 (andb_true_iff _ _) Hguard) as [Hmiss Hlt].
    apply negb_true_iff in Hmiss. apply Nat.ltb_lt in Hlt.
    apply H; [reflexivity | lia | | exact Heq].
    intros j Hj. destruct (Nat.eq_dec j requests_sent) as [-> | Hne].
    + now exists response.
    + apply Hm. lia.
  - destruct (proj1 (andb_true_iff _ _) Hguard) as [Hmiss Hlt].
    apply negb_true_iff in Hmiss. apply Nat.ltb_lt in Hlt.
    unfold primed. cbn [fst snd].
    replace (S (S requests_sent) - 1) with (S requests_sent) by lia.
    split; [lia | ]. split; [ | exact Heq].
    intros j Hj. destruct (Nat.eq_dec j requests_sent) as [-> | Hne].
    + now exists response.
    + apply Hm. lia.
  - destruct (proj1 (andb_true_iff _ _) Hguard) as [Hmiss Hlt].
    apply negb_true_iff in Hmiss. apply Nat.ltb_lt in Hlt.
    unfold primed. cbn [fst snd].
    replace (S (S requests_sent) - 1) with (S requests_sent) by lia.
    split; [lia | ]. split; [ | exact Heq].
    intros j Hj. destruct (Nat.eq_dec j requests_sent) as [-> | Hne].
    + now exists response.
    + apply Hm. lia.
Qed.

(** X15: the fixed variant is requested at most six times before the
    attack, and the requests stop at the first response that the heuristics
    call a HIT. The URL is kept exactly when that HIT came; it is abandoned
    after six responses without one; an exception of a request ends the
    requests at once and is passed on. *)
Theorem prime_outcome :
  let out := prime cache_headers_heuristics browser_get in
  let gets := snd out in
  1 <= gets <= 6
  /\ misses_before (gets - 1)
  /\ match fst out with
     | Ok true => exists last, browser_get (gets - 1) = Ok last /\ is_hit last = true
     | Ok false => gets = 6
                   /\ exists last, browser_get 5 = Ok last /\ is_hit last = false
     | Raise e => browser_get (gets - 1) = Raise e
     | Timeout => browser_get (gets - 1) = Timeout
     end.
Proof.
  cbv zeta. unfold prime.
  destruct (browser_get 0) as [response | e | ] eqn:E0.
  - assert (Hp := prime_loop_primed response 0 1 eq_refl (Nat.le_0_l 5)).
    unfold prime_loop in Hp.
    destruct (Priming.prime_loop cache_headers_heuristics browser_get response 0 1)
      as [[last | e | ] gets] eqn:El.
    + destruct Hp as [Hb [Hm [Hl Hh]]]; [intros j Hj; lia | exact E0 | ].
      cbn [fst snd] in *. split; [exact Hb | ]. split; [exact Hm | ].
      fold (is_hit last). destruct (is_hit last) eqn:Eh.
      * now exists last.
      * destruct Hh as [Hh | Hh]; [discriminate | ]. subst gets.
        split; [reflexivity | ]. now exists last.
    + destruct Hp as [Hb [Hm Hl]]; [intros j Hj; lia | exact E0 | ].
      cbn [fst snd] in *. auto.
    + destruct Hp as [Hb [Hm Hl]]; [intros j Hj; lia | exact E0 | ].
      cbn [fst snd] in *. auto.
  - cbn [fst snd]. split; [lia | ]. split; [intros j Hj; lia | exact E0].
  - cbn [fst snd]. split; [lia | ]. split; [intros j Hj; lia | exact E0].
Qed.

End PrimingFacts.

(* ===================================================================== *)
(** * The controller: what the loop records *)
(* ===================================================================== *)

Section RecordFacts.

Import ExperimentWcd.

Variable cache_headers_heuristics : dict string -> string.
Variable run_attack : nat -> attack.

(** A sample neither of whose responses is a redirect. *)
Definition plain (x : Sample.t) : Prop :=
  is_redirect (Sample.status_code (Sample.first x)) = false
  /\ is_redirect (Sample.status_code (Sample.second x)) = false.

(** The bucket grew, by samples that are no redirects. *)
Definition grew (st st' : loop_state) : Prop :=
  exists new, randomized st' = randomized st ++ new /\ Forall plain new.

(** Code that only appends such samples to the bucket, however it ends. *)
Definition appends {A} (m : M loop_state A) : Prop :=
  forall st, grew st (snd (m st)).

Lemma grew_refl (st : loop_state) : grew st st.
Proof. exists []. split; [now rewrite app_nil_r | constructor]. Qed.

Lemma grew_same (st st' : loop_state) : randomized st' = randomized st -> grew st st'.
Proof. intros H. exists []. split; [now rewrite app_nil_r | constructor]. Qed.

Lemma grew_trans (a b c : loop_state) : grew a b -> grew b c -> grew a c.
Proof.
  intros [n1 [H1 F1]] [n2 [H2 F2]]. exists (n1 ++ n2). split.
  - now rewrite H2, H1, app_assoc.
  - apply Forall_app. now split.
Qed.

Lemma appends_ret {A} (a : A) : appends (ret a).
Proof. intros st. apply grew_refl. Qed.

Lemma appends_lift {A} (o : outcome A) : appends (lift o).
Proof. intros st. unfold lift. destruct o; apply grew_refl. Qed.

Lemma appends_get : appends get.
Proof. intros st. apply grew_refl. Qed.

Lemma appends_raise {A} (e : exn) : appends (@raise loop_state A e).
Proof. intros st. apply grew_refl. Qed.

Lemma appends_modify (f : loop_state -> loop_state) :
  (forall st, randomized (f st) = randomized st) -> appends (modify f).
Proof. intros H st. apply grew_same. apply H. Qed.

Lemma appends_bind {A B} (m : M loop_state A) (k : A -> M loop_state B) :
  appends m -> (forall a, appends (k a)) -> appends (bind m k).
Proof.
  intros Hm Hk st. unfold bind. specialize (Hm st).
  destruct (m st) as [[a | e | ] s1]; cbn [fst snd] in *; try exact Hm.
  eapply grew_trans; [exact Hm | apply Hk].
Qed.

Lemma appends_if {A} (b : bool) (m1 m2 : M loop_state A) :
  appends m1 -> appends m2 -> appends (if b then m1 else m2).
Proof. now destruct b. Qed.

(** The branch of a redirect records nothing. *)
Lemma redirect_branch_appends (r : result) (status1 : string) :
  let h1 := response_headers1 r in
  let h2 := response_headers2 r in
  appends
    (st <- get ;;
     location1 <- lift (item h1 "location") ;;
     (if String.eqb (url1 st) location1 then ret tt
      else location2 <- lift (item h2 "location") ;; ret tt) ;;;
     (if dict_mem h1 "location"
      then modify (fun st => set_url1 (resolve (url1 st) location1) st)
      else ret tt) ;;;
     (if dict_mem h2 "location"
      then location2 <- lift (item h2 "location") ;;
           modify (fun st => set_url2 (resolve (url2 st) location2) st)
      else ret tt) ;;;
     _ <- lift (item h1 "location") ;;
     modify count_redirect ;;;
     ret (Break tt : flow unit unit)).
Proof.
  cbv zeta.
  apply appends_bind; [apply appends_get | intros st0].
  apply appends_bind; [apply appends_lift | intros location1].
  apply appends_bind.
  { apply appends_if; [apply appends_ret | ].
    apply appends_bind; [apply appends_lift | intros; apply appends_ret]. }
  intros _. apply appends_bind.
  { apply appends_if; [ | apply appends_ret]. now apply appends_modify. }
  intros _. apply appends_bind.
  { apply appends_if; [ | apply appends_ret].
    apply appends_bind; [apply appends_lift | intros location2].
    now apply appends_modify. }
  intros _. apply appends_bind; [apply appends_lift | intros _].
  apply appends_bind; [now apply appends_modify | intros _; apply appends_ret].
Qed.

Lemma handle_result_appends (r : result) :
  appends (handle_result cache_headers_heuristics r tt).
Proof.
  unfold handle_result.
  apply appends_bind.
  { apply appends_if; [now apply appends_modify | apply appends_ret]. }
  intros _. apply appends_bind; [apply appends_lift | intros status1].
  destruct (is_redirect status1) eqn:E1.
  - intros st. unfold bind at 1. unfold ret at 1.
    apply (redirect_branch_appends r status1 st).
  - destruct (item (response_headers2 r) ":status") as [status2 | e | ] eqn:E2.
    + intros st. unfold bind at 1. unfold bind at 1. unfold lift at 1.
      unfold ret at 1.
      destruct (is_redirect status2) eqn:E3.
      * apply (redirect_branch_appends r status1 st).
      * unfold bind, get, lift, modify, ret. cbn [fst snd record_sample randomized].
        exists [Sample.mk (time_diff r)
                  (Sample.mk_response (url1 st) status1
                     (cache_headers_heuristics (response_headers1 r)) (response_headers1 r))
                  (Sample.mk_response (url2 st) status2
                     (cache_headers_heuristics (response_headers2 r)) (response_headers2 r))].
        split; [reflexivity | ]. constructor; [ | constructor].
        split; assumption.
    + intros st. unfold bind, lift. cbn [fst snd]. apply grew_refl.
    + intros st. unfold bind, lift. cbn [fst snd]. apply grew_refl.
Qed.

Lemma for_each_appends (results : list result) :
  appends (for_each results tt (handle_result cache_headers_heuristics)).
Proof.
  induction results as [ | r results IH]; cbn [for_each].
  - apply appends_ret.
  - apply appends_bind; [apply handle_result_appends | ].
    intros [[] | [] | []]; [exact IH | apply appends_ret | apply appends_ret].
Qed.

Lemma iteration_appends : appends (iteration cache_headers_heuristics run_attack).
Proof.
  unfold iteration.
  apply appends_bind; [apply appends_get | intros st0].
  apply appends_bind; [now apply appends_modify | intros _].
  destruct (run_attack (attacks st0)) as [e | e | results].
  - apply appends_raise.
  - apply appends_ret.
  - apply appends_bind; [apply for_each_appends | intros; apply appends_ret].
Qed.

(** X16: whatever the network answers, the redirect-following loop only
    appends to the bucket of samples, and no sample it appends has status
    301 or 302 in either response: a pair with a redirect is followed or
    dropped, never recorded. *)
Theorem follow_redirects_records_no_redirect (st : loop_state) :
  exists new,
    randomized (snd (follow_redirects cache_headers_heuristics run_attack st))
    = randomized st ++ new
    /\ Forall plain new.
Proof.
  change (grew st (snd (follow_redirects cache_headers_heuristics run_attack st))).
  funelim (follow_redirects cache_headers_heuristics run_attack st).
  all: try apply grew_refl.
  all: match goal with
       | E : iteration _ _ ?s = _ |- _ =>
           pose proof (iteration_appends s) as Hi; rewrite E in Hi
       end;
    cbn [snd] in *; try exact Hi.
  eapply grew_trans; [exact Hi | eassumption].
Qed.

(** What the handling of a redirect comes to when the first response has
    no [location]. *)
Lemma handle_result_without_location (r : result) (st : loop_state) (status1 : string) :
  dict_get (response_headers1 r) ":status" = Some status1 ->
  (is_redirect status1 = true
   \/ exists status2, dict_get (response_headers2 r) ":status" = Some status2
                      /\ is_redirect status2 = true) ->
  dict_get (response_headers1 r) "location" = None ->
  exists st',
    handle_result cache_headers_heuristics r tt st = (Raise (KeyError "location"), st')
    /\ randomized st' = randomized st
    /\ attacks st' = attacks st.
Proof.
  intros Hs1 Hred Hloc. unfold handle_result.
  unfold bind at 1.
  set (pre := (if _ : bool then modify set_cache_headers else ret tt) st).
  assert (Hpre : exists s0, pre = (Ok tt, s0) /\ randomized s0 = randomized st
                            /\ attacks s0 = attacks st).
  { subst pre. destruct (_ || _); eexists; (split; [reflexivity | split; reflexivity]). }
  destruct Hpre as [s0 [-> [Hr0 Ha0]]].
  unfold bind at 1. unfold lift at 1, item at 1. rewrite Hs1.
  exists s0. split; [ | split; assumption].
  destruct Hred as [E1 | [status2 [Hs2 E2]]].
  - rewrite E1. unfold bind at 1. unfold ret at 1.
    unfold bind, get, lift, item. now rewrite Hloc.
  - destruct (is_redirect status1).
    + unfold bind at 1. unfold ret at 1.
      unfold bind, get, lift, item. now rewrite Hloc.
    + unfold bind at 1. unfold bind at 1. unfold lift at 1, item at 1. rewrite Hs2.
      unfold ret at 1. rewrite E2.
      unfold bind, get, lift, item. now rewrite Hloc.
Qed.

Lemma follow_redirects_raise (st st' : loop_state) (e : exn) :
  guard st = true ->
  iteration cache_headers_heuristics run_attack st = (Raise e, st') ->
  follow_redirects cache_headers_heuristics run_attack st = (Raise e, st').
Proof.
  funelim (follow_redirects cache_headers_heuristics run_attack st);
    intros Hg Hi; congruence.
Qed.

(** X17: a pair answered with status 301 or 302 (in either response) whose
    first response has no [location] header is not handled as a redirect:
    reading the header raises KeyError, which the loop does not catch; the
    loop ends there, after this one attack, with nothing recorded. *)
Theorem redirect_without_location_raises (st : loop_state) (r : result)
    (rest : list result) (status1 : string) :
  guard st = true ->
  run_attack (attacks st) = Results (r :: rest) ->
  dict_get (response_headers1 r) ":status" = Some status1 ->
  (is_redirect status1 = true
   \/ exists status2, dict_get (response_headers2 r) ":status" = Some status2
                      /\ is_redirect status2 = true) ->
  dict_get (response_headers1 r) "location" = None ->
  exists st',
    follow_redirects cache_headers_heuristics run_attack st
    = (Raise (KeyError "location"), st')
    /\ randomized st' = randomized st
    /\ attacks st' = S (attacks st).
Proof.
  intros Hg Hrun Hs1 Hred Hloc.
  destruct (handle_result_without_location r (start_attack st) status1 Hs1 Hred Hloc)
    as [st' [Hh [Hr Ha]]].
  exists st'. split; [ | split; [exact Hr | exact Ha]].
  apply follow_redirects_raise; [exact Hg | ].
  unfold iteration. unfold bind at 1. unfold get at 1. cbn [fst snd].
  unfold bind at 1. unfold modify at 1. cbn [fst snd]. rewrite Hrun.
  cbn [for_each]. unfold bind. now rewrite Hh.
Qed.

End RecordFacts.

(** A server that answers the second request of a pair with a redirect and
    the first with a page. *)
Definition redirect_in_second (n : nat) : ExperimentWcd.attack :=
  ExperimentWcd.Results
    [ExperimentWcd.mk_result 1%float [(":status", "200")]
       [(":status", "302"); ("location", "https://t/c")] "" ""].

Lemma redirect_without_location_raises_witness :
  exists st',
    follow_redirects no_cache_headers redirect_in_second
      (ExperimentWcd.enter "https://t/a" "https://t/b" [] false)
    = (Raise (KeyError "location"), st')
    /\ ExperimentWcd.randomized st'
       = ExperimentWcd.randomized (ExperimentWcd.enter "https://t/a" "https://t/b" [] false)
    /\ ExperimentWcd.attacks st'
       = S (ExperimentWcd.attacks (ExperimentWcd.enter "https://t/a" "https://t/b" [] false)).
Proof.
  apply (redirect_without_location_raises no_cache_headers redirect_in_second
           (ExperimentWcd.enter "https://t/a" "https://t/b" [] false)
           (ExperimentWcd.mk_result 1%float [(":status", "200")]
              [(":status", "302"); ("location", "https://t/c")] "" "")
           [] "200").
  - reflexivity.
  - reflexivity.
  - reflexivity.
  - right. exists "302". split; reflexivity.
  - reflexivity.
Defined.

(* ===================================================================== *)
(** * The verdict: what it depends on, and how it fails *)
(* ===================================================================== *)

Section VerdictFacts.

Import Analysis.

Variable L : libm.
Variable ttest_ind : list float -> list float -> bool -> float * float.

Lemma time_diffs_length (a b : list request_pair) :
  time_diffs a = time_diffs b -> List.length a = List.length b.
Proof.
  intros H. apply (f_equal (@List.length float)) in H.
  unfold time_diffs in H. now rewrite !length_map in H.
Qed.

Lemma div_len_length {A B} (x : float) (a : list A) (b : list B) :
  List.length a = List.length b -> div_len x a = div_len x b.
Proof.
  intros H. destruct a, b; try discriminate; [reflexivity | ].
  unfold div_len, float_of_len. now rewrite H.
Qed.

Lemma omap_map {A B C} (g : A -> B) (f : B -> outcome C) (l : list A) :
  omap (fun x => f (g x)) l = omap f (map g l).
Proof.
  induction l as [ | x l IH]; cbn [omap map]; [reflexivity | now rewrite IH].
Qed.

Lemma filter_map_comm {A B} (g : A -> B) (p : B -> bool) (l : list A) :
  map g (filter (fun x => p (g x)) l) = filter p (map g l).
Proof.
  induction l as [ | x l IH]; cbn [filter map]; [reflexivity | ].
  destruct (p (g x)); cbn [map]; now rewrite IH.
Qed.

Lemma average_of_diffs (a b : list request_pair) :
  time_diffs a = time_diffs b -> average_of a = average_of b.
Proof.
  intros H. unfold average_of. rewrite H.
  apply div_len_length. now apply time_diffs_length.
Qed.

Lemma std_of_diffs (a b : list request_pair) (average : float) :
  time_diffs a = time_diffs b -> std_of L a average = std_of L b average.
Proof.
  intros H. unfold std_of.
  rewrite (omap_map time_diff (fun x => pow2 L (x - average)%float) a).
  rewrite (omap_map time_diff (fun x => pow2 L (x - average)%float) b).
  fold (time_diffs a). fold (time_diffs b). rewrite H.
  destruct (omap _ (time_diffs b)) as [squares | e | ]; cbn [obind]; try reflexivity.
  now rewrite (div_len_length (Py.sum squares) a b (time_diffs_length a b H)).
Qed.

(** Two results that are the same exception, or two lists with the same
    time differences. *)
Definition same_diffs (x y : outcome (list request_pair)) : Prop :=
  match x, y with
  | Ok a, Ok b => time_diffs a = time_diffs b
  | Raise e, Raise e' => e = e'
  | Timeout, Timeout => True
  | _, _ => False
  end.

Lemma remove_outliers_diffs (a b : list request_pair) (factor : float) :
  time_diffs a = time_diffs b ->
  same_diffs (remove_outliers L a factor) (remove_outliers L b factor).
Proof.
  intros H. unfold remove_outliers.
  rewrite (average_of_diffs a b H).
  destruct (average_of b) as [average | e | ]; cbn [obind same_diffs]; trivial.
  rewrite (std_of_diffs a b average H).
  destruct (std_of L b average) as [[std | ] | e | ]; cbn [obind same_diffs]; trivial.
  2: { destruct a, b; try discriminate H; reflexivity. }
  unfold time_diffs, inside.
  rewrite (filter_map_comm time_diff
             (fun x => PrimFloat.ltb (abs (x - average)) (factor * std)) a).
  rewrite (filter_map_comm time_diff
             (fun x => PrimFloat.ltb (abs (x - average)) (factor * std)) b).
  fold (time_diffs a). fold (time_diffs b). now rewrite H.
Qed.

Lemma amplified_diffs (a b : list request_pair) (average : float) :
  time_diffs a = time_diffs b -> amplified average a = amplified average b.
Proof.
  intros H. unfold amplified.
  rewrite <- (map_map time_diff
                (fun x => if PrimFloat.ltb average 0
                          then (x * enhancing_factor)%float else x) a).
  rewrite <- (map_map time_diff
                (fun x => if PrimFloat.ltb average 0
                          then (x * enhancing_factor)%float else x) b).
  fold (time_diffs a). fold (time_diffs b). now rewrite H.
Qed.

(** X18: the verdict of [predict], its exception included, and the call it
    makes to the t-test depend on the time differences alone: two inputs that
    differ only in the cache statuses of their pairs get the same. *)
Theorem predict_time_diffs_only (randomized randomized' fixed fixed' : list request_pair)
    (calls : store) :
  time_diffs randomized = time_diffs randomized' ->
  time_diffs fixed = time_diffs fixed' ->
  predict L ttest_ind randomized fixed calls = predict L ttest_ind randomized' fixed' calls.
Proof.
  intros Hr Hf.
  pose proof (remove_outliers_diffs randomized randomized' default_factor Hr) as Hr'.
  pose proof (remove_outliers_diffs fixed fixed' default_factor Hf) as Hf'.
  destruct (remove_outliers L randomized default_factor) as [r | e | ] eqn:Er,
    (remove_outliers L randomized' default_factor) as [r' | e' | ] eqn:Er';
    cbn [same_diffs] in Hr'; try contradiction.
  2: { subst e'. unfold predict, bind, lift. now rewrite Er, Er'. }
  2: { unfold predict, bind, lift. now rewrite Er, Er'. }
  destruct (remove_outliers L fixed default_factor) as [f | e | ] eqn:Ef,
    (remove_outliers L fixed' default_factor) as [f' | e' | ] eqn:Ef';
    cbn [same_diffs] in Hf'; try contradiction.
  2: { subst e'. unfold predict, bind, lift. now rewrite Er, Er', Ef, Ef'. }
  2: { unfold predict, bind, lift. now rewrite Er, Er', Ef, Ef'. }
  rewrite (predict_after_trimming L ttest_ind _ _ _ _ calls Er Ef).
  rewrite (predict_after_trimming L ttest_ind _ _ _ _ calls Er' Ef').
  rewrite (time_diffs_length r r' Hr'), (time_diffs_length f f' Hf').
  destruct ((List.length r' =? 0)%nat || (List.length f' =? 0)%nat); [reflexivity | ].
  unfold bind, lift.
  rewrite (average_of_diffs r r' Hr').
  destruct (average_of r') as [ra | e | ]; try reflexivity.
  rewrite (std_of_diffs r r' ra Hr').
  destruct (std_of L r' ra) as [rs | e | ]; try reflexivity.
  rewrite (average_of_diffs f f' Hf').
  destruct (average_of f') as [fa | e | ]; try reflexivity.
  rewrite (std_of_diffs f f' fa Hf').
  destruct (std_of L f' fa) as [fs | e | ]; try reflexivity.
  now rewrite Hr', (amplified_diffs f f' fa Hf').
Qed.

(** X19: [predict] has no guard of its own against an empty input: with
    an empty randomized list it raises ZeroDivisionError, and so it does with
    an empty fixed list once the randomized list is trimmed; in both cases
    before any t-test. *)
Theorem predict_empty_input (randomized fixed : list request_pair) (calls : store) :
  randomized = []
  \/ (fixed = [] /\ exists r, remove_outliers L randomized default_factor = Ok r) ->
  predict L ttest_ind randomized fixed calls = (Raise ZeroDivisionError, calls).
Proof.
  intros [-> | [-> [r Hr]]].
  - reflexivity.
  - unfold predict, bind, lift. now rewrite Hr.
Qed.

(** A result that is a value or OverflowError. *)
Definition overflow_only {A} (o : outcome A) : Prop :=
  (exists a, o = Ok a) \/ o = Raise OverflowError.

(** Code that returns or raises OverflowError. *)
Definition raises_only_overflow {A} (m : M store A) : Prop :=
  forall calls, overflow_only (fst (m calls)).

Lemma overflow_only_bind {A B} (o : outcome A) (k : A -> outcome B) :
  overflow_only o -> (forall a, overflow_only (k a)) -> overflow_only (obind o k).
Proof.
  intros [[a ->] | ->] Hk; cbn [obind]; [apply Hk | now right].
Qed.

Lemma raises_only_overflow_ret {A} (a : A) : raises_only_overflow (ret a).
Proof. intros calls. left. now exists a. Qed.

Lemma raises_only_overflow_lift {A} (o : outcome A) :
  overflow_only o -> raises_only_overflow (@lift store A o).
Proof. intros H calls. exact H. Qed.

Lemma raises_only_overflow_bind {A B} (m : M store A) (k : A -> M store B) :
  raises_only_overflow m -> (forall a, raises_only_overflow (k a)) ->
  raises_only_overflow (bind m k).
Proof.
  intros Hm Hk calls. unfold bind. specialize (Hm calls).
  destruct (m calls) as [[a | e | ] s1]; cbn [fst] in *.
  - apply Hk.
  - destruct Hm as [[a Ha] | Ha]; [discriminate | ]. right. congruence.
  - destruct Hm as [[a Ha] | Ha]; discriminate.
Qed.

(** The squares are computed, none of them negative, or one overflows. *)
Lemma squares_cases (data : list request_pair) (average : float) :
  (exists squares,
      omap (fun p => pow2 L (time_diff p - average)%float) data = Ok squares
      /\ Forall not_negative squares)
  \/ omap (fun p => pow2 L (time_diff p - average)%float) data = Raise OverflowError.
Proof.
  induction data as [ | p data IH]; cbn [omap].
  - left. exists []. split; [reflexivity | constructor].
  - destruct (pow2_cases L (time_diff p - average)) as [[y [-> Hy]] | ->];
      [ | now right].
    cbn [obind]. destruct IH as [[squares [-> Hall]] | ->]; [ | now right].
    left. exists (y :: squares). split; [reflexivity | now constructor].
Qed.

(** The deviation of a non-empty list is a float, never a complex number:
    a mean of squares is not negative. *)
Lemma std_of_cases (data : list request_pair) (average : float) :
  data <> [] ->
  (exists sd, std_of L data average = Ok (Real sd))
  \/ std_of L data average = Raise OverflowError.
Proof.
  intros Hne. unfold std_of.
  destruct (squares_cases data average) as [[squares [-> Hall]] | ->]; [ | now right].
  cbn [obind]. destruct data as [ | p data]; [congruence | ]. cbn [div_len obind].
  destruct (pow_half_cases L (Py.sum squares / float_of_len (p :: data)))
    as [[sd [-> _]] | ->]; [ | now left; exists sd | now right].
  apply div_not_negative; [ | apply float_of_len_plus].
  unfold Py.sum. apply sum_not_negative; [reflexivity | exact Hall].
Qed.

Lemma std_of_overflow_only (data : list request_pair) (average : float) :
  data <> [] -> overflow_only (std_of L data average).
Proof.
  intros Hne. destruct (std_of_cases data average Hne) as [[sd ->] | ->];
    [left; now eexists | now right].
Qed.

Lemma remove_outliers_overflow_only (data : list request_pair) (factor : float) :
  data <> [] -> overflow_only (remove_outliers L data factor).
Proof.
  intros Hne. unfold remove_outliers.
  rewrite (average_of_nonempty data Hne). cbn [obind].
  destruct (std_of_cases data (mean data) Hne) as [[sd ->] | ->];
    [left; now eexists | now right].
Qed.

Lemma length_nonzero {A} (l : list A) : (List.length l =? 0)%nat = false -> l <> [].
Proof. now destruct l. Qed.

Lemma predict_raises_only_overflow (randomized fixed : list request_pair) :
  randomized <> [] -> fixed <> [] ->
  raises_only_overflow (predict L ttest_ind randomized fixed).
Proof.
  intros Hr Hf. unfold predict.
  apply raises_only_overflow_bind.
  { apply raises_only_overflow_lift. now apply remove_outliers_overflow_only. }
  intros r. apply raises_only_overflow_bind.
  { apply raises_only_overflow_lift. now apply remove_outliers_overflow_only. }
  intros f.
  destruct (List.length r =? 0)%nat eqn:Er; [apply raises_only_overflow_ret | ].
  destruct (List.length f =? 0)%nat eqn:Ef; [apply raises_only_overflow_ret | ].
  cbn [orb]. apply length_nonzero in Er, Ef.
  rewrite (average_of_nonempty r Er), (average_of_nonempty f Ef).
  apply raises_only_overflow_bind; [apply raises_only_overflow_lift; left; now eexists | ].
  intros ra. apply raises_only_overflow_bind.
  { apply raises_only_overflow_lift. now apply std_of_overflow_only. }
  intros rs. apply raises_only_overflow_bind;
    [apply raises_only_overflow_lift; left; now eexists | ].
  intros fa. apply raises_only_overflow_bind.
  { apply raises_only_overflow_lift. now apply std_of_overflow_only. }
  intros fs. destruct (PrimFloat.ltb 0 fa); [apply raises_only_overflow_ret | ].
  apply raises_only_overflow_bind.
  { intros calls. left. now eexists. }
  intros tp. destruct (PrimFloat.leb (snd tp) alpha); apply raises_only_overflow_ret.
Qed.

Lemma for_each_raises_only_overflow {X A R} (l : list X)
    (body : X -> A -> M store (flow A R)) :
  (forall x acc, raises_only_overflow (body x acc)) ->
  forall acc, raises_only_overflow (for_each l acc body).
Proof.
  intros Hb. induction l as [ | x l IH]; intros acc; cbn [for_each].
  - apply raises_only_overflow_ret.
  - apply raises_only_overflow_bind; [apply Hb | ].
    intros [acc' | acc' | v]; [apply IH | apply raises_only_overflow_ret .. ].
Qed.

Lemma analyse_mode_raises_only_overflow (url extension mode : string) (b : bucket)
    (analysis : analysis_t) :
  raises_only_overflow (analyse_mode L ttest_ind url extension mode b analysis).
Proof.
  unfold analyse_mode.
  destruct (dict_get b "randomized") as [raw_randomized | ];
    [ | apply raises_only_overflow_ret].
  destruct (dict_get b "fixed") as [raw_fixed | ]; [ | apply raises_only_overflow_ret].
  destruct (List.length (summarise raw_fixed) =? 0)%nat eqn:Ef;
    [apply raises_only_overflow_ret | ].
  destruct (List.length (summarise raw_randomized) =? 0)%nat eqn:Er;
    [apply raises_only_overflow_ret | ].
  cbn [orb]. apply length_nonzero in Er, Ef.
  apply raises_only_overflow_bind; [now apply predict_raises_only_overflow | ].
  intros [verdict | ]; apply raises_only_overflow_ret.
Qed.

(** X20: whatever the data and whatever the C library, [analyse] does not
    divide by zero: it tests both lists of a bucket before it calls
    [predict], so that, the t-test apart, it returns or raises OverflowError
    (from a power). In particular the deviation is never a complex number,
    the power of a positive base being not negative. *)
Theorem analyse_raises_only_overflow (site : string) (data : dict (dict (dict bucket)))
    (calls : store) :
  (exists r, fst (analyse L ttest_ind site data calls) = Ok r)
  \/ fst (analyse L ttest_ind site data calls) = Raise OverflowError.
Proof.
  revert calls. change (raises_only_overflow (analyse L ttest_ind site data)).
  unfold analyse. apply raises_only_overflow_bind.
  - apply for_each_raises_only_overflow. intros [url extensions] analysis.
    apply for_each_raises_only_overflow. intros [extension modes] analysis'.
    apply for_each_raises_only_overflow. intros [mode b] analysis''.
    apply analyse_mode_raises_only_overflow.
  - intros [analysis | analysis | v]; apply raises_only_overflow_ret.
Qed.

End VerdictFacts.

Definition rising_with_statuses : list Analysis.request_pair :=
  map (fun x => Analysis.mk_pair x "MISS" "HIT") [1; 2; 3]%float.

Definition falling_with_statuses : list Analysis.request_pair :=
  map (fun x => Analysis.mk_pair x "HIT" "HIT") [-1; -2; -3]%float.

Lemma predict_time_diffs_only_witness :
  Analysis.predict rounded_libm constant_ttest rising falling []
  = Analysis.predict rounded_libm constant_ttest rising_with_statuses falling_with_statuses [].
Proof.
  apply (predict_time_diffs_only rounded_libm constant_ttest
           rising rising_with_statuses falling falling_with_statuses []);
    reflexivity.
Defined.

Lemma predict_empty_input_witness :
  Analysis.predict rounded_libm constant_ttest [sample_of 1%float] [] []
  = (Raise ZeroDivisionError, []).
Proof.
  apply (predict_empty_input rounded_libm constant_ttest [sample_of 1%float] [] []).
  right. split; [reflexivity | ]. exists []. vm_compute. reflexivity.
Defined.

(* ===================================================================== *)
(** * The controller: a redirect and its two locations *)
(* ===================================================================== *)

Section LocationFacts.

Import ExperimentWcd.

Variable cache_headers_heuristics : dict string -> string.
Variable run_attack : nat -> attack.

(** The state after the cache statuses of a result were looked at. *)
Definition noted (r : result) (st : loop_state) : loop_state :=
  if negb (String.eqb (cache_headers_heuristics (response_headers1 r)) "-")
     || negb (String.eqb (cache_headers_heuristics (response_headers2 r)) "-")
  then set_cache_headers st else st.

(** The pair is a redirect: the test of the statuses, which reads the second
    only when the first is none. *)
Definition redirected (r : result) : Prop :=
  exists status1,
    dict_get (response_headers1 r) ":status" = Some status1
    /\ (is_redirect status1 = true
        \/ exists status2, dict_get (response_headers2 r) ":status" = Some status2
                           /\ is_redirect status2 = true).

(** Up to the branch of a redirect. *)
Lemma handle_result_redirected (r : result) (st : loop_state) :
  redirected r ->
  handle_result cache_headers_heuristics r tt st
  = (let h1 := response_headers1 r in
     let h2 := response_headers2 r in
     st <- get ;;
     location1 <- lift (item h1 "location") ;;
     (if String.eqb (url1 st) location1 then ret tt
      else location2 <- lift (item h2 "location") ;; ret tt) ;;;
     (if dict_mem h1 "location"
      then modify (fun st => set_url1 (resolve (url1 st) location1) st)
      else ret tt) ;;;
     (if dict_mem h2 "location"
      then location2 <- lift (item h2 "location") ;;
           modify (fun st => set_url2 (resolve (url2 st) location2) st)
      else ret tt) ;;;
     _ <- lift (item h1 "location") ;;
     modify count_redirect ;;;
     ret (Break tt)) (noted r st).
Proof.
  intros [status1 [Hs1 Hred]]. unfold handle_result, noted. cbv zeta.
  unfold bind at 1.
  replace ((if _ : bool then modify set_cache_headers else ret tt) st)
    with (Ok tt, if negb (String.eqb (cache_headers_heuristics (response_headers1 r)) "-")
                    || negb (String.eqb (cache_headers_heuristics (response_headers2 r)) "-")
                 then set_cache_headers st else st)
    by (destruct (_ || _); reflexivity).
  unfold bind at 1. unfold lift at 1, item at 1. rewrite Hs1.
  unfold bind at 1.
  destruct Hred as [E1 | [status2 [Hs2 E2]]].
  - rewrite E1. reflexivity.
  - destruct (is_redirect status1); [reflexivity | ].
    unfold bind at 1. unfold lift at 1, item at 1. rewrite Hs2.
    unfold ret at 1. rewrite E2. reflexivity.
Qed.

Lemma iteration_first_result (st : loop_state) (r : result) (rest : list result) :
  run_attack (attacks st) = Results (r :: rest) ->
  iteration cache_headers_heuristics run_attack st
  = match handle_result cache_headers_heuristics r tt (start_attack st) with
    | (Ok (Continue _), st') =>
        (for_each rest tt (handle_result cache_headers_heuristics) ;;; ret tt) st'
    | (Ok _, st') => (Ok tt, st')
    | (Raise e, st') => (Raise e, st')
    | (Timeout, st') => (Timeout, st')
    end.
Proof.
  intros Hrun. unfold iteration. unfold bind at 1. unfold get at 1. cbn [fst snd].
  unfold bind at 1. unfold modify at 1. cbn [fst snd]. rewrite Hrun.
  cbn [for_each]. unfold bind at 1. unfold bind at 1.
  destruct (handle_result cache_headers_heuristics r tt (start_attack st))
    as [[[[] | [] | []] | e | ] st']; reflexivity.
Qed.

(** X21: a redirect is followed only when both responses carry a
    [location]: when the first response has one that differs from the URL
    requested and the second has none, the test for a redirect loop reads
    the missing header and raises KeyError, which ends the loop with nothing
    recorded and both URLs as they were. *)
Theorem redirect_needs_second_location (st : loop_state) (r : result)
    (rest : list result) (location1 : string) :
  guard st = true ->
  run_attack (attacks st) = Results (r :: rest) ->
  redirected r ->
  dict_get (response_headers1 r) "location" = Some location1 ->
  url1 st <> location1 ->
  dict_get (response_headers2 r) "location" = None ->
  exists st',
    follow_redirects cache_headers_heuristics run_attack st
    = (Raise (KeyError "location"), st')
    /\ randomized st' = randomized st
    /\ url1 st' = url1 st /\ url2 st' = url2 st.
Proof.
  intros Hg Hrun Hred Hl1 Hne Hl2.
  exists (noted r (start_attack st)). split.
  - apply follow_redirects_raise; [exact Hg | ].
    rewrite (iteration_first_result st r rest Hrun).
    rewrite (handle_result_redirected r (start_attack st) Hred). cbv zeta.
    unfold bind at 1. unfold get at 1. cbn [fst snd].
    unfold bind at 1. unfold lift at 1, item at 1. rewrite Hl1.
    replace (url1 (noted r (start_attack st))) with (url1 st)
      by (unfold noted; destruct (_ || _); reflexivity).
    destruct (String.eqb_spec (url1 st) location1) as [E | _]; [contradiction | ].
    unfold bind at 1. unfold bind at 1. unfold lift at 1, item at 1. rewrite Hl2.
    reflexivity.
  - unfold noted. destruct (_ || _); repeat split.
Qed.

(** X22: when both responses of a redirected pair carry a [location], the
    turn of the loop records nothing and asks for another: each URL becomes
    its location (an absolute one as it is, another as the new path of the
    URL), the hop counter goes up by one, and what the attack returned after
    that pair is not looked at. *)
Theorem redirect_followed (st : loop_state) (r : result) (rest : list result)
    (location1 location2 : string) :
  run_attack (attacks st) = Results (r :: rest) ->
  redirected r ->
  dict_get (response_headers1 r) "location" = Some location1 ->
  dict_get (response_headers2 r) "location" = Some location2 ->
  iteration cache_headers_heuristics run_attack st
  = (Ok tt,
     mk_state (resolve (url1 st) location1) (resolve (url2 st) location2)
       true (S (redirects_followed st)) (S (attacks st)) (randomized st)
       (cache_headers (noted r st))).
Proof.
  intros Hrun Hred Hl1 Hl2.
  rewrite (iteration_first_result st r rest Hrun).
  rewrite (handle_result_redirected r (start_attack st) Hred). cbv zeta.
  unfold dict_mem, item. rewrite Hl1, Hl2.
  unfold bind, get, lift, modify, ret. cbn [fst snd].
  destruct (String.eqb _ location1); cbn [fst snd];
    unfold noted; destruct (_ || _); reflexivity.
Qed.

End LocationFacts.

(** A server that redirects the first request of a pair only, and one that
    redirects both. *)
Definition redirect_in_first (n : nat) : ExperimentWcd.attack :=
  ExperimentWcd.Results
    [ExperimentWcd.mk_result 1%float
       [(":status", "302"); ("location", "https://t/c")]
       [(":status", "200")] "" ""].

Definition redirect_in_both (n : nat) : ExperimentWcd.attack :=
  ExperimentWcd.Results
    [ExperimentWcd.mk_result 1%float
       [(":status", "302"); ("location", "https://t/c")]
       [(":status", "302"); ("location", "/d")] "" ""].

Lemma redirect_needs_second_location_witness :
  exists st',
    follow_redirects no_cache_headers redirect_in_first
      (ExperimentWcd.enter "https://t/a" "https://t/b" [] false)
    = (Raise (KeyError "location"), st')
    /\ ExperimentWcd.randomized st'
       = ExperimentWcd.randomized (ExperimentWcd.enter "https://t/a" "https://t/b" [] false)
    /\ ExperimentWcd.url1 st'
       = ExperimentWcd.url1 (ExperimentWcd.enter "https://t/a" "https://t/b" [] false)
    /\ ExperimentWcd.url2 st'
       = ExperimentWcd.url2 (ExperimentWcd.enter "https://t/a" "https://t/b" [] false).
Proof.
  apply (redirect_needs_second_location no_cache_headers redirect_in_first
           (ExperimentWcd.enter "https://t/a" "https://t/b" [] false)
           (ExperimentWcd.mk_result 1%float
              [(":status", "302"); ("location", "https://t/c")]
              [(":status", "200")] "" "")
           [] "https://t/c").
  - reflexivity.
  - reflexivity.
  - exists "302". split; [reflexivity | left; reflexivity].
  - reflexivity.
  - discriminate.
  - reflexivity.
Defined.

Lemma redirect_followed_witness :
  ExperimentWcd.iteration no_cache_headers redirect_in_both
    (ExperimentWcd.enter "https://t/a" "https://t/b" [] false)
  = (Ok tt,
     ExperimentWcd.mk_state "https://t/c" "https://t/d" true 1 1 [] false).
Proof.
  apply (redirect_followed no_cache_headers redirect_in_both
           (ExperimentWcd.enter "https://t/a" "https://t/b" [] false)
           (ExperimentWcd.mk_result 1%float
              [(":status", "302"); ("location", "https://t/c")]
              [(":status", "302"); ("location", "/d")] "" "")
           [] "https://t/c" "/d").
  - reflexivity.
  - exists "302". split; [reflexivity | left; reflexivity].
  - reflexivity.
  - reflexivity.
Defined.
